(** * Indexed-allocation inode layer (filesys/inode.c)

    A shallow embedding of the inode layer of the file system: the
    three-tier address translation, the growth routine, the read/write
    engine and the registry of open inodes, followed by the properties
    of the specification that were checked against it.

    Conventions.
    - [int] and [off_t] are 32-bit signed: arithmetic on them is written
      with [+i], [-i], [*i] (two's-complement wrap-around), [/i] and
      [%i] (C division truncates towards zero).
    - [block_sector_t] is a 32-bit unsigned sector address; the literal
      [-1] stored in such a slot is [sentinel] = 0xFFFFFFFF.
    - A sector is a list of BLOCK_SECTOR_SIZE bytes; structures are laid
      out little-endian in 4-byte words, as on the x86 target.
    - Every operation runs in the monad [M]: it threads the file-system
      state and may stop with a [fault] (kernel panic or undefined
      behaviour of the C program). *)

From stdpp Require Import base numbers option list gmap fin_maps.
From Stdlib Require Import ZArith Lia.

Local Open Scope Z_scope.

(** ** Machine arithmetic *)

(** Modelled from the spec: BLOCK_SECTOR_SIZE is declared in
    devices/block.h; the sector size is 512 bytes, which is also what
    [ASSERT (sizeof *disk_inode == BLOCK_SECTOR_SIZE)] requires of a
    descriptor of 128 four-byte words. *)
Definition BLOCK_SECTOR_SIZE : Z := 512.
Definition INODE_MAGIC : Z := 0x494e4f44.

Definition to_int (x : Z) : Z := (x + 2147483648) `mod` 4294967296 - 2147483648.
Definition to_uint (x : Z) : Z := x `mod` 4294967296.

(** The value of [-1] converted to [block_sector_t]. *)
Definition sentinel : Z := to_uint (-1).

Definition int_add (a b : Z) : Z := to_int (a + b).
Definition int_sub (a b : Z) : Z := to_int (a - b).
Definition int_mul (a b : Z) : Z := to_int (a * b).
Definition int_div (a b : Z) : Z := to_int (a `quot` b).
Definition int_rem (a b : Z) : Z := a `rem` b.

Infix "+i" := int_add (at level 50, left associativity).
Infix "-i" := int_sub (at level 50, left associativity).
Infix "*i" := int_mul (at level 40, left associativity).
Infix "/i" := int_div (at level 40, left associativity).
Infix "%i" := int_rem (at level 40, left associativity).

Definition in_int (x : Z) : Prop := -2147483648 <= x < 2147483648.

(** ** Sector images *)

(** Little-endian image of a 32-bit word (two's complement for negative
    values) and its inverse. *)
Definition le32 (v : Z) : list Z :=
  [v `mod` 256; (v / 256) `mod` 256; (v / 65536) `mod` 256; (v / 16777216) `mod` 256].

Definition rd32 (b : list Z) : Z :=
  default 0 (b !! 0%nat) + 256 * default 0 (b !! 1%nat)
  + 65536 * default 0 (b !! 2%nat) + 16777216 * default 0 (b !! 3%nat).

Fixpoint words (n : nat) (b : list Z) : list Z :=
  match n with
  | O => []
  | S n' => rd32 (take 4 b) :: words n' (drop 4 b)
  end.

Definition bytes_of_words (ws : list Z) : list Z := concat (map le32 ws).

(** struct inode_disk_level: 128 sector pointers. *)
Definition decode_level (s : list Z) : list Z := words 128 s.
Definition encode_level (index : list Z) : list Z := bytes_of_words index.

(** struct inode_disk. *)
Record inode_disk := mk_inode_disk {
  direct : list Z;          (* block_sector_t direct[10] *)
  single_level : Z;
  double_level : Z;
  length : Z;               (* off_t: file size in bytes *)
  magic : Z;
  unused : list Z           (* uint32_t unused[114] *)
}.

Definition decode_inode (s : list Z) : inode_disk :=
  let w := words 128 s in
  {| direct := take 10 w;
     single_level := default 0 (w !! 10%nat);
     double_level := default 0 (w !! 11%nat);
     length := to_int (default 0 (w !! 12%nat));
     magic := default 0 (w !! 13%nat);
     unused := drop 14 w |}.

Definition encode_inode (d : inode_disk) : list Z :=
  bytes_of_words
    (direct d ++ [single_level d; double_level d; length d; magic d] ++ unused d).

Definition set_direct (v : list Z) (d : inode_disk) : inode_disk :=
  {| direct := v; single_level := single_level d; double_level := double_level d;
     length := length d; magic := magic d; unused := unused d |}.
Definition set_single_level (v : Z) (d : inode_disk) : inode_disk :=
  {| direct := direct d; single_level := v; double_level := double_level d;
     length := length d; magic := magic d; unused := unused d |}.
Definition set_double_level (v : Z) (d : inode_disk) : inode_disk :=
  {| direct := direct d; single_level := single_level d; double_level := v;
     length := length d; magic := magic d; unused := unused d |}.
Definition set_length (v : Z) (d : inode_disk) : inode_disk :=
  {| direct := direct d; single_level := single_level d; double_level := double_level d;
     length := v; magic := magic d; unused := unused d |}.

(** struct inode (the list element and the lock are not data: the list
    linkage is the registry list of the state, and locking is outside a
    sequential model). *)
Record inode := mk_inode {
  sector : Z;
  open_cnt : Z;
  removed : bool;
  deny_write_cnt : Z;
  data : inode_disk
}.

Definition set_open_cnt (v : Z) (i : inode) : inode :=
  {| sector := sector i; open_cnt := v; removed := removed i;
     deny_write_cnt := deny_write_cnt i; data := data i |}.
Definition set_removed (v : bool) (i : inode) : inode :=
  {| sector := sector i; open_cnt := open_cnt i; removed := v;
     deny_write_cnt := deny_write_cnt i; data := data i |}.
Definition set_deny_write_cnt (v : Z) (i : inode) : inode :=
  {| sector := sector i; open_cnt := open_cnt i; removed := removed i;
     deny_write_cnt := v; data := data i |}.
Definition set_data (v : inode_disk) (i : inode) : inode :=
  {| sector := sector i; open_cnt := open_cnt i; removed := removed i;
     deny_write_cnt := deny_write_cnt i; data := v |}.

(** ** The block allocator interface *)

(** Modelled from the spec: the free-sector allocator (filesys/free-map.c)
    is an external collaborator with the interface [allocate(count)],
    which may supply nothing, and [release(addr, count)].  It is taken as
    an interface over an abstract allocator state. *)
Class FreeMap (F : Type) := {
  free_map_allocate : Z -> F -> option (Z * F);
  free_map_release : Z -> Z -> F -> F
}.

(** ** State, faults and the monad *)

Inductive io_event :=
| IoRead (s : Z)
| IoWrite (s : Z).

Inductive fault :=
| DevicePanic      (* sector access outside the device *)
| OutOfBounds      (* array subscript outside the array *)
| BadPointer       (* null or dangling struct inode pointer *)
| AssertFail       (* ASSERT (...) failed *)
| Uninitialized    (* use of a local that was never assigned *)
| BufferOverrun.   (* the caller's buffer is shorter than the transfer *)

Inductive outcome (A : Type) :=
| Done (a : A)
| Fault (f : fault).
Arguments Done {A} a.
Arguments Fault {A} f.

Section Inode.

Context {F : Type} `{FreeMap F}.

(** Modelled from the spec: the block device (devices/block.c) transfers
    whole sectors over the address space of the device; here the
    addresses of the device are the keys of [fs_device], and an access
    outside it stops the kernel. *)
Record fs_state := mk_state {
  fs_device : gmap Z (list Z);
  free_map : F;
  open_inodes : list nat;        (* static struct list open_inodes *)
  heap : gmap nat inode;         (* the struct inode objects *)
  io_log : list io_event         (* device transfers, oldest first *)
}.

Definition set_device (v : gmap Z (list Z)) (st : fs_state) : fs_state :=
  {| fs_device := v; free_map := free_map st; open_inodes := open_inodes st;
     heap := heap st; io_log := io_log st |}.
Definition set_free_map (v : F) (st : fs_state) : fs_state :=
  {| fs_device := fs_device st; free_map := v; open_inodes := open_inodes st;
     heap := heap st; io_log := io_log st |}.
Definition set_open_inodes (v : list nat) (st : fs_state) : fs_state :=
  {| fs_device := fs_device st; free_map := free_map st; open_inodes := v;
     heap := heap st; io_log := io_log st |}.
Definition set_heap (v : gmap nat inode) (st : fs_state) : fs_state :=
  {| fs_device := fs_device st; free_map := free_map st; open_inodes := open_inodes st;
     heap := v; io_log := io_log st |}.
Definition set_io_log (v : list io_event) (st : fs_state) : fs_state :=
  {| fs_device := fs_device st; free_map := free_map st; open_inodes := open_inodes st;
     heap := heap st; io_log := v |}.

Definition M (A : Type) : Type := fs_state -> outcome (A * fs_state).

Definition ret {A} (a : A) : M A := fun st => Done (a, st).
Definition bind {A B} (m : M A) (k : A -> M B) : M B :=
  fun st => match m st with
            | Done (a, st') => k a st'
            | Fault f => Fault f
            end.
Definition fail {A} (f : fault) : M A := fun _ => Fault f.

Notation "x <- c ;; k" := (bind c (fun x => k))
  (at level 100, c at next level, right associativity).
Notation "c ;;; k" := (bind c (fun _ => k))
  (at level 100, right associativity).

(** ** Device and memory primitives *)

(** Modelled from the spec: [read_sector(addr)] of the block device
    (block_read of devices/block.c) yields the content of the sector; an
    address outside the device stops the kernel.  The transfer is
    logged. *)
Definition block_read (s : Z) : M (list Z) := fun st =>
  match fs_device st !! s with
  | Some d => Done (d, set_io_log (io_log st ++ [IoRead s]) st)
  | None => Fault DevicePanic
  end.

(** Modelled from the spec: [write_sector(addr, buffer)] of the block
    device (block_write of devices/block.c) replaces the content of the
    sector; an address outside the device stops the kernel.  The
    transfer is logged. *)
Definition block_write (s : Z) (d : list Z) : M unit := fun st =>
  match fs_device st !! s with
  | Some _ =>
      Done (tt, set_io_log (io_log st ++ [IoWrite s])
                  (set_device (<[s := d]> (fs_device st)) st))
  | None => Fault DevicePanic
  end.

(** [a[i]] for a C array held as a list of its declared length; a
    subscript outside the array is undefined behaviour. *)
Definition array_get (a : list Z) (i : Z) : M Z :=
  if (i <? 0) || (Z.of_nat (List.length a) <=? i) then fail OutOfBounds
  else match a !! Z.to_nat i with
       | Some v => ret v
       | None => fail OutOfBounds
       end.

(** Dereference of a [struct inode *]; [None] is the null pointer. *)
Definition deref (ptr : option nat) : M inode := fun st =>
  match ptr with
  | None => Fault BadPointer
  | Some p => match heap st !! p with
              | Some i => Done (i, st)
              | None => Fault BadPointer
              end
  end.

(** Assignment through a [struct inode *]. *)
Definition store (p : nat) (i : inode) : M unit := fun st =>
  match heap st !! p with
  | Some _ => Done (tt, set_heap (<[p := i]> (heap st)) st)
  | None => Fault BadPointer
  end.

(** ** Address translation *)

(** byte_to_sector (inode.c:63-88). *)
Definition byte_to_sector (inode : option nat) (pos : Z) : M Z :=
  match inode with
  | None => fail AssertFail                     (* ASSERT (inode != NULL) *)
  | Some _ =>
    ino <- deref inode ;;
    let disk_inode := data ino in
    let quotient := pos /i BLOCK_SECTOR_SIZE in
    if quotient <? 10 then array_get (direct disk_inode) quotient
    else
      let quotient := quotient -i 10 in
      if quotient <? 128 then
        buffer <- block_read (single_level disk_inode) ;;
        array_get (decode_level buffer) quotient
      else
        let quotient := quotient -i 128 in
        if quotient <? 128 *i 128 then
          let remainder := quotient %i 128 in
          let quotient := quotient /i 128 in
          buffer <- block_read (double_level disk_inode) ;;
          s <- array_get (decode_level buffer) quotient ;;
          buffer <- block_read s ;;
          array_get (decode_level buffer) remainder
        else ret sentinel                        (* return -1 *)
  end.

(** ** Allocator and registry primitives *)

(** Modelled from the spec: [free_map_allocate (cnt, &sector)] of
    filesys/free-map.c as a step on the state; [None] is the result
    [false], which leaves [*sector] as it was. *)
Definition fm_allocate (cnt : Z) : M (option Z) := fun st =>
  match free_map_allocate cnt (free_map st) with
  | Some (s, f) => Done (Some s, set_free_map f st)
  | None => Done (None, st)
  end.

(** Modelled from the spec: [free_map_release (sector, cnt)] of
    filesys/free-map.c as a step on the state. *)
Definition fm_release (s cnt : Z) : M unit := fun st =>
  Done (tt, set_free_map (free_map_release s cnt (free_map st)) st).

(** The content of a [struct inode] fresh from malloc: indeterminate in
    C (inode_open assigns every field before it is read). *)
Definition blank_inode : inode :=
  {| sector := 0; open_cnt := 0; removed := false; deny_write_cnt := 0;
     data := mk_inode_disk [] 0 0 0 0 [] |}.

(** Modelled from the spec: the allocation of a new in-memory handle
    (malloc of threads/malloc.c) yields an object at an address that no
    live handle has. *)
Definition malloc_inode : M nat := fun st =>
  let p := fresh (dom (heap st)) in
  Done (p, set_heap (<[p := blank_inode]> (heap st)) st).

(** Modelled from the spec: freeing the in-memory handle (free of
    threads/malloc.c) ends the life of the object. *)
Definition free_inode (p : nat) : M unit := fun st =>
  match heap st !! p with
  | Some _ => Done (tt, set_heap (delete p (heap st)) st)
  | None => Fault BadPointer
  end.

(** Modelled from the spec: the registry is the list open_inodes of
    handles; list_push_front and list_remove of lib/kernel/list.c insert
    a handle at the front and take a handle out.  A handle is an element
    of the list at most once, so taking it out removes every occurrence
    of its address. *)
Definition list_push_front (p : nat) : M unit := fun st =>
  Done (tt, set_open_inodes (p :: open_inodes st) st).

Definition list_remove (p : nat) : M unit := fun st =>
  Done (tt, set_open_inodes (filter (fun q => q <> p) (open_inodes st)) st).

(** ** Lifecycle *)

(** inode_init (inode.c:95-99). *)
Definition inode_init : M unit := fun st => Done (tt, set_open_inodes [] st).

(** inode_create (inode.c:106-135); [calloc_ok] tells whether calloc
    returned memory. *)
Definition inode_create (calloc_ok : bool) (sector length : Z) : M bool :=
  if length <? 0 then fail AssertFail             (* ASSERT (length >= 0) *)
  else if calloc_ok then
    let disk_inode :=
      {| direct := replicate 10 sentinel;
         single_level := sentinel;
         double_level := sentinel;
         length := 0;
         magic := INODE_MAGIC;
         unused := replicate 114 0 |} in
    block_write sector (encode_inode disk_inode) ;;;
    ret true
  else ret false.

(** inode_reopen (inode.c:175-181). *)
Definition inode_reopen (inode : option nat) : M (option nat) :=
  match inode with
  | None => ret None
  | Some p =>
      ino <- deref inode ;;
      store p (set_open_cnt (open_cnt ino +i 1) ino) ;;;
      ret inode
  end.

(** The search loop of inode_open (inode.c:147-156). *)
Fixpoint find_open (l : list nat) (sector_ : Z) : M (option nat) :=
  match l with
  | [] => ret None
  | e :: l' =>
      ino <- deref (Some e) ;;
      if sector ino =? sector_ then ret (Some e) else find_open l' sector_
  end.

(** inode_open (inode.c:140-172); [malloc_ok] tells whether malloc
    returned memory. *)
Definition inode_open (malloc_ok : bool) (sector_ : Z) : M (option nat) :=
  fun st =>
  (found <- find_open (open_inodes st) sector_ ;;
   match found with
   | Some e => inode_reopen (Some e)
   | None =>
       if malloc_ok then
         p <- malloc_inode ;;
         list_push_front p ;;;
         store p {| sector := sector_; open_cnt := 1; removed := false;
                    deny_write_cnt := 0; data := data blank_inode |} ;;;
         d <- block_read sector_ ;;
         ino <- deref (Some p) ;;
         store p (set_data (decode_inode d) ino) ;;;
         ret (Some p)
       else ret None
   end) st.

(** inode_get_inumber (inode.c:184-188). *)
Definition inode_get_inumber (inode : option nat) : M Z :=
  ino <- deref inode ;; ret (sector ino).

(** One release loop of inode_close:
    [for (...) { if (a[i] == -1) goto ...; free_map_release (a[i], 1); }].
    The result tells whether the loop ran to its end. *)
Fixpoint release_run (a : list Z) : M bool :=
  match a with
  | [] => ret true
  | s :: a' =>
      if s =? sentinel then ret false
      else fm_release s 1 ;;; release_run a'
  end.

(** The double-indirect loop of inode_close (inode.c:238-257): on a
    sentinel in the outer block the walk stops; on a sentinel in an
    inner block the inner block is released and the walk stops. *)
Fixpoint release_double (outer : list Z) : M unit :=
  match outer with
  | [] => ret tt
  | s :: outer' =>
      if s =? sentinel then ret tt
      else
        buffer2 <- block_read s ;;
        full <- release_run (decode_level buffer2) ;;
        fm_release s 1 ;;;
        if full then release_double outer' else ret tt
  end.

(** The reclamation of inode_close (inode.c:209-258), up to [done]. *)
Definition reclaim (ino : inode) : M unit :=
  fm_release (sector ino) 1 ;;;
  full <- release_run (direct (data ino)) ;;
  if negb full then ret tt
  else if single_level (data ino) =? sentinel then ret tt
  else
    buffer1 <- block_read (single_level (data ino)) ;;
    full <- release_run (decode_level buffer1) ;;
    fm_release (single_level (data ino)) 1 ;;;
    if negb full then ret tt
    else if double_level (data ino) =? sentinel then ret tt
    else
      buffer1 <- block_read (double_level (data ino)) ;;
      release_double (decode_level buffer1) ;;;
      fm_release (double_level (data ino)) 1.

(** inode_close (inode.c:193-263). *)
Definition inode_close (inode : option nat) : M unit :=
  match inode with
  | None => ret tt
  | Some p =>
      ino <- deref inode ;;
      let ino := set_open_cnt (open_cnt ino -i 1) ino in
      store p ino ;;;
      if open_cnt ino =? 0 then
        list_remove p ;;;
        (if removed ino then reclaim ino else ret tt) ;;;
        free_inode p
      else ret tt
  end.

(** inode_remove (inode.c:267-272). *)
Definition inode_remove (inode : option nat) : M unit :=
  match inode with
  | None => fail AssertFail                      (* ASSERT (inode != NULL) *)
  | Some p =>
      ino <- deref inode ;;
      store p (set_removed true ino)
  end.

(** inode_length (inode.c:427-431). *)
Definition inode_length (inode : option nat) : M Z :=
  ino <- deref inode ;; ret (length (data ino)).

(** inode_deny_write (inode.c:408-413). *)
Definition inode_deny_write (inode : option nat) : M unit :=
  ino <- deref inode ;;
  let ino := set_deny_write_cnt (deny_write_cnt ino +i 1) ino in
  match inode with
  | Some p =>
      store p ino ;;;
      if deny_write_cnt ino <=? open_cnt ino then ret tt else fail AssertFail
  | None => fail BadPointer
  end.

(** inode_allow_write (inode.c:418-424). *)
Definition inode_allow_write (inode : option nat) : M unit :=
  ino <- deref inode ;;
  if negb (deny_write_cnt ino >? 0) then fail AssertFail
  else if negb (deny_write_cnt ino <=? open_cnt ino) then fail AssertFail
  else match inode with
       | Some p => store p (set_deny_write_cnt (deny_write_cnt ino -i 1) ino)
       | None => fail BadPointer
       end.

(** inode_deny_cnt (inode.c:578-582). *)
Definition inode_deny_cnt (inode : option nat) : M Z :=
  ino <- deref inode ;; ret (deny_write_cnt ino).

(** ** Growth *)

(** The allocation loop of file_extension (inode.c:450-454); the result
    is the list of sectors obtained, [slist[0..i-1]]. *)
Fixpoint alloc_run (n : nat) (slist : list Z) : M (list Z) :=
  match n with
  | O => ret slist
  | S n' =>
      r <- fm_allocate 1 ;;
      match r with
      | Some s => alloc_run n' (slist ++ [s])
      | None => ret slist                        (* break *)
      end
  end.

(** One wiring loop of file_extension:
    [for (...) if (a[i] == -1) { a[i] = slist[iter++]; if (slist[iter] == -1) goto fin; }].
    The result is the array, [iter], whether a slot was written, and
    whether the loop left through [goto fin]. *)
Fixpoint fill_run (slist a : list Z) (iter : Z) : M (list Z * Z * bool * bool) :=
  match a with
  | [] => ret ([], iter, false, false)
  | x :: a' =>
      if x =? sentinel then
        v <- array_get slist iter ;;
        let iter := iter +i 1 in
        next <- array_get slist iter ;;
        if next =? sentinel then ret (v :: a', iter, true, true)
        else
          r <- fill_run slist a' iter ;;
          let '(a'', iter', _, fin) := r in
          ret (v :: a'', iter', true, fin)
      else
        r <- fill_run slist a' iter ;;
        let '(a'', iter', written, fin) := r in
        ret (x :: a'', iter', written, fin)
  end.

(** [free_map_allocate (1, &index)] with the result ignored
    (inode.c:494, 517, 530): on failure [index] keeps its old value. *)
Definition alloc_index (index : option Z) : M (option Z) :=
  r <- fm_allocate 1 ;;
  match r with
  | Some s => ret (Some s)
  | None => ret index
  end.

Definition use_index (index : option Z) : M Z :=
  match index with
  | Some v => ret v
  | None => fail Uninitialized
  end.

(** The outcome of the mallocs of file_extension, none of which the
    source checks: whether memory was returned for [slist], for
    [disk_inode], for [level1], for [level2_1] and for [level2_2]. *)
Record ext_memory := mk_memory {
  slist_ok : bool;
  disk_inode_ok : bool;
  level1_ok : bool;
  level2_1_ok : bool;
  level2_2_ok : bool
}.

(** Memory for every malloc. *)
Definition enough : ext_memory := mk_memory true true true true true.

(** The first access through a pointer that malloc returned: a null
    pointer stops the kernel. *)
Definition through (ok : bool) : M unit :=
  if ok then ret tt else fail BadPointer.

(** Modelled from the spec: the memory allocator is outside these
    sources; its malloc is taken as that of the kernel
    (threads/malloc.c).  A request of 0 bytes returns a null pointer
    ([None]); a request of up to 1024 bytes is served from a block of
    16, 32, ..., 1024 bytes, the least that holds it; a larger request
    gets whole pages of 4096 bytes less a header of 12 bytes; a request
    that is no [int] (a negative argument converted to [size_t]) gets
    no memory.  The result is the number of bytes that can be stored
    through the pointer. *)
Definition malloc_block (size : Z) : option Z :=
  if size =? 0 then None
  else if size <=? 16 then Some 16
  else if size <=? 32 then Some 32
  else if size <=? 64 then Some 64
  else if size <=? 128 then Some 128
  else if size <=? 256 then Some 256
  else if size <=? 512 then Some 512
  else if size <=? 1024 then Some 1024
  else if size <=? 2147483647 then Some (4096 * ((size + 12 + 4095) / 4096) - 12)
  else None.

(** The locals of file_extension that are live at [fin]. *)
Record ext_locals := mk_locals {
  l_disk_inode : inode_disk;
  l_level1 : option (list Z);
  l_level2_1 : option (list Z);
  l_level2_2 : option (list Z);
  l_i : Z
}.

(** The double-indirect loop of file_extension (inode.c:525-550), from
    outer index [i] with [n] iterations left; [ok] tells whether
    [level2_2] points to memory.  The result is [level2_1], [level2_2],
    [index] and the value of [i] on arrival at [fin]. *)
Fixpoint double_run (ok : bool) (slist : list Z) (n : nat) (i : Z)
    (level2_1 level2_2 : list Z) (index : option Z) (iter : Z)
    : M (list Z * list Z * Z) :=
  match n with
  | O => ret (level2_1, level2_2, i)
  | S n' =>
      e <- array_get level2_1 i ;;
      r <- (if e =? sentinel then
              index <- alloc_index index ;;
              v <- use_index index ;;
              ret (<[Z.to_nat i := v]> level2_1, replicate 128 sentinel, index)
            else
              b <- block_read e ;;
              ret (level2_1, decode_level b, index)) ;;
      through ok ;;;                              (* level2_2 is filled *)
      let '(level2_1, level2_2, index) := r in
      r <- fill_run slist level2_2 iter ;;
      let '(level2_2, iter, written, fin) := r in
      if fin then ret (level2_1, level2_2, i)
      else
        (if written then
           e <- array_get level2_1 i ;;
           block_write e (encode_level level2_2)
         else ret tt) ;;;
        double_run ok slist n' (i +i 1) level2_1 level2_2 index iter
  end.

(** Step 3 of file_extension (inode.c:475-550), from the test of
    [slist[0]] up to [fin]; [mem] tells which of [level1], [level2_1]
    and [level2_2] point to memory. *)
Definition wire (mem : ext_memory) (slist : list Z) (disk_inode : inode_disk)
    : M ext_locals :=
  s0 <- array_get slist 0 ;;
  if s0 =? sentinel then ret (mk_locals disk_inode None None None 0)
  else
    (* direct level *)
    r <- fill_run slist (direct disk_inode) 0 ;;
    let '(direct', iter, _, fin) := r in
    let disk_inode := set_direct direct' disk_inode in
    if fin then ret (mk_locals disk_inode None None None 0)
    else
      (* single level *)
      r <- (if single_level disk_inode =? sentinel then
              index <- alloc_index None ;;
              v <- use_index index ;;
              ret (set_single_level v disk_inode, replicate 128 sentinel, index)
            else
              b <- block_read (single_level disk_inode) ;;
              ret (disk_inode, decode_level b, None)) ;;
      through (level1_ok mem) ;;;                 (* level1 is filled *)
      let '(disk_inode, level1, index) := r in
      r <- fill_run slist level1 iter ;;
      let '(level1, iter, _, fin) := r in
      if fin then ret (mk_locals disk_inode (Some level1) None None 0)
      else
        (* double level *)
        r <- (if double_level disk_inode =? sentinel then
                index <- alloc_index index ;;
                v <- use_index index ;;
                ret (set_double_level v disk_inode, replicate 128 sentinel, index)
              else
                b <- block_read (double_level disk_inode) ;;
                ret (disk_inode, decode_level b, index)) ;;
        through (level2_1_ok mem) ;;;             (* level2_1 is filled *)
        let '(disk_inode, level2_1, index) := r in
        r <- double_run (level2_2_ok mem) slist 128 0 level2_1 [] index iter ;;
        let '(level2_1, level2_2, i) := r in
        ret (mk_locals disk_inode (Some level1) (Some level2_1) (Some level2_2) i).

(** file_extension (inode.c:441-576), with the outcome of its mallocs
    given by [mem].  [slist] is held as a list.  The block that malloc
    returns for it was asked for as [req - alloc + 1] bytes
    (inode.c:448), and the loop and the terminator store [i + 1] words
    of 4 bytes in it.  A store through a null pointer or beyond the
    block stops the run; a fault carries no state, so the first is
    tested where the pointer is obtained and the second where the list
    is complete.  The zero-filling of step 2 is commented out
    in the source (inode.c:465, 467-468), so step 2 is only the call of
    byte_to_sector. *)
Definition file_extension_with (mem : ext_memory) (inode_ : option nat)
    (size offset : Z) : M unit :=
  ino <- deref inode_ ;;
  let len := length (data ino) in
  (* 1 *)
  let alloc := if len =? 0 then 0 else (len -i 1) /i BLOCK_SECTOR_SIZE +i 1 in
  let req := (offset +i size -i 1) /i BLOCK_SECTOR_SIZE +i 1 in
  match (if slist_ok mem then malloc_block (to_uint (req -i alloc +i 1)) else None) with
  | None => fail BadPointer
  | Some room =>
    obtained <- alloc_run (Z.to_nat (req -i alloc)) [] ;;
    let i := Z.of_nat (List.length obtained) in
    if room <? 4 * (i + 1) then fail BufferOverrun
    else
      let slist := obtained ++ [sentinel] in
      let add_length := BLOCK_SECTOR_SIZE -i (len %i BLOCK_SECTOR_SIZE) +i i *i BLOCK_SECTOR_SIZE in
      let modified_length := len +i add_length in
      (* 2 *)
      (if len %i BLOCK_SECTOR_SIZE =? 0 then ret tt
       else byte_to_sector inode_ len ;;; ret tt) ;;;
      (* 3 *)
      through (disk_inode_ok mem) ;;;             (* memcpy (disk_inode, ...) *)
      loc <- wire mem slist (data ino) ;;
      (* fin *)
      let disk_inode := set_length modified_length (l_disk_inode loc) in
      block_write (sector ino) (encode_inode disk_inode) ;;;
      match inode_ with
      | Some p => store p (set_data disk_inode ino)
      | None => fail BadPointer
      end ;;;
      match l_level1 loc with
      | Some level1 => block_write (single_level disk_inode) (encode_level level1)
      | None => ret tt
      end ;;;
      match l_level2_2 loc, l_level2_1 loc with
      | Some level2_2, Some level2_1 =>
          let i := if l_i loc =? 128 then l_i loc -i 1 else l_i loc in
          e <- array_get level2_1 i ;;
          block_write e (encode_level level2_2)
      | Some _, None => fail BadPointer
      | None, _ => ret tt
      end ;;;
      match l_level2_1 loc with
      | Some level2_1 => block_write (double_level disk_inode) (encode_level level2_1)
      | None => ret tt
      end
  end.

(** file_extension when every malloc returns memory. *)
Definition file_extension (inode_ : option nat) (size offset : Z) : M unit :=
  file_extension_with enough inode_ size offset.

(** ** Read/write engine *)

(** [n] bytes of [b] from offset [ofs] (the source of a memcpy or of a
    sector transfer). *)
Definition slice (b : list Z) (ofs n : Z) : M (list Z) :=
  if (ofs <? 0) || (n <? 0) || (Z.of_nat (List.length b) <? ofs + n) then fail BufferOverrun
  else ret (take (Z.to_nat n) (drop (Z.to_nat ofs) b)).

(** The loop of inode_read_at (inode.c:292-329).  [buffer] is the data
    delivered so far, bytes [0..bytes_read-1] of the caller's buffer.
    Every iteration consumes at least one byte of [size], so [size]
    rounds of [fuel] reach the end of the loop. *)
Fixpoint read_loop (fuel : nat) (inode : option nat) (bounce_ok : bool)
    (size offset bytes_read : Z) (bounce : option (list Z)) (buffer : list Z)
    : M (Z * list Z) :=
  match fuel with
  | O => ret (bytes_read, buffer)
  | S fuel' =>
    if size >? 0 then
      sector_idx <- byte_to_sector inode offset ;;
      let sector_ofs := offset %i BLOCK_SECTOR_SIZE in
      len <- inode_length inode ;;
      let inode_left := len -i offset in
      let sector_left := BLOCK_SECTOR_SIZE -i sector_ofs in
      let min_left := if inode_left <? sector_left then inode_left else sector_left in
      let chunk_size := if size <? min_left then size else min_left in
      if chunk_size <=? 0 then ret (bytes_read, buffer)
      else if (sector_ofs =? 0) && (chunk_size =? BLOCK_SECTOR_SIZE) then
        d <- block_read sector_idx ;;
        read_loop fuel' inode bounce_ok (size -i chunk_size) (offset +i chunk_size)
          (bytes_read +i chunk_size) bounce (buffer ++ d)
      else
        match (match bounce with
               | Some b => Some b
               | None => if bounce_ok then Some (replicate 512 0) else None
               end) with
        | None => ret (bytes_read, buffer)        (* malloc failed: break *)
        | Some _ =>
            d <- block_read sector_idx ;;
            chunk <- slice d sector_ofs chunk_size ;;
            read_loop fuel' inode bounce_ok (size -i chunk_size) (offset +i chunk_size)
              (bytes_read +i chunk_size) (Some d) (buffer ++ chunk)
        end
    else ret (bytes_read, buffer)
  end.

(** inode_read_at (inode.c:277-334); [bounce_ok] tells whether the
    malloc of the bounce buffer returns memory.  The result is the byte
    count and the bytes stored into the caller's buffer. *)
Definition inode_read_at (inode : option nat) (bounce_ok : bool)
    (size offset : Z) : M (Z * list Z) :=
  ino <- deref inode ;;
  if offset +i size >? length (data ino) then
    let diff := offset +i size -i length (data ino) in
    let size := size -i diff in
    if size <? 0 then ret (0, [])
    else read_loop (Z.to_nat size) inode bounce_ok size offset 0 None []
  else read_loop (Z.to_nat size) inode bounce_ok size offset 0 None [].

(** The loop of inode_write_at (inode.c:356-399). *)
Fixpoint write_loop (fuel : nat) (inode : option nat) (buffer : list Z)
    (size offset bytes_written : Z) (bounce : option (list Z)) : M Z :=
  match fuel with
  | O => ret bytes_written
  | S fuel' =>
    if size >? 0 then
      sector_idx <- byte_to_sector inode offset ;;
      let sector_ofs := offset %i BLOCK_SECTOR_SIZE in
      len <- inode_length inode ;;
      let inode_left := len -i offset in
      let sector_left := BLOCK_SECTOR_SIZE -i sector_ofs in
      let min_left := if inode_left <? sector_left then inode_left else sector_left in
      let chunk_size := if size <? min_left then size else min_left in
      if chunk_size <=? 0 then ret bytes_written
      else if (sector_ofs =? 0) && (chunk_size =? BLOCK_SECTOR_SIZE) then
        src <- slice buffer bytes_written BLOCK_SECTOR_SIZE ;;
        block_write sector_idx src ;;;
        write_loop fuel' inode buffer (size -i chunk_size) (offset +i chunk_size)
          (bytes_written +i chunk_size) bounce
      else
        match bounce with
        | None =>
            (* [bounce == malloc (BLOCK_SECTOR_SIZE);] compares and
               assigns nothing, so bounce is still NULL: break *)
            ret bytes_written
        | Some b =>
            b <- (if (sector_ofs >? 0) && (chunk_size <? sector_left)
                  then block_read sector_idx
                  else ret (replicate 512 0)) ;;
            src <- slice buffer bytes_written chunk_size ;;
            let b := take (Z.to_nat sector_ofs) b ++ src
                     ++ drop (Z.to_nat (sector_ofs + chunk_size)) b in
            block_write sector_idx b ;;;
            write_loop fuel' inode buffer (size -i chunk_size) (offset +i chunk_size)
              (bytes_written +i chunk_size) (Some b)
        end
    else ret bytes_written
  end.

(** inode_write_at (inode.c:341-404). *)
Definition inode_write_at (inode : option nat) (buffer : list Z)
    (size offset : Z) : M Z :=
  ino <- deref inode ;;
  if negb (deny_write_cnt ino =? 0) then ret 0
  else
    (if offset +i size >? length (data ino)
     then file_extension inode size offset
     else ret tt) ;;;
    write_loop (Z.to_nat size) inode buffer size offset 0 None.

End Inode.

(** ** The translation as the specification words it *)

Notation "x <- c ;; k" := (bind c (fun x => k))
  (at level 100, c at next level, right associativity).
Notation "c ;;; k" := (bind c (fun _ => k))
  (at level 100, right associativity).

Section Translate.

Context {F : Type} `{FreeMap F}.

(** The specification's [translate(descriptor, offset)], in unbounded
    integer arithmetic with mathematical division. *)
Definition translate (d : inode_disk) (offset : Z) : M (F := F) Z :=
  let q := offset / BLOCK_SECTOR_SIZE in
  if q <? 10 then array_get (direct d) q
  else
    let q := q - 10 in
    if q <? 128 then
      index <- block_read (single_level d) ;;
      array_get (decode_level index) q
    else
      let q := q - 128 in
      if q <? 128 * 128 then
        outer_index <- block_read (double_level d) ;;
        inner_block <- array_get (decode_level outer_index) (q / 128) ;;
        inner_index <- block_read inner_block ;;
        array_get (decode_level inner_index) (q `mod` 128)
      else ret sentinel.

End Translate.

(** ** Notions used to state the properties *)

Section Notions.

Context {F : Type} `{FreeMap F}.

(** The sector byte_to_sector yields for [pos] in state [st], if it
    yields one. *)
Definition sector_of (st : fs_state (F := F)) (inode : option nat) (pos : Z) : option Z :=
  match byte_to_sector inode pos st with
  | Done (s, _) => Some s
  | Fault _ => None
  end.

(** The byte of the file at [pos]: byte [pos mod 512] of the sector the
    translation yields for [pos]. *)
Definition file_byte (st : fs_state (F := F)) (inode : option nat) (pos : Z) : option Z :=
  match sector_of st inode pos with
  | Some s =>
      match fs_device st !! s with
      | Some d => d !! Z.to_nat (pos `mod` BLOCK_SECTOR_SIZE)
      | None => None
      end
  | None => None
  end.

(** Every byte position of [lo..hi-1] lies in a sector of the device. *)
Definition mapped (st : fs_state (F := F)) (inode : option nat) (lo hi : Z) : Prop :=
  forall pos, lo <= pos < hi ->
    exists s d, sector_of st inode pos = Some s /\ fs_device st !! s = Some d
                /\ List.length d = 512%nat.

Definition is_read (e : io_event) : bool :=
  match e with IoRead _ => true | IoWrite _ => false end.

(** A computation that only reads the device: it appends read events
    to the log and changes nothing else, and what it does is independent
    of the log it starts with. *)
Definition read_only {A : Type} (m : M (F := F) A) : Prop :=
  forall st,
    match m st with
    | Done (a, _) =>
        exists l, forallb is_read l = true
          /\ forall lg, m (set_io_log lg st) = Done (a, set_io_log (lg ++ l) st)
    | Fault f => forall lg, m (set_io_log lg st) = Fault f
    end.

(** [st'] is [st] after some device reads and nothing else. *)
Definition after_reads (st st' : fs_state (F := F)) : Prop :=
  exists l, st' = set_io_log (io_log st ++ l) st /\ forallb is_read l = true.

(** The slots of a tier before its first sentinel, and whether the tier
    has no sentinel at all. *)
Fixpoint allocated_run (a : list Z) : list Z :=
  match a with
  | [] => []
  | s :: a' => if s =? sentinel then [] else s :: allocated_run a'
  end.

Definition run_complete (a : list Z) : bool :=
  forallb (fun s => negb (s =? sentinel)) a.

(** The sectors below the double-indirect outer block [outer]: for each
    inner block before the first sentinel, its targets up to the first
    sentinel and then the inner block; the walk ends with the first
    inner block that holds a sentinel. *)
Fixpoint double_targets (dev : gmap Z (list Z)) (outer : list Z) : option (list Z) :=
  match outer with
  | [] => Some []
  | e :: outer' =>
      if e =? sentinel then Some []
      else match dev !! e with
           | None => None
           | Some blk =>
               let inner := decode_level blk in
               if run_complete inner then
                 match double_targets dev outer' with
                 | Some r => Some (allocated_run inner ++ e :: r)
                 | None => None
                 end
               else Some (allocated_run inner ++ [e])
           end
  end.

(** The sectors the specification's close hands back for a removed
    file, in order: the descriptor sector, the direct sectors up to the
    first sentinel, the targets of the single-indirect block up to the
    first sentinel and then that block, the sectors below the
    double-indirect block and then that block.  [None] when an index
    block is not on the device. *)
Definition reclaimed (dev : gmap Z (list Z)) (ino : inode) : option (list Z) :=
  let d := data ino in
  let head := sector ino :: allocated_run (direct d) in
  if negb (run_complete (direct d)) || (single_level d =? sentinel) then Some head
  else
    match dev !! single_level d with
    | None => None
    | Some b1 =>
        let single := allocated_run (decode_level b1) ++ [single_level d] in
        if negb (run_complete (decode_level b1)) || (double_level d =? sentinel)
        then Some (head ++ single)
        else
          match dev !! double_level d with
          | None => None
          | Some b2 =>
              match double_targets dev (decode_level b2) with
              | Some r => Some (head ++ single ++ r ++ [double_level d])
              | None => None
              end
          end
    end.

(** The index block stored in sector [s] ([[]] if [s] is not on the
    device). *)
Definition level_of (dev : gmap Z (list Z)) (s : Z) : list Z :=
  match dev !! s with
  | Some b => decode_level b
  | None => []
  end.

(** Every sector the pointer structure of a descriptor leads to, tier by
    tier, without any rule about where to stop: the descriptor sector,
    the allocated direct slots, the allocated targets of the
    single-indirect block and that block, and for every allocated entry
    of the outer block its allocated targets and the inner block, then
    the outer block. *)
Definition reachable (dev : gmap Z (list Z)) (ino : inode) : list Z :=
  let d := data ino in
  (sector ino :: allocated_run (direct d))
  ++ (if single_level d =? sentinel then []
      else allocated_run (level_of dev (single_level d)) ++ [single_level d])
  ++ (if double_level d =? sentinel then []
      else concat (map (fun e => allocated_run (level_of dev e) ++ [e])
                       (allocated_run (level_of dev (double_level d))))
           ++ [double_level d]).

(** The pointer structure has no holes (the data model of the
    specification): a tier is in use only if the tiers before it are
    full, an inner block is followed by another only if it is full, and
    the index blocks in use are on the device. *)
Fixpoint compact_outer (dev : gmap Z (list Z)) (outer : list Z) : bool :=
  match outer with
  | [] => true
  | e :: outer' =>
      if e =? sentinel then true
      else bool_decide (is_Some (dev !! e))
           && (run_complete (level_of dev e)
               || match outer' with
                  | [] => true
                  | e' :: _ => e' =? sentinel
                  end)
           && compact_outer dev outer'
  end.

Definition compact (dev : gmap Z (list Z)) (ino : inode) : bool :=
  let d := data ino in
  ((single_level d =? sentinel)
   || (run_complete (direct d) && bool_decide (is_Some (dev !! single_level d))))
  && ((double_level d =? sentinel)
      || (negb (single_level d =? sentinel)
          && run_complete (level_of dev (single_level d))
          && bool_decide (is_Some (dev !! double_level d))
          && compact_outer dev (level_of dev (double_level d)))).

(** A computation that leaves the handles and the registry alone. *)
Definition keeps_handles {A : Type} (m : M (F := F) A) : Prop :=
  forall st a st', m st = Done (a, st') ->
    heap st' = heap st /\ open_inodes st' = open_inodes st.

Definition release_all (l : list Z) (f : F) : F :=
  foldl (fun f s => free_map_release s 1 f) f l.

(** The registry invariant: the registry lists exactly the live
    handles, each once, and no two live handles have the same
    descriptor sector. *)
Definition registry_wf (st : fs_state (F := F)) : Prop :=
  NoDup (open_inodes st)
  /\ (forall p, p ∈ open_inodes st <-> is_Some (heap st !! p))
  /\ (forall p q ip iq, heap st !! p = Some ip -> heap st !! q = Some iq ->
        sector ip = sector iq -> p = q).

(** No live handle describes [s]. *)
Definition not_open (st : fs_state (F := F)) (s : Z) : Prop :=
  forall p ino, heap st !! p = Some ino -> sector ino <> s.

(** [n] opens of one sector, and the close of each handle of a list. *)
Fixpoint open_n (n : nat) (malloc_ok : bool) (s : Z) : M (F := F) (list (option nat)) :=
  match n with
  | O => ret []
  | S n' =>
      h <- inode_open malloc_ok s ;;
      hs <- open_n n' malloc_ok s ;;
      ret (h :: hs)
  end.

Fixpoint close_all (hs : list (option nat)) : M (F := F) unit :=
  match hs with
  | [] => ret tt
  | h :: hs' => inode_close h ;;; close_all hs'
  end.

End Notions.

(** ** A concrete allocator and device for the worked scenarios *)

(** A free list: [allocate] of one sector takes the head, [release]
    puts the sector back at the head. *)
Definition free_list_allocate (cnt : Z) (f : list Z) : option (Z * list Z) :=
  if cnt =? 1 then
    match f with
    | s :: f' => Some (s, f')
    | [] => None
    end
  else None.

#[global] Instance free_list : FreeMap (list Z) :=
  {| free_map_allocate := free_list_allocate;
     free_map_release := fun s cnt f => s :: f |}.

(** An eight-sector device whose sectors all hold the byte 170 left
    over from earlier use; sector 0 is to hold a descriptor, sectors
    1..7 are free. *)
Definition residue : list Z := replicate 512 170.

Definition disk8 : gmap Z (list Z) :=
  list_to_map (map (fun i => (Z.of_nat i, residue)) (seq 0 8)).

Definition boot : fs_state (F := list Z) :=
  {| fs_device := disk8; free_map := [1; 2; 3; 4; 5; 6; 7];
     open_inodes := []; heap := ∅; io_log := [] |}.

Definition payload (n : nat) : list Z :=
  map (fun i => Z.of_nat i `mod` 251 + 1) (seq 0 n).

(** The state after inode_init, inode_create (0, 0) and a first
    inode_open (0); [None] if one of them faults. *)
Definition fresh_file : option (option nat * fs_state (F := list Z)) :=
  match (inode_init ;;; inode_create true 0 0 ;;; inode_open true 0) boot with
  | Done r => Some r
  | Fault _ => None
  end.

(** A state with one open handle on sector 0 whose writes are denied. *)
Definition empty_disk_inode : inode_disk :=
  {| direct := replicate 10 sentinel; single_level := sentinel;
     double_level := sentinel; length := 0; magic := INODE_MAGIC;
     unused := replicate 114 0 |}.

Definition denied_inode : inode :=
  {| sector := 0; open_cnt := 1; removed := false; deny_write_cnt := 1;
     data := empty_disk_inode |}.

Definition denied : fs_state (F := list Z) :=
  {| fs_device := disk8; free_map := [1; 2; 3; 4; 5; 6; 7];
     open_inodes := [0%nat]; heap := {[ 0%nat := denied_inode ]}; io_log := [] |}.

(** A state with one handle on sector 0 that three openers share. *)
Definition shared_inode : inode :=
  {| sector := 0; open_cnt := 3; removed := false; deny_write_cnt := 0;
     data := empty_disk_inode |}.

Definition shared : fs_state (F := list Z) :=
  {| fs_device := disk8; free_map := [1; 2; 3; 4; 5; 6; 7];
     open_inodes := [0%nat]; heap := {[ 0%nat := shared_inode ]}; io_log := [] |}.

(** A sixteen-sector device and a removed file on it with one opener
    left: ten direct sectors 1..10 and a single-indirect block in sector
    11 that points to sectors 12 and 13. *)
Definition disk16 : gmap Z (list Z) :=
  <[11 := encode_level ([12; 13] ++ replicate 126 sentinel)]>
    (list_to_map (map (fun i => (Z.of_nat i, residue)) (seq 0 16))).

Definition doomed_inode : inode :=
  {| sector := 0; open_cnt := 1; removed := true; deny_write_cnt := 0;
     data := {| direct := [1; 2; 3; 4; 5; 6; 7; 8; 9; 10]; single_level := 11;
                double_level := sentinel; length := 6144; magic := INODE_MAGIC;
                unused := replicate 114 0 |} |}.

Definition doomed : fs_state (F := list Z) :=
  {| fs_device := disk16; free_map := [14; 15];
     open_inodes := [0%nat]; heap := {[ 0%nat := doomed_inode ]}; io_log := [] |}.

(** A device image with a 700-byte file: the descriptor in sector 0,
    the data in sectors 1 and 2, and after the last byte of the file the
    residue 170 up to the end of sector 2. *)
Definition desc700 : inode_disk :=
  {| direct := [1; 2] ++ replicate 8 sentinel; single_level := sentinel;
     double_level := sentinel; length := 700; magic := INODE_MAGIC;
     unused := replicate 114 0 |}.

Definition image700 : gmap Z (list Z) :=
  <[0 := encode_inode desc700]>
    (<[1 := take 512 (payload 700)]>
       (<[2 := drop 512 (payload 700) ++ replicate 324 170]> disk8)).

Definition boot700 : fs_state (F := list Z) :=
  {| fs_device := image700; free_map := [3; 4; 5; 6; 7];
     open_inodes := []; heap := ∅; io_log := [] |}.

(** The state after inode_init and inode_open (0) on that image, and
    the handle the open makes. *)
Definition small_file : fs_state (F := list Z) :=
  match (inode_init ;;; inode_open true 0) boot700 with
  | Done (_, st) => st
  | Fault _ => boot700
  end.

Definition small_inode : inode :=
  {| sector := 0; open_cnt := 1; removed := false; deny_write_cnt := 0;
     data := desc700 |}.

(** ** Worked scenarios *)

Definition result {A S : Type} (o : outcome (A * S)) : option A :=
  match o with
  | Done (a, _) => Some a
  | Fault _ => None
  end.

(** Runs [m] and reports a fault as a value. *)
Definition observe {A : Type} (m : M (F := list Z) A) : M (F := list Z) (A + fault) :=
  fun st => match m st with
            | Done (a, st') => Done (inl a, st')
            | Fault f => Done (inr f, st)
            end.

Definition peek (s : Z) : M (F := list Z) (option (list Z)) :=
  fun st => Done (fs_device st !! s, st).

Definition events : M (F := list Z) (list io_event) :=
  fun st => Done (io_log st, st).

(** Growth for one sector of a new file, then a read of that sector:
    the direct pointers, the length, and what the read delivers. *)
Definition scenario_growth : M (F := list Z) (list Z * Z * (Z * list Z)) :=
  inode_init ;;;
  inode_create true 0 0 ;;;
  h <- inode_open true 0 ;;
  file_extension h 512 0 ;;;
  ino <- deref h ;;
  r <- inode_read_at h true 512 0 ;;
  ret (direct (data ino), length (data ino), r).

(** Growth of the 700-byte file for a write of 100 bytes at its end,
    then a read of everything from offset 700 on: the length after the
    growth and what the read delivers. *)
Definition scenario_tail : M (F := list Z) (Z * (Z * list Z)) :=
  inode_init ;;;
  h <- inode_open true 0 ;;
  file_extension h 100 700 ;;;
  ino <- deref h ;;
  r <- inode_read_at h true 1000 700 ;;
  ret (length (data ino), r).

(** The scenario of the specification: create an empty file, write 1300
    bytes at offset 0, read 2000 bytes at offset 0.  The result is the
    count the write returns, the length and the direct pointers after
    it, the content of the third data sector, and what the read does. *)
Definition scenario_1300
    : M (F := list Z) (Z * Z * list Z * option (list Z) * (Z * list Z + fault)) :=
  inode_init ;;;
  inode_create true 0 0 ;;;
  h <- inode_open true 0 ;;
  n <- inode_write_at h (payload 1300) 1300 0 ;;
  ino <- deref h ;;
  third <- peek 3 ;;
  r <- observe (inode_read_at h true 2000 0) ;;
  ret (n, length (data ino), direct (data ino), third, r).

(** A write of one whole sector, then a write of 100 bytes at offset 200
    inside it: the two counts, the device transfers of the second write,
    and the sector after it. *)
Definition scenario_partial
    : M (F := list Z) (Z * Z * list io_event * option (list Z)) :=
  inode_init ;;;
  inode_create true 0 0 ;;;
  h <- inode_open true 0 ;;
  n1 <- inode_write_at h (payload 512) 512 0 ;;
  before <- events ;;
  n2 <- inode_write_at h (replicate 100 255) 100 200 ;;
  after <- events ;;
  sec <- peek 1 ;;
  ret (n1, n2, drop (List.length before) after, sec).

(** A read of 600 bytes from offset 100 of the 700-byte file when the
    malloc of the bounce buffer fails. *)
Definition scenario_no_memory : M (F := list Z) (Z * list Z) :=
  inode_init ;;;
  h <- inode_open true 0 ;;
  inode_read_at h false 600 100.

(** The body of the write loop run with a bounce buffer in hand, for 100
    bytes at offset 0 of the 700-byte file: the count, the device
    transfers and the first sector afterwards. *)
Definition scenario_bounce
    : M (F := list Z) (Z * list io_event * option (list Z)) :=
  inode_init ;;;
  h <- inode_open true 0 ;;
  before <- events ;;
  n <- write_loop 100 h (replicate 100 255) 100 0 0 (Some (replicate 512 0)) ;;
  after <- events ;;
  sec <- peek 1 ;;
  ret (n, drop (List.length before) after, sec).


(** The empty file after a write of one whole sector at offset 0: the
    count the write returns, and the state the write leaves. *)
Definition scenario_one_sector : M (F := list Z) Z :=
  inode_init ;;;
  inode_create true 0 0 ;;;
  h <- inode_open true 0 ;;
  inode_write_at h (payload 512) 512 0.

Definition grown_file : fs_state (F := list Z) :=
  match scenario_one_sector boot with
  | Done (_, st) => st
  | Fault _ => boot
  end.
(** ** Further notions: layout, counts and handle operations *)

(** Modelled from the spec: DIV_ROUND_UP of lib/round.h, the quotient
    rounded up, [(X + STEP - 1) / STEP], here on [int] operands. *)
Definition DIV_ROUND_UP (x step : Z) : Z := (x +i step -i 1) /i step.

(** bytes_to_sectors (inode.c:36-40); the result is converted to
    [size_t]. *)
Definition bytes_to_sectors (size : Z) : Z :=
  to_uint (DIV_ROUND_UP size BLOCK_SECTOR_SIZE).

(** A value that fits a 32-bit unsigned word. *)
Definition is_u32 (v : Z) : Prop := 0 <= v < 4294967296.

(** A descriptor whose fields fit their C types: the arrays have their
    declared lengths, the pointers and the magic are 32-bit unsigned,
    the length is an [off_t]. *)
Definition wf_disk (d : inode_disk) : Prop :=
  List.length (direct d) = 10%nat
  /\ Forall is_u32 (direct d)
  /\ is_u32 (single_level d)
  /\ is_u32 (double_level d)
  /\ in_int (length d)
  /\ is_u32 (magic d)
  /\ List.length (unused d) = 114%nat
  /\ Forall is_u32 (unused d).

(** A computation that, when it returns, leaves the part [proj] of the
    state as it found it. *)
Definition keeps {F : Type} `{FreeMap F} {X A : Type}
    (proj : fs_state (F := F) -> X) (m : M (F := F) A) : Prop :=
  forall st a st', m st = Done (a, st') -> proj st' = proj st.

(** Parts of the state that do not depend on the log, the device, the
    allocator, the heap or the registry list. *)
Definition log_free {F : Type} `{FreeMap F} {X : Type} (proj : fs_state (F := F) -> X) : Prop :=
  forall st l, proj (set_io_log l st) = proj st.
Definition device_free {F : Type} `{FreeMap F} {X : Type} (proj : fs_state (F := F) -> X) : Prop :=
  forall st v, proj (set_device v st) = proj st.
Definition allocator_free {F : Type} `{FreeMap F} {X : Type} (proj : fs_state (F := F) -> X) : Prop :=
  forall st v, proj (set_free_map v st) = proj st.
Definition heap_free {F : Type} `{FreeMap F} {X : Type} (proj : fs_state (F := F) -> X) : Prop :=
  forall st v, proj (set_heap v st) = proj st.
Definition registry_free {F : Type} `{FreeMap F} {X : Type} (proj : fs_state (F := F) -> X) : Prop :=
  forall st v, proj (set_open_inodes v st) = proj st.

(** [st'] has the registry and the live handles of [st], each handle
    with the descriptor sector it had. *)
Definition same_handles {F : Type} `{FreeMap F} (st st' : fs_state (F := F)) : Prop :=
  open_inodes st' = open_inodes st
  /\ forall p,
       match heap st !! p, heap st' !! p with
       | Some i, Some i' => sector i' = sector i
       | None, None => True
       | _, _ => False
       end.

(** The calls of the public interface of the module (inode_init, which
    is made once before any handle exists, apart). *)
Inductive call :=
| CallCreate (calloc_ok : bool) (sector length : Z)
| CallOpen (malloc_ok : bool) (sector : Z)
| CallReopen (inode : option nat)
| CallGetInumber (inode : option nat)
| CallClose (inode : option nat)
| CallRemove (inode : option nat)
| CallReadAt (inode : option nat) (bounce_ok : bool) (size offset : Z)
| CallWriteAt (inode : option nat) (buffer : list Z) (size offset : Z)
| CallDenyWrite (inode : option nat)
| CallAllowWrite (inode : option nat)
| CallLength (inode : option nat)
| CallDenyCnt (inode : option nat).

Definition run_call {F : Type} `{FreeMap F} (c : call) : M (F := F) unit :=
  match c with
  | CallCreate ok s len => inode_create ok s len ;;; ret tt
  | CallOpen ok s => inode_open ok s ;;; ret tt
  | CallReopen h => inode_reopen h ;;; ret tt
  | CallGetInumber h => inode_get_inumber h ;;; ret tt
  | CallClose h => inode_close h
  | CallRemove h => inode_remove h
  | CallReadAt h ok size offset => inode_read_at h ok size offset ;;; ret tt
  | CallWriteAt h buffer size offset => inode_write_at h buffer size offset ;;; ret tt
  | CallDenyWrite h => inode_deny_write h
  | CallAllowWrite h => inode_allow_write h
  | CallLength h => inode_length h ;;; ret tt
  | CallDenyCnt h => inode_deny_cnt h ;;; ret tt
  end.

Definition writes_device (c : call) : bool :=
  match c with
  | CallCreate _ _ _ | CallWriteAt _ _ _ _ => true
  | _ => false
  end.

Definition uses_allocator (c : call) : bool :=
  match c with
  | CallWriteAt _ _ _ _ | CallClose _ => true
  | _ => false
  end.

Definition changes_registry (c : call) : bool :=
  match c with
  | CallOpen _ _ | CallClose _ => true
  | _ => false
  end.

(** A state with one handle on sector 0 that two openers share, one of
    whom denies writes. *)
Definition guarded_inode : inode :=
  {| sector := 0; open_cnt := 2; removed := false; deny_write_cnt := 1;
     data := empty_disk_inode |}.

Definition guarded : fs_state (F := list Z) :=
  {| fs_device := disk8; free_map := [1; 2; 3; 4; 5; 6; 7];
     open_inodes := [0%nat]; heap := {[ 0%nat := guarded_inode ]}; io_log := [] |}.

(** The 700-byte file after inode_open with its length raised to 1024,
    so that both of its sectors can be overwritten in full. *)
Definition two_sector_inode : inode :=
  {| sector := 0; open_cnt := 1; removed := false; deny_write_cnt := 0;
     data := set_length 1024 desc700 |}.

Definition two_sector_file : fs_state (F := list Z) :=
  {| fs_device := image700; free_map := [3; 4; 5; 6; 7];
     open_inodes := [0%nat]; heap := {[ 0%nat := two_sector_inode ]};
     io_log := [] |}.

(** The locals [alloc], [req] and [modified_length] of file_extension
    (inode.c:445-446, 457-458), as functions of the length of the file,
    of the arguments, and of the number [i] of sectors obtained. *)
Definition sectors_allocated (len : Z) : Z :=
  if len =? 0 then 0 else (len -i 1) /i BLOCK_SECTOR_SIZE +i 1.

Definition sectors_required (offset size : Z) : Z :=
  (offset +i size -i 1) /i BLOCK_SECTOR_SIZE +i 1.

Definition modified_length (len i : Z) : Z :=
  len +i (BLOCK_SECTOR_SIZE -i (len %i BLOCK_SECTOR_SIZE) +i i *i BLOCK_SECTOR_SIZE).

(** The descriptor [d'] has every pointer of [d] that was in use, and
    the magic and the padding of [d]. *)
Definition descriptor_kept (d d' : inode_disk) : Prop :=
  List.length (direct d') = List.length (direct d)
  /\ (forall j x, direct d !! j = Some x -> x <> sentinel -> direct d' !! j = Some x)
  /\ (single_level d <> sentinel -> single_level d' = single_level d)
  /\ (double_level d <> sentinel -> double_level d' = double_level d)
  /\ magic d' = magic d
  /\ unused d' = unused d.

(** The array [a] with its free slots given, in order, the sectors
    [vs], as far as they go; and the number of free slots of [a]. *)
Fixpoint fill_free (vs a : list Z) : list Z :=
  match a with
  | [] => []
  | x :: a' =>
      if x =? sentinel then
        match vs with
        | v :: vs' => v :: fill_free vs' a'
        | [] => x :: a'
        end
      else x :: fill_free vs a'
  end.

Fixpoint free_slots (a : list Z) : nat :=
  match a with
  | [] => 0
  | x :: a' => if x =? sentinel then S (free_slots a') else free_slots a'
  end.

(** * Properties *)

(** ** Arithmetic *)

Lemma to_int_id (x : Z) : in_int x -> to_int x = x.
Proof.
  unfold in_int, to_int. intros Hx.
  rewrite Z.mod_small by lia. lia.
Qed.

Lemma int_add_id (a b : Z) : in_int (a + b) -> a +i b = a + b.
Proof. apply to_int_id. Qed.

Lemma int_sub_id (a b : Z) : in_int (a - b) -> a -i b = a - b.
Proof. apply to_int_id. Qed.

Lemma int_mul_id (a b : Z) : in_int (a * b) -> a *i b = a * b.
Proof. apply to_int_id. Qed.

Lemma int_div_nonneg (a b : Z) :
  0 <= a -> in_int a -> 0 < b -> a /i b = a / b.
Proof.
  intros Ha Hin Hb. unfold int_div.
  rewrite Z.quot_div_nonneg by lia.
  apply to_int_id. unfold in_int in *.
  assert (0 <= a / b) by (apply Z.div_pos; lia).
  assert (a / b <= a) by (apply Z.div_le_upper_bound; nia).
  lia.
Qed.

Lemma int_rem_nonneg (a b : Z) : 0 <= a -> 0 < b -> a %i b = a `mod` b.
Proof. intros Ha Hb. unfold int_rem. apply Z.rem_mod_nonneg; lia. Qed.

Lemma sentinel_value : sentinel = 4294967295.
Proof. reflexivity. Qed.

(** ** The monad *)

Section MonadFacts.

Context {F : Type} `{FreeMap F}.

Lemma bind_done {A B} (m : M (F := F) A) (k : A -> M B) st a st' :
  m st = Done (a, st') -> bind m k st = k a st'.
Proof. intros Hm. unfold bind. now rewrite Hm. Qed.

Lemma bind_fault {A B} (m : M (F := F) A) (k : A -> M B) st f :
  m st = Fault f -> bind m k st = Fault f.
Proof. intros Hm. unfold bind. now rewrite Hm. Qed.

Lemma bind_inv {A B} (m : M (F := F) A) (k : A -> M B) st b st2 :
  bind m k st = Done (b, st2) ->
  exists a st1, m st = Done (a, st1) /\ k a st1 = Done (b, st2).
Proof.
  unfold bind. destruct (m st) as [[a st1]|f]; [|discriminate].
  intros Hk. now exists a, st1.
Qed.

Lemma deref_live (p : nat) (ino : inode) (st : fs_state (F := F)) :
  heap st !! p = Some ino -> deref (Some p) st = Done (ino, st).
Proof. intros Hp. unfold deref. now rewrite Hp. Qed.

End MonadFacts.

(** ** Address translation (C5) *)

Section TranslateFacts.

Context {F : Type} `{FreeMap F}.

(** C5. For a byte offset [pos] of a live handle, byte_to_sector is the
    specification's translate: with q = pos / 512 it returns direct[q]
    when q < 10; else entry q - 10 of the single-indirect block read
    from the device when q - 10 < 128; else, with q reduced by 10 and by
    128 and below 128 * 128, entry q mod 128 of the inner block that is
    entry q / 128 of the double-indirect block; else the invalid marker
    -1.  The stored pointer is returned as it is, sentinel included. *)
Theorem byte_to_sector_translate (st : fs_state (F := F)) (p : nat) (ino : inode) (pos : Z) :
  heap st !! p = Some ino ->
  0 <= pos < 2147483648 ->
  byte_to_sector (Some p) pos st = translate (data ino) pos st.
Proof.
  intros Hp Hpos. unfold byte_to_sector, translate.
  rewrite (bind_done _ _ _ _ _ (deref_live p ino st Hp)).
  assert (Hq : pos /i BLOCK_SECTOR_SIZE = pos / BLOCK_SECTOR_SIZE).
  { apply int_div_nonneg; unfold in_int, BLOCK_SECTOR_SIZE; lia. }
  rewrite Hq. set (q := pos / BLOCK_SECTOR_SIZE).
  assert (Hqb : 0 <= q < 4194304).
  { unfold q, BLOCK_SECTOR_SIZE. split.
    - apply Z.div_pos; lia.
    - apply Z.div_lt_upper_bound; lia. }
  destruct (q <? 10) eqn:E1; [reflexivity|].
  apply Z.ltb_ge in E1.
  rewrite (int_sub_id q 10) by (unfold in_int; lia).
  destruct (q - 10 <? 128) eqn:E2; [reflexivity|].
  apply Z.ltb_ge in E2.
  rewrite (int_sub_id (q - 10) 128) by (unfold in_int; lia).
  rewrite (int_mul_id 128 128) by (unfold in_int; lia).
  destruct (q - 10 - 128 <? 128 * 128) eqn:E3; [|reflexivity].
  rewrite int_rem_nonneg by lia.
  rewrite int_div_nonneg by (unfold in_int; lia).
  reflexivity.
Qed.

End TranslateFacts.

Lemma byte_to_sector_translate_witness :
  byte_to_sector (Some 0%nat) 700 shared = translate (data shared_inode) 700 shared.
Proof.
  apply (byte_to_sector_translate shared 0%nat shared_inode 700).
  - reflexivity.
  - lia.
Defined.

(** ** Null handles (C10) *)

(** C10. inode_close on a null handle returns at once and inode_reopen
    on a null handle returns null; neither changes the state, and
    neither dereferences the handle. *)
Theorem null_handle_noop {F : Type} `{FreeMap F} (st : fs_state (F := F)) :
  inode_close None st = Done (tt, st)
  /\ inode_reopen None st = Done (None, st).
Proof. split; reflexivity. Qed.

(** ** Denied writes (C4) *)

(** C4. While the deny-write count of a handle is not zero,
    inode_write_at returns 0 and the state it leaves is the state it
    found: no sector of the device is changed, and no device transfer
    is logged. *)
Theorem write_denied {F : Type} `{FreeMap F} (st : fs_state (F := F))
    (p : nat) (ino : inode) (buffer : list Z) (size offset : Z) :
  heap st !! p = Some ino ->
  deny_write_cnt ino <> 0 ->
  inode_write_at (Some p) buffer size offset st = Done (0, st).
Proof.
  intros Hp Hdeny. unfold inode_write_at.
  rewrite (bind_done _ _ _ _ _ (deref_live p ino st Hp)).
  destruct (deny_write_cnt ino =? 0) eqn:E; [|reflexivity].
  apply Z.eqb_eq in E. contradiction.
Qed.

Lemma write_denied_witness :
  inode_write_at (Some 0%nat) (payload 600) 600 0 denied = Done (0, denied).
Proof.
  apply (write_denied denied 0%nat denied_inode (payload 600) 600 0).
  - reflexivity.
  - discriminate.
Defined.

(** ** Heap and registry steps *)

Section LifecycleFacts.

Context {F : Type} `{FreeMap F}.

Lemma store_live (p : nat) (old new : inode) (st : fs_state (F := F)) :
  heap st !! p = Some old ->
  store p new st = Done (tt, set_heap (<[p := new]> (heap st)) st).
Proof. intros Hp. unfold store. now rewrite Hp. Qed.

(** A close that leaves the handle open only decrements its count. *)
Lemma inode_close_shared (p : nat) (ino : inode) (st : fs_state (F := F)) :
  heap st !! p = Some ino ->
  1 < open_cnt ino < 2147483648 ->
  inode_close (Some p) st
  = Done (tt, set_heap (<[p := set_open_cnt (open_cnt ino - 1) ino]> (heap st)) st).
Proof.
  intros Hp Hcnt. unfold inode_close.
  rewrite (bind_done _ _ _ _ _ (deref_live p ino st Hp)).
  rewrite int_sub_id by (unfold in_int; lia).
  rewrite (bind_done _ _ _ _ _ (store_live p ino _ st Hp)).
  cbn [open_cnt set_open_cnt].
  destruct (open_cnt ino - 1 =? 0) eqn:E; [|reflexivity].
  apply Z.eqb_eq in E. lia.
Qed.

Lemma inode_remove_live (p : nat) (ino : inode) (st : fs_state (F := F)) :
  heap st !! p = Some ino ->
  inode_remove (Some p) st
  = Done (tt, set_heap (<[p := set_removed true ino]> (heap st)) st).
Proof.
  intros Hp. unfold inode_remove.
  rewrite (bind_done _ _ _ _ _ (deref_live p ino st Hp)).
  now apply store_live with (old := ino).
Qed.

(** [k] closes of a handle that more than [k] openers hold. *)
Lemma close_all_shared (k : nat) (p : nat) (ino : inode) (st : fs_state (F := F)) :
  heap st !! p = Some ino ->
  Z.of_nat k < open_cnt ino < 2147483648 ->
  exists st', close_all (replicate k (Some p)) st = Done (tt, st')
    /\ free_map st' = free_map st
    /\ fs_device st' = fs_device st
    /\ io_log st' = io_log st
    /\ open_inodes st' = open_inodes st
    /\ heap st' = <[p := set_open_cnt (open_cnt ino - Z.of_nat k) ino]> (heap st).
Proof.
  revert ino st. induction k as [|k IH]; intros ino st Hp Hcnt.
  - exists st. cbn. repeat split; try reflexivity.
    rewrite Z.sub_0_r. destruct ino; cbn. now rewrite insert_id.
  - cbn [replicate close_all].
    rewrite (bind_done _ _ _ _ _ (inode_close_shared p ino st Hp ltac:(lia))).
    set (ino1 := set_open_cnt (open_cnt ino - 1) ino).
    set (st1 := set_heap (<[p := ino1]> (heap st)) st).
    destruct (IH ino1 st1) as (st' & Hrun & Hfm & Hdev & Hlog & Hreg & Hheap).
    + unfold st1; cbn. apply lookup_insert_eq.
    + unfold ino1; cbn. lia.
    + exists st'. split; [exact Hrun|].
      repeat split; try assumption.
      rewrite Hheap. unfold st1, ino1, set_open_cnt; cbn.
      rewrite insert_insert_eq. do 2 f_equal. lia.
Qed.

End LifecycleFacts.

(** ** Deferred reclamation (C8) *)




(** ** The registry (C9) *)

Section RegistryFacts.

Context {F : Type} `{FreeMap F}.

(** The search of inode_open touches nothing and finds the handle of
    the sector if there is one. *)
Lemma find_open_spec (l : list nat) (s : Z) (st : fs_state (F := F)) :
  (forall q, q ∈ l -> is_Some (heap st !! q)) ->
  exists r, find_open l s st = Done (r, st)
    /\ match r with
       | Some p => p ∈ l /\ exists ino, heap st !! p = Some ino /\ sector ino = s
       | None => forall q i, q ∈ l -> heap st !! q = Some i -> sector i <> s
       end.
Proof.
  induction l as [|e l IH]; intros Hlive.
  - exists None. split; [reflexivity|]. intros q i Hq. inversion Hq.
  - destruct (Hlive e) as [ie Hie]; [left|].
    cbn [find_open].
    rewrite (bind_done _ _ _ _ _ (deref_live e ie st Hie)).
    destruct (sector ie =? s) eqn:E.
    + apply Z.eqb_eq in E. exists (Some e). split; [reflexivity|].
      split; [left|]. now exists ie.
    + apply Z.eqb_neq in E.
      destruct IH as (r & Hrun & Hr).
      { intros q Hq. apply Hlive. now right. }
      exists r. split; [exact Hrun|].
      destruct r as [p|].
      * destruct Hr as [Hin Hino]. split; [now right | exact Hino].
      * intros q i Hq Hi. apply elem_of_cons in Hq as [->|Hq].
        -- rewrite Hie in Hi. now inversion Hi; subst.
        -- now apply (Hr q i).
Qed.

Lemma registry_wf_update (p : nat) (old new : inode) (st : fs_state (F := F)) :
  registry_wf st ->
  heap st !! p = Some old ->
  sector new = sector old ->
  registry_wf (set_heap (<[p := new]> (heap st)) st).
Proof.
  intros (Hnd & Hiff & Hinj) Hp Hsec. unfold registry_wf; cbn.
  split; [exact Hnd|]. split.
  - intros q. rewrite Hiff. destruct (decide (p = q)) as [->|Hne].
    + rewrite lookup_insert_eq, Hp. split; eauto.
    + now rewrite lookup_insert_ne.
  - intros q1 q2 i1 i2 H1 H2 Hs.
    destruct (decide (p = q1)) as [<-|Hne1], (decide (p = q2)) as [<-|Hne2];
      try reflexivity.
    + rewrite lookup_insert_eq in H1. rewrite lookup_insert_ne in H2 by done.
      inversion H1; subst. apply (Hinj p q2 old i2); congruence.
    + rewrite lookup_insert_ne in H1 by done. rewrite lookup_insert_eq in H2.
      inversion H2; subst. apply (Hinj q1 p i1 old); congruence.
    + rewrite lookup_insert_ne in H1, H2 by done. now apply (Hinj q1 q2 i1 i2).
Qed.

(** An open of a sector that has a live handle only increments the
    open count of that handle. *)
Lemma inode_open_again (p : nat) (ino : inode) (b : bool) (st : fs_state (F := F)) :
  registry_wf st ->
  heap st !! p = Some ino ->
  inode_open b (sector ino) st
  = Done (Some p, set_heap (<[p := set_open_cnt (open_cnt ino +i 1) ino]> (heap st)) st).
Proof.
  intros Hwf Hp. pose proof Hwf as (Hnd & Hiff & Hinj).
  unfold inode_open.
  destruct (find_open_spec (open_inodes st) (sector ino) st) as (r & Hrun & Hr).
  { intros q Hq. now apply Hiff. }
  rewrite (bind_done _ _ _ _ _ Hrun).
  destruct r as [q|].
  - destruct Hr as (_ & iq & Hq & Hs).
    assert (q = p) as -> by (apply (Hinj q p iq ino); assumption).
    unfold inode_reopen.
    rewrite (bind_done _ _ _ _ _ (deref_live p ino st Hp)).
    rewrite (bind_done _ _ _ _ _ (store_live p ino _ st Hp)).
    reflexivity.
  - exfalso. apply (Hr p ino); [|exact Hp|reflexivity].
    apply Hiff. eauto.
Qed.

(** The first open of a sector makes a new handle from the descriptor
    read from the device. *)
Lemma inode_open_first (s : Z) (d : list Z) (st : fs_state (F := F)) :
  registry_wf st ->
  not_open st s ->
  fs_device st !! s = Some d ->
  let p := fresh (dom (heap st)) in
  heap st !! p = None
  /\ inode_open true s st
     = Done (Some p,
             {| fs_device := fs_device st; free_map := free_map st;
                open_inodes := p :: open_inodes st;
                heap := <[p := mk_inode s 1 false 0 (decode_inode d)]> (heap st);
                io_log := io_log st ++ [IoRead s] |}).
Proof.
  intros Hwf Hno Hd p. pose proof Hwf as (Hnd & Hiff & Hinj).
  assert (Hfresh : heap st !! p = None).
  { apply not_elem_of_dom. apply is_fresh. }
  split; [exact Hfresh|].
  unfold inode_open.
  destruct (find_open_spec (open_inodes st) s st) as (r & Hrun & Hr).
  { intros q Hq. now apply Hiff. }
  rewrite (bind_done _ _ _ _ _ Hrun).
  destruct r as [q|].
  - destruct Hr as (_ & iq & Hq & Hs). exfalso. now apply (Hno q iq).
  - unfold bind, malloc_inode, list_push_front, store, block_read, deref, ret; cbn.
    fold p. rewrite lookup_insert_eq. cbn. rewrite Hd. cbn.
    rewrite lookup_insert_eq. cbn. rewrite lookup_insert_eq.
    unfold set_heap, set_io_log, set_open_inodes, set_data; cbn.
    now rewrite !insert_insert_eq.
Qed.

(** inode_open keeps the registry invariant. *)
Lemma inode_open_wf (b : bool) (s : Z) (st st' : fs_state (F := F)) (h : option nat) :
  registry_wf st ->
  inode_open b s st = Done (h, st') ->
  registry_wf st'.
Proof.
  intros Hwf Hrun. pose proof Hwf as (Hnd & Hiff & Hinj).
  destruct (find_open_spec (open_inodes st) s st) as (r & Hfind & Hr).
  { intros q Hq. now apply Hiff. }
  destruct r as [q|].
  - destruct Hr as (_ & iq & Hq & Hs). subst s.
    rewrite (inode_open_again q iq b st Hwf Hq) in Hrun.
    inversion Hrun; subst.
    now apply registry_wf_update with (old := iq).
  - assert (Hno : not_open st s).
    { intros q i Hq. apply (Hr q i); [|exact Hq]. apply Hiff. eauto. }
    destruct b.
    + destruct (fs_device st !! s) as [d|] eqn:Hd.
      * destruct (inode_open_first s d st Hwf Hno Hd) as [Hfresh Hopen].
        rewrite Hopen in Hrun. inversion Hrun; subst. clear Hrun Hopen.
        set (p := fresh (dom (heap st))) in *.
        assert (Hnotin : p ∉ open_inodes st).
        { intros Hin. apply Hiff in Hin. rewrite Hfresh in Hin. now destruct Hin. }
        unfold registry_wf; cbn. split; [|split].
        -- now apply NoDup_cons.
        -- intros q. rewrite elem_of_cons, Hiff.
           destruct (decide (p = q)) as [->|Hne].
           ++ rewrite lookup_insert_eq. split; eauto.
           ++ rewrite lookup_insert_ne by done. split; [|now right].
              intros [->|Hq]; [contradiction|exact Hq].
        -- intros q1 q2 i1 i2 H1 H2 Hs.
           destruct (decide (p = q1)) as [<-|Hne1], (decide (p = q2)) as [<-|Hne2];
             try reflexivity.
           ++ rewrite lookup_insert_eq in H1. rewrite lookup_insert_ne in H2 by done.
              inversion H1; subst. cbn in Hs. exfalso. now apply (Hno q2 i2).
           ++ rewrite lookup_insert_ne in H1 by done. rewrite lookup_insert_eq in H2.
              inversion H2; subst. cbn in Hs. exfalso. now apply (Hno q1 i1).
           ++ rewrite lookup_insert_ne in H1, H2 by done. now apply (Hinj q1 q2 i1 i2).
      * exfalso. revert Hrun. unfold inode_open.
        rewrite (bind_done _ _ _ _ _ Hfind).
        unfold bind, malloc_inode, list_push_front, store, block_read; cbn.
        rewrite lookup_insert_eq. cbn. rewrite Hd. discriminate.
    + revert Hrun. unfold inode_open.
      rewrite (bind_done _ _ _ _ _ Hfind). cbn.
      intros Hrun. inversion Hrun; subst. exact Hwf.
Qed.

End RegistryFacts.

Section OpenClose.

Context {F : Type} `{FreeMap F}.

(** The close of the last opener: the handle leaves the registry, its
    sectors are reclaimed if it was removed, and it is freed. *)
Lemma inode_close_last (p : nat) (ino : inode) (st : fs_state (F := F)) :
  heap st !! p = Some ino ->
  open_cnt ino = 1 ->
  inode_close (Some p) st
  = ((if removed ino then reclaim (set_open_cnt 0 ino) else ret tt) ;;; free_inode p)
      (set_open_inodes (filter (fun q => q <> p) (open_inodes st))
         (set_heap (<[p := set_open_cnt 0 ino]> (heap st)) st)).
Proof.
  intros Hp Hcnt. unfold inode_close.
  rewrite (bind_done _ _ _ _ _ (deref_live p ino st Hp)).
  rewrite Hcnt. change (1 -i 1) with 0.
  rewrite (bind_done _ _ _ _ _ (store_live p ino _ st Hp)).
  cbn [open_cnt set_open_cnt Z.eqb].
  reflexivity.
Qed.

Lemma filter_ne_fresh (p : nat) (l : list nat) :
  p ∉ l -> filter (fun q => q <> p) l = l.
Proof.
  induction l as [|a l IH]; intros Hp; [reflexivity|].
  apply not_elem_of_cons in Hp as [Hne Hp].
  rewrite filter_cons_True by congruence. now rewrite IH.
Qed.

Lemma filter_ne_head (p : nat) (l : list nat) :
  p ∉ l -> filter (fun q => q <> p) (p :: l) = l.
Proof.
  intros Hp. rewrite filter_cons_False by (intros Hne; now apply Hne).
  now apply filter_ne_fresh.
Qed.

(** [k + 1] closes of a handle that [k + 1] openers hold and nobody
    removed. *)
Lemma close_all_last (k : nat) (p : nat) (ino : inode) (st : fs_state (F := F)) :
  heap st !! p = Some ino ->
  open_cnt ino = Z.of_nat (S k) ->
  Z.of_nat (S k) < 2147483648 ->
  removed ino = false ->
  exists st', close_all (replicate (S k) (Some p)) st = Done (tt, st')
    /\ free_map st' = free_map st
    /\ fs_device st' = fs_device st
    /\ io_log st' = io_log st
    /\ open_inodes st' = filter (fun q => q <> p) (open_inodes st)
    /\ heap st' = delete p (heap st).
Proof.
  revert ino st. induction k as [|k IH]; intros ino st Hp Hcnt Hlt Hrm.
  - cbn [replicate close_all].
    assert (Hc : inode_close (Some p) st
                 = Done (tt, set_heap (delete p (heap st))
                               (set_open_inodes (filter (fun q => q <> p) (open_inodes st)) st))).
    { rewrite (inode_close_last p ino st Hp Hcnt), Hrm.
      unfold bind, ret, free_inode; cbn.
      rewrite lookup_insert_eq. now rewrite delete_insert_eq. }
    rewrite (bind_done _ _ _ _ _ Hc).
    eexists. split; [reflexivity|]. cbn. repeat split; reflexivity.
  - cbn [replicate close_all].
    rewrite (bind_done _ _ _ _ _ (inode_close_shared p ino st Hp ltac:(lia))).
    set (ino1 := set_open_cnt (open_cnt ino - 1) ino).
    set (st1 := set_heap (<[p := ino1]> (heap st)) st).
    destruct (IH ino1 st1) as (st' & Hrun & Hfm & Hdev & Hlog & Hreg & Hheap).
    + unfold st1; cbn. apply lookup_insert_eq.
    + unfold ino1; cbn. lia.
    + lia.
    + exact Hrm.
    + exists st'. split; [exact Hrun|].
      repeat split; try assumption.
      rewrite Hheap. unfold st1; cbn. apply delete_insert_eq.
Qed.

(** [k] further opens of a sector that has a live handle. *)
Lemma open_n_again (k : nat) (p : nat) (ino : inode) (b : bool) (st : fs_state (F := F)) :
  registry_wf st ->
  heap st !! p = Some ino ->
  0 <= open_cnt ino ->
  open_cnt ino + Z.of_nat k < 2147483648 ->
  exists st', open_n k b (sector ino) st = Done (replicate k (Some p), st')
    /\ free_map st' = free_map st
    /\ fs_device st' = fs_device st
    /\ io_log st' = io_log st
    /\ open_inodes st' = open_inodes st
    /\ heap st' = <[p := set_open_cnt (open_cnt ino + Z.of_nat k) ino]> (heap st).
Proof.
  revert ino st. induction k as [|k IH]; intros ino st Hwf Hp Hpos Hlt.
  - exists st. cbn. repeat split; try reflexivity.
    rewrite Z.add_0_r. destruct ino; cbn. now rewrite insert_id.
  - cbn [open_n replicate].
    rewrite (bind_done _ _ _ _ _ (inode_open_again p ino b st Hwf Hp)).
    rewrite int_add_id by (unfold in_int; lia).
    set (ino1 := set_open_cnt (open_cnt ino + 1) ino).
    set (st1 := set_heap (<[p := ino1]> (heap st)) st).
    destruct (IH ino1 st1) as (st' & Hrun & Hfm & Hdev & Hlog & Hreg & Hheap).
    + now apply registry_wf_update with (old := ino).
    + unfold st1; cbn. apply lookup_insert_eq.
    + unfold ino1; cbn. lia.
    + unfold ino1; cbn. lia.
    + change (sector ino1) with (sector ino) in Hrun.
      rewrite (bind_done _ _ _ _ _ Hrun).
      exists st'. split; [reflexivity|].
      repeat split; try assumption.
      rewrite Hheap. unfold st1, ino1, set_open_cnt; cbn.
      rewrite insert_insert_eq. do 2 f_equal. lia.
Qed.

End OpenClose.


(** ** Reclamation at the last close (C7) *)

Section Reclaim.

Context {F : Type} `{FreeMap F}.

Lemma release_all_app (l1 l2 : list Z) (f : F) :
  release_all (l1 ++ l2) f = release_all l2 (release_all l1 f).
Proof. unfold release_all. apply foldl_app. Qed.

(** A release loop hands back the slots before the first sentinel and
    touches nothing but the allocator. *)
Lemma release_run_spec (a : list Z) (st : fs_state (F := F)) :
  release_run a st
  = Done (run_complete a,
          set_free_map (release_all (allocated_run a) (free_map st)) st).
Proof.
  revert st. induction a as [|s a IH]; intros st.
  - destruct st; reflexivity.
  - cbn [release_run allocated_run run_complete forallb].
    destruct (s =? sentinel) eqn:E.
    + destruct st; reflexivity.
    + unfold bind at 1. cbn [fm_release]. rewrite IH. reflexivity.
Qed.

(** The double-indirect walk hands back the sectors [double_targets]
    lists and writes nothing to the device. *)
Lemma release_double_spec (outer : list Z) (st : fs_state (F := F)) (L : list Z) :
  double_targets (fs_device st) outer = Some L ->
  exists st', release_double outer st = Done (tt, st')
    /\ free_map st' = release_all L (free_map st)
    /\ fs_device st' = fs_device st
    /\ heap st' = heap st
    /\ open_inodes st' = open_inodes st.
Proof.
  revert st L. induction outer as [|e outer IH]; intros st L HL.
  - injection HL as <-. exists st. repeat split; reflexivity.
  - cbn [double_targets release_double] in *.
    destruct (e =? sentinel) eqn:E.
    + injection HL as <-. exists st. repeat split; reflexivity.
    + destruct (fs_device st !! e) as [blk|] eqn:Hblk; [|discriminate].
      unfold bind at 1. unfold block_read. rewrite Hblk.
      set (inner := decode_level blk) in *. clearbody inner.
      unfold bind at 1. rewrite release_run_spec.
      unfold bind at 1. cbn [fm_release].
      destruct (run_complete inner) eqn:Hfull.
      * destruct (double_targets (fs_device st) outer) as [r|] eqn:Hr; [|discriminate].
        injection HL as <-.
        match goal with
        | |- context [release_double outer ?s] =>
            destruct (IH s r Hr) as (st' & Hrun & Hfm & Hdev & Hheap & Hreg)
        end.
        exists st'. split; [exact Hrun|].
        rewrite Hfm, Hdev, Hheap, Hreg. cbn.
        repeat split; try reflexivity.
        rewrite release_all_app. reflexivity.
      * injection HL as <-. eexists. split; [reflexivity|]. cbn.
        repeat split; try reflexivity.
        rewrite release_all_app. reflexivity.
Qed.

Ltac released :=
  unfold release_all; cbn [foldl]; rewrite ?foldl_app; reflexivity.

(** The reclamation hands back the sectors [reclaimed] lists. *)
Lemma reclaim_spec (ino : inode) (st : fs_state (F := F)) (L : list Z) :
  reclaimed (fs_device st) ino = Some L ->
  exists st', reclaim ino st = Done (tt, st')
    /\ free_map st' = release_all L (free_map st)
    /\ fs_device st' = fs_device st
    /\ heap st' = heap st
    /\ open_inodes st' = open_inodes st.
Proof.
  unfold reclaimed, reclaim. intros HL.
  unfold bind at 1. cbn [fm_release].
  unfold bind at 1. rewrite release_run_spec.
  destruct (run_complete (direct (data ino))) eqn:Hfull; cbn [negb orb] in *.
  2:{ injection HL as <-. eexists. split; [reflexivity|]. cbn.
      repeat split; reflexivity. }
  destruct (single_level (data ino) =? sentinel) eqn:E1.
  { injection HL as <-. eexists. split; [reflexivity|]. cbn.
    repeat split; reflexivity. }
  cbn [fs_device set_free_map] in HL |- *.
  destruct (fs_device st !! single_level (data ino)) as [b1|] eqn:Hb1; [|discriminate].
  unfold bind at 1. unfold block_read. cbn [fs_device set_free_map]. rewrite Hb1.
  set (l1 := decode_level b1) in *. clearbody l1.
  unfold bind at 1. rewrite release_run_spec.
  unfold bind at 1. cbn [fm_release].
  destruct (run_complete l1) eqn:Hfull1; cbn [negb orb] in *.
  2:{ injection HL as <-. eexists. split; [reflexivity|]. cbn.
      repeat split; try reflexivity.
      released. }
  destruct (double_level (data ino) =? sentinel) eqn:E2.
  { injection HL as <-. eexists. split; [reflexivity|]. cbn.
    repeat split; try reflexivity.
    released. }
  destruct (fs_device st !! double_level (data ino)) as [b2|] eqn:Hb2; [|discriminate].
  unfold bind at 1. unfold block_read. cbn [fs_device set_free_map set_io_log]. rewrite Hb2.
  set (l2 := decode_level b2) in *. clearbody l2.
  destruct (double_targets (fs_device st) l2) as [r|] eqn:Hr; [|discriminate].
  injection HL as <-.
  unfold bind at 1.
  match goal with
  | |- context [release_double l2 ?s] =>
      destruct (release_double_spec l2 s r Hr)
        as (st' & Hrun & Hfm & Hdev & Hheap & Hreg)
  end.
  rewrite Hrun.
  eexists. split; [reflexivity|]. cbn.
  rewrite Hfm, Hdev, Hheap, Hreg. cbn.
  repeat split; try reflexivity.
  released.
Qed.

(** On a pointer structure without holes the walk with its stop rules
    visits every sector the structure leads to. *)
Lemma double_targets_compact (dev : gmap Z (list Z)) (outer : list Z) :
  compact_outer dev outer = true ->
  double_targets dev outer
  = Some (concat (map (fun e => allocated_run (level_of dev e) ++ [e])
                      (allocated_run outer))).
Proof.
  induction outer as [|e outer IH]; intros Hc; [reflexivity|].
  cbn [compact_outer double_targets allocated_run] in *.
  destruct (e =? sentinel); [reflexivity|].
  apply andb_true_iff in Hc as [Hc Hrest].
  apply andb_true_iff in Hc as [Hdev Hnext].
  apply bool_decide_eq_true in Hdev as [blk Hblk].
  unfold level_of at 1 in Hnext. unfold level_of at 1.
  cbn [map concat]. rewrite Hblk in *.
  set (inner := decode_level blk) in *. clearbody inner.
  destruct (run_complete inner).
  - rewrite (IH Hrest). now rewrite <- app_assoc.
  - cbn [orb] in Hnext.
    assert (Hrun : allocated_run outer = []).
    { destruct outer as [|e' outer']; [reflexivity|].
      cbn [allocated_run]. now rewrite Hnext. }
    rewrite Hrun. cbn [map concat]. now rewrite app_nil_r.
Qed.

Lemma reclaimed_compact (dev : gmap Z (list Z)) (ino : inode) :
  compact dev ino = true ->
  reclaimed dev ino = Some (reachable dev ino).
Proof.
  unfold compact, reclaimed, reachable. intros Hc.
  apply andb_true_iff in Hc as [Hsingle Hdouble].
  destruct (single_level (data ino) =? sentinel) eqn:E1.
  - cbn [orb negb andb] in Hdouble. rewrite orb_false_r in Hdouble.
    rewrite Hdouble, orb_true_r. now rewrite !app_nil_r.
  - cbn [orb] in Hsingle.
    apply andb_true_iff in Hsingle as [Hfull Hdev1].
    apply bool_decide_eq_true in Hdev1 as [b1 Hb1].
    rewrite Hfull. cbn [negb orb].
    unfold level_of at 1 in Hdouble. unfold level_of at 1.
    rewrite Hb1 in *.
    set (l1 := decode_level b1) in *. clearbody l1.
    destruct (double_level (data ino) =? sentinel) eqn:E2.
    + rewrite orb_true_r. now rewrite app_nil_r.
    + cbn [orb negb andb] in Hdouble.
      apply andb_true_iff in Hdouble as [Hdouble Houter].
      apply andb_true_iff in Hdouble as [Hfull1 Hdev2].
      apply bool_decide_eq_true in Hdev2 as [b2 Hb2].
      rewrite Hfull1. cbn [negb orb].
      unfold level_of at 1 in Houter. unfold level_of at 2.
      rewrite Hb2 in *.
      now rewrite (double_targets_compact dev _ Houter).
Qed.

(** The reclamation leaves the handles and the registry alone. *)
Lemma keeps_handles_ret {A} (a : A) : keeps_handles (F := F) (ret a).
Proof. intros st a' st' Hr. injection Hr as <- <-. now split. Qed.

Lemma keeps_handles_bind {A B} (m : M (F := F) A) (k : A -> M B) :
  keeps_handles m -> (forall a, keeps_handles (k a)) -> keeps_handles (bind m k).
Proof.
  intros Hm Hk st b st2 Hrun.
  apply bind_inv in Hrun as (a & st1 & H1 & H2).
  destruct (Hm _ _ _ H1) as [Hh1 Hr1]. destruct (Hk _ _ _ _ H2) as [Hh2 Hr2].
  split; congruence.
Qed.

Lemma keeps_handles_fm_release (s cnt : Z) : keeps_handles (F := F) (fm_release s cnt).
Proof. intros st [] st' Hr. injection Hr as <-. now split. Qed.

Lemma keeps_handles_block_read (s : Z) : keeps_handles (F := F) (block_read s).
Proof.
  intros st a st'. unfold block_read.
  destruct (fs_device st !! s); [|discriminate].
  intros Hr. injection Hr as <- <-. now split.
Qed.

Lemma keeps_handles_release_run (a : list Z) : keeps_handles (F := F) (release_run a).
Proof.
  induction a as [|s a IH]; cbn [release_run]; [apply keeps_handles_ret|].
  destruct (s =? sentinel); [apply keeps_handles_ret|].
  apply keeps_handles_bind; [apply keeps_handles_fm_release | intros _; exact IH].
Qed.

Lemma keeps_handles_release_double (outer : list Z) :
  keeps_handles (F := F) (release_double outer).
Proof.
  induction outer as [|s outer IH]; cbn [release_double]; [apply keeps_handles_ret|].
  destruct (s =? sentinel); [apply keeps_handles_ret|].
  apply keeps_handles_bind; [apply keeps_handles_block_read|]. intros b.
  apply keeps_handles_bind; [apply keeps_handles_release_run|]. intros full.
  apply keeps_handles_bind; [apply keeps_handles_fm_release|]. intros _.
  destruct full; [exact IH | apply keeps_handles_ret].
Qed.

Lemma keeps_handles_reclaim (ino : inode) : keeps_handles (F := F) (reclaim ino).
Proof.
  unfold reclaim.
  apply keeps_handles_bind; [apply keeps_handles_fm_release|]. intros _.
  apply keeps_handles_bind; [apply keeps_handles_release_run|]. intros full.
  destruct (negb full); [apply keeps_handles_ret|].
  destruct (_ =? sentinel); [apply keeps_handles_ret|].
  apply keeps_handles_bind; [apply keeps_handles_block_read|]. intros b1.
  apply keeps_handles_bind; [apply keeps_handles_release_run|]. intros full1.
  apply keeps_handles_bind; [apply keeps_handles_fm_release|]. intros _.
  destruct (negb full1); [apply keeps_handles_ret|].
  destruct (_ =? sentinel); [apply keeps_handles_ret|].
  apply keeps_handles_bind; [apply keeps_handles_block_read|]. intros b2.
  apply keeps_handles_bind; [apply keeps_handles_release_double|]. intros _.
  apply keeps_handles_fm_release.
Qed.

(** inode_close keeps the registry invariant. *)
Lemma inode_close_wf (h : option nat) (st st' : fs_state (F := F)) :
  registry_wf st ->
  inode_close h st = Done (tt, st') ->
  registry_wf st'.
Proof.
  intros Hwf Hrun. destruct h as [p|].
  2:{ injection Hrun as <-. exact Hwf. }
  unfold inode_close in Hrun.
  apply bind_inv in Hrun as (ino & st0 & Hderef & Hrun).
  unfold deref in Hderef.
  destruct (heap st !! p) as [i|] eqn:Hp; [|discriminate].
  injection Hderef as Hi Hs. subst i st0.
  rewrite (bind_done _ _ _ _ _ (store_live p ino _ st Hp)) in Hrun.
  cbn [open_cnt set_open_cnt] in Hrun.
  set (ino' := set_open_cnt (open_cnt ino -i 1) ino) in *.
  assert (Hwf1 : registry_wf (set_heap (<[p := ino']> (heap st)) st)).
  { now apply registry_wf_update with (old := ino). }
  destruct (open_cnt ino -i 1 =? 0).
  2:{ injection Hrun as <-. exact Hwf1. }
  apply bind_inv in Hrun as ([] & st1 & Hrem & Hrun).
  injection Hrem as <-.
  apply bind_inv in Hrun as ([] & st2 & Hrec & Hfree).
  assert (Hkeep : heap st2 = <[p := ino']> (heap st)
                  /\ open_inodes st2 = filter (fun q => q <> p) (open_inodes st)).
  { destruct (removed ino').
    - now destruct (keeps_handles_reclaim _ _ _ _ Hrec).
    - injection Hrec as <-. now split. }
  destruct Hkeep as [Hheap2 Hreg2].
  unfold free_inode in Hfree. rewrite Hheap2, lookup_insert_eq in Hfree.
  injection Hfree as <-.
  destruct Hwf as (Hnd & Hiff & Hinj).
  unfold registry_wf; cbn. rewrite Hreg2, delete_insert_eq.
  split; [|split].
  - now apply NoDup_filter.
  - intros q. rewrite list_elem_of_filter, Hiff.
    destruct (decide (q = p)) as [->|Hne].
    + rewrite lookup_delete_eq. split.
      * intros [Hne _]. now contradiction Hne.
      * intros [x Hx]. discriminate.
    + rewrite lookup_delete_ne by congruence. tauto.
  - intros q1 q2 i1 i2 H1 H2.
    apply lookup_delete_Some in H1 as [_ H1].
    apply lookup_delete_Some in H2 as [_ H2].
    now apply (Hinj q1 q2 i1 i2).
Qed.

End Reclaim.

(** C9. In a state that satisfies the registry invariant (the registry
    lists exactly the live handles and no two of them describe the same
    sector): inode_open and inode_close keep the invariant; an open of a sector that
    has a live handle returns that same handle with its open count
    incremented and touches neither the device nor the registry; the
    first open of a sector allocates a new handle, reads the descriptor
    from the device, and registers the handle with open count 1; and n
    opens of a sector that was not open return one and the same handle,
    after which n closes leave the registry and the heap as they were,
    with no handle for the sector. *)
Theorem registry_single_handle {F : Type} `{FreeMap F} (st : fs_state (F := F))
    (s : Z) (d : list Z) (n : nat) :
  registry_wf st ->
  fs_device st !! s = Some d ->
  (0 < n)%nat ->
  Z.of_nat n < 2147483648 ->
  (forall b h st', inode_open b s st = Done (h, st') -> registry_wf st')
  /\ (forall h st', inode_close h st = Done (tt, st') -> registry_wf st')
  /\ (forall p ino b, heap st !! p = Some ino -> sector ino = s ->
        inode_open b s st
        = Done (Some p,
                set_heap (<[p := set_open_cnt (open_cnt ino +i 1) ino]> (heap st)) st))
  /\ (not_open st s ->
      exists p,
        heap st !! p = None
        /\ inode_open true s st
           = Done (Some p,
                   {| fs_device := fs_device st; free_map := free_map st;
                      open_inodes := p :: open_inodes st;
                      heap := <[p := mk_inode s 1 false 0 (decode_inode d)]> (heap st);
                      io_log := io_log st ++ [IoRead s] |})
        /\ exists st1 st2,
             open_n n true s st = Done (replicate n (Some p), st1)
             /\ close_all (replicate n (Some p)) st1 = Done (tt, st2)
             /\ open_inodes st2 = open_inodes st
             /\ heap st2 = heap st
             /\ not_open st2 s).
Proof.
  intros Hwf Hd Hn Hlt. split; [|split; [|split]].
  - intros b h st'. now apply inode_open_wf.
  - intros h st'. now apply inode_close_wf.
  - intros p ino b Hp <-. now apply inode_open_again.
  - intros Hno.
    destruct (inode_open_first s d st Hwf Hno Hd) as [Hfresh Hopen].
    set (p := fresh (dom (heap st))) in *.
    exists p. split; [exact Hfresh|]. split; [exact Hopen|].
    destruct n as [|k]; [lia|].
    set (ino1 := mk_inode s 1 false 0 (decode_inode d)).
    set (st1 := {| fs_device := fs_device st; free_map := free_map st;
                   open_inodes := p :: open_inodes st;
                   heap := <[p := ino1]> (heap st);
                   io_log := io_log st ++ [IoRead s] |}) in *.
    assert (Hwf1 : registry_wf st1) by (eapply inode_open_wf; eauto).
    assert (Hp1 : heap st1 !! p = Some ino1) by (unfold st1; cbn; apply lookup_insert_eq).
    destruct (open_n_again k p ino1 true st1 Hwf1 Hp1)
      as (st2 & Hrun2 & Hfm2 & Hdev2 & Hlog2 & Hreg2 & Hheap2).
    { cbn. lia. }
    { cbn. lia. }
    set (ino2 := set_open_cnt (open_cnt ino1 + Z.of_nat k) ino1) in *.
    assert (Hp2 : heap st2 !! p = Some ino2) by (rewrite Hheap2; apply lookup_insert_eq).
    destruct (close_all_last k p ino2 st2 Hp2) as (st3 & Hrun3 & _ & _ & _ & Hreg3 & Hheap3).
    { unfold ino2; cbn. lia. }
    { lia. }
    { reflexivity. }
    exists st2, st3. split; [|split; [exact Hrun3|]].
    + cbn [open_n replicate].
      rewrite (bind_done _ _ _ _ _ Hopen).
      change s with (sector ino1) at 1.
      now rewrite (bind_done _ _ _ _ _ Hrun2).
    + assert (Hnotin : p ∉ open_inodes st).
      { intros Hin. destruct Hwf as (_ & Hiff & _).
        apply Hiff in Hin. rewrite Hfresh in Hin. now destruct Hin. }
      assert (Hh : heap st3 = heap st).
      { rewrite Hheap3, Hheap2. unfold st1; cbn.
        rewrite delete_insert_eq, delete_insert_eq. now apply delete_id. }
      split; [|split; [exact Hh|]].
      * rewrite Hreg3, Hreg2. unfold st1; cbn. now apply filter_ne_head.
      * intros q i Hq. rewrite Hh in Hq. now apply (Hno q i).
Qed.

Lemma registry_wf_boot : registry_wf boot.
Proof.
  unfold registry_wf, boot; cbn. split; [constructor|]. split.
  - intros p. rewrite lookup_empty. split.
    + intros Hp. inversion Hp.
    + intros [x Hx]. discriminate.
  - intros p q ip iq Hp. rewrite lookup_empty in Hp. discriminate.
Qed.

Lemma registry_wf_single {F : Type} `{FreeMap F} (dev : gmap Z (list Z)) (f : F)
    (p : nat) (ino : inode) (lg : list io_event) :
  registry_wf {| fs_device := dev; free_map := f; open_inodes := [p];
                 heap := {[ p := ino ]}; io_log := lg |}.
Proof.
  unfold registry_wf; cbn. split; [|split].
  - apply NoDup_singleton.
  - intros q. rewrite list_elem_of_singleton. split.
    + intros ->. rewrite lookup_singleton_eq. eauto.
    + intros [x Hx]. apply lookup_singleton_Some in Hx as [-> _]. reflexivity.
  - intros q1 q2 i1 i2 H1 H2 _.
    apply lookup_singleton_Some in H1 as [<- _].
    apply lookup_singleton_Some in H2 as [<- _]. reflexivity.
Qed.

Lemma registry_single_handle_witness :
  (exists p st1 st2,
     open_n 3 true 0 boot = Done (replicate 3 (Some p), st1)
     /\ close_all (replicate 3 (Some p)) st1 = Done (tt, st2)
     /\ open_inodes st2 = [])
  /\ inode_open true 0 shared
     = Done (Some 0%nat,
             set_heap (<[0%nat := set_open_cnt (3 +i 1) shared_inode]> (heap shared)) shared).
Proof.
  split.
  - destruct (registry_single_handle boot 0 residue 3) as (_ & _ & _ & Hfirst).
    + exact registry_wf_boot.
    + reflexivity.
    + lia.
    + lia.
    + destruct Hfirst as (p & _ & _ & st1 & st2 & H1 & H2 & H3 & _).
      { intros q i Hq. cbn in Hq. rewrite lookup_empty in Hq. discriminate. }
      exists p, st1, st2. repeat split; assumption.
  - destruct (registry_single_handle shared 0 residue 1) as (_ & _ & Hagain & _).
    + apply registry_wf_single.
    + reflexivity.
    + lia.
    + lia.
    + apply (Hagain 0%nat shared_inode true); reflexivity.
Defined.

(** C7. When inode_close takes the open count of a handle to zero, the
    handle leaves the registry and is freed, whether or not it was
    removed.  If it was removed, the sectors handed back to the
    allocator before that are, in order, exactly those of [reclaimed]:
    the descriptor sector, the direct sectors up to the first sentinel,
    the targets of the single-indirect block up to the first sentinel
    and then that block, the targets of each inner block up to the
    first sentinel and then the inner block, and last the
    double-indirect outer block.  If it was not removed, nothing is
    handed back.  The device content is not changed.  When the pointer
    structure has no holes, these are exactly the sectors the
    descriptor leads to ([reachable]). *)
Theorem close_reclaims_reachable {F : Type} `{FreeMap F} (st : fs_state (F := F))
    (p : nat) (ino : inode) (L : list Z) :
  heap st !! p = Some ino ->
  open_cnt ino = 1 ->
  (if removed ino then reclaimed (fs_device st) ino else Some []) = Some L ->
  (exists st', inode_close (Some p) st = Done (tt, st')
     /\ free_map st' = release_all L (free_map st)
     /\ heap st' = delete p (heap st)
     /\ open_inodes st' = filter (fun q => q <> p) (open_inodes st)
     /\ fs_device st' = fs_device st)
  /\ (removed ino = true -> compact (fs_device st) ino = true ->
      L = reachable (fs_device st) ino).
Proof.
  intros Hp Hcnt HL. split.
  2:{ intros Hrm Hc. rewrite Hrm, (reclaimed_compact _ _ Hc) in HL. congruence. }
  rewrite (inode_close_last p ino st Hp Hcnt).
  set (st1 := set_open_inodes _ _).
  destruct (removed ino) eqn:Hrm.
  - destruct (reclaim_spec (set_open_cnt 0 ino) st1 L HL)
      as (st2 & Hrun & Hfm & Hdev & Hheap & Hreg).
    rewrite (bind_done _ _ _ _ _ Hrun).
    unfold free_inode. rewrite Hheap. unfold st1 at 1; cbn.
    rewrite lookup_insert_eq.
    eexists. split; [reflexivity|]. cbn.
    rewrite Hfm, Hreg, Hdev. unfold st1; cbn.
    repeat split; try reflexivity. apply delete_insert_eq.
  - injection HL as <-.
    unfold bind, ret, free_inode. unfold st1 at 1; cbn.
    rewrite lookup_insert_eq.
    eexists. split; [reflexivity|]. cbn.
    repeat split; try reflexivity. apply delete_insert_eq.
Qed.

Lemma close_reclaims_reachable_witness :
  (exists st', inode_close (Some 0%nat) doomed = Done (tt, st')
     /\ free_map st' = [11; 13; 12; 10; 9; 8; 7; 6; 5; 4; 3; 2; 1; 0; 14; 15]
     /\ heap st' = delete 0%nat (heap doomed)
     /\ open_inodes st' = filter (fun q => q <> 0%nat) (open_inodes doomed)
     /\ fs_device st' = disk16)
  /\ (removed doomed_inode = true -> compact disk16 doomed_inode = true ->
      [0; 1; 2; 3; 4; 5; 6; 7; 8; 9; 10; 12; 13; 11] = reachable disk16 doomed_inode).
Proof.
  assert (HL : (if removed doomed_inode then reclaimed (fs_device doomed) doomed_inode
                else Some [])
               = Some [0; 1; 2; 3; 4; 5; 6; 7; 8; 9; 10; 12; 13; 11]).
  { vm_compute. reflexivity. }
  exact (close_reclaims_reachable doomed 0%nat doomed_inode _ eq_refl eq_refl HL).
Defined.

(** ** Reads (C3) *)

Section ReadFacts.

Context {F : Type} `{FreeMap F}.

Lemma set_io_log_same (st : fs_state (F := F)) : set_io_log (io_log st) st = st.
Proof. destruct st; reflexivity. Qed.

Lemma read_only_ret {A} (a : A) : read_only (F := F) (ret a).
Proof.
  intros st. cbn. exists []. split; [reflexivity|].
  intros lg. now rewrite app_nil_r.
Qed.

Lemma read_only_fail {A} (f : fault) : read_only (F := F) (fail (A := A) f).
Proof. intros st. cbn. reflexivity. Qed.

Lemma read_only_bind {A B} (m : M (F := F) A) (k : A -> M B) :
  read_only m -> (forall a, read_only (k a)) -> read_only (bind m k).
Proof.
  intros Hm Hk st. specialize (Hm st). unfold bind.
  destruct (m st) as [[a st1]|f] eqn:Em.
  - destruct Hm as (l1 & Hl1 & Hm).
    assert (Hst1 : st1 = set_io_log (io_log st ++ l1) st).
    { specialize (Hm (io_log st)). rewrite set_io_log_same, Em in Hm. congruence. }
    subst st1. specialize (Hk a (set_io_log (io_log st ++ l1) st)).
    destruct (k a (set_io_log (io_log st ++ l1) st)) as [[b st2]|f] eqn:Ek.
    + destruct Hk as (l2 & Hl2 & Hk). exists (l1 ++ l2). split.
      * rewrite forallb_app, Hl1, Hl2. reflexivity.
      * intros lg. rewrite Hm. specialize (Hk (lg ++ l1)). cbn in Hk.
        rewrite app_assoc. exact Hk.
    + intros lg. rewrite Hm. exact (Hk (lg ++ l1)).
  - intros lg. now rewrite Hm.
Qed.

Lemma read_only_block_read (s : Z) : read_only (F := F) (block_read s).
Proof.
  intros st. unfold block_read. cbn.
  destruct (fs_device st !! s) as [d|]; [|reflexivity].
  exists [IoRead s]. split; reflexivity.
Qed.

Lemma read_only_array_get (a : list Z) (i : Z) : read_only (F := F) (array_get a i).
Proof.
  unfold array_get.
  destruct ((i <? 0) || (Z.of_nat (List.length a) <=? i)); [apply read_only_fail|].
  destruct (a !! Z.to_nat i); [apply read_only_ret | apply read_only_fail].
Qed.

Lemma read_only_deref (h : option nat) : read_only (F := F) (deref h).
Proof.
  intros st. unfold deref. destruct h as [p|]; [|reflexivity]. cbn.
  destruct (heap st !! p); [|reflexivity].
  exists []. split; [reflexivity|]. intros lg. now rewrite app_nil_r.
Qed.

Lemma read_only_slice (b : list Z) (ofs n : Z) : read_only (F := F) (slice b ofs n).
Proof.
  unfold slice.
  destruct ((ofs <? 0) || (n <? 0) || (Z.of_nat (List.length b) <? ofs + n));
    [apply read_only_fail | apply read_only_ret].
Qed.

Lemma read_only_byte_to_sector (h : option nat) (pos : Z) :
  read_only (F := F) (byte_to_sector h pos).
Proof.
  unfold byte_to_sector. destruct h as [p|]; [|apply read_only_fail].
  apply read_only_bind; [apply read_only_deref|]. intros ino.
  destruct (_ <? 10); [apply read_only_array_get|].
  destruct (_ <? 128).
  { apply read_only_bind; [apply read_only_block_read|]. intros b.
    apply read_only_array_get. }
  destruct (_ <? _); [|apply read_only_ret].
  apply read_only_bind; [apply read_only_block_read|]. intros b.
  apply read_only_bind; [apply read_only_array_get|]. intros s.
  apply read_only_bind; [apply read_only_block_read|]. intros b'.
  apply read_only_array_get.
Qed.

(** The translation of a position does not depend on the log. *)
Lemma byte_to_sector_relog (h : option nat) (pos s : Z) (st : fs_state (F := F)) :
  sector_of st h pos = Some s ->
  exists l, forallb is_read l = true
    /\ forall lg, byte_to_sector h pos (set_io_log lg st)
                  = Done (s, set_io_log (lg ++ l) st).
Proof.
  unfold sector_of. intros Hs.
  pose proof (read_only_byte_to_sector h pos st) as Hro.
  destruct (byte_to_sector h pos st) as [[s' st']|f]; [|discriminate].
  injection Hs as ->. exact Hro.
Qed.

(** Positions of one sector translate alike. *)
Lemma sector_of_same_block (h : option nat) (pos1 pos2 : Z) (st : fs_state (F := F)) :
  0 <= pos1 < 2147483648 -> 0 <= pos2 < 2147483648 ->
  pos1 / 512 = pos2 / 512 ->
  sector_of st h pos1 = sector_of st h pos2.
Proof.
  intros H1 H2 Heq. unfold sector_of, byte_to_sector.
  unfold BLOCK_SECTOR_SIZE.
  rewrite (int_div_nonneg pos1 512), (int_div_nonneg pos2 512)
    by (unfold in_int; lia).
  now rewrite Heq.
Qed.

End ReadFacts.

Section ReadLoop.

Context {F : Type} `{FreeMap F}.
Variables (st : fs_state (F := F)) (p : nat) (ino : inode).
Hypothesis Hp : heap st !! p = Some ino.
Hypothesis Hlen : 0 <= length (data ino) < 2147483648.

Lemma inode_length_relog (lg : list io_event) :
  inode_length (Some p) (set_io_log lg st)
  = Done (length (data ino), set_io_log lg st).
Proof.
  unfold inode_length.
  rewrite (bind_done _ _ _ _ _ (deref_live p ino (set_io_log lg st) Hp)).
  reflexivity.
Qed.

Lemma file_byte_in_block (pos base s : Z) (d : list Z) :
  0 <= base < 2147483648 -> 0 <= pos < 2147483648 ->
  pos / 512 = base / 512 ->
  sector_of st (Some p) base = Some s ->
  fs_device st !! s = Some d ->
  file_byte st (Some p) pos = d !! Z.to_nat (pos `mod` 512).
Proof.
  intros Hb Hpos Heq Hs Hd. unfold file_byte.
  rewrite (sector_of_same_block (Some p) pos base st Hpos Hb Heq), Hs, Hd.
  reflexivity.
Qed.

Lemma read_loop_end (fuel : nat) (bounce_ok : bool) (offset br : Z)
    (bounce : option (list Z)) (buffer : list Z) (s : fs_state (F := F)) :
  read_loop fuel (Some p) bounce_ok 0 offset br bounce buffer s = Done ((br, buffer), s).
Proof. destruct fuel; reflexivity. Qed.

(** The loop delivers all of [size] when the range lies in the file and
    on the device. *)
Lemma read_loop_ok (fuel : nat) :
  forall (size offset br : Z) (bounce : option (list Z)) (buffer : list Z)
         (lg : list io_event),
    0 <= offset -> 0 <= size -> offset + size <= length (data ino) ->
    0 <= br -> br + size < 2147483648 ->
    (Z.to_nat size <= fuel)%nat ->
    mapped st (Some p) offset (offset + size) ->
    exists out l,
      read_loop fuel (Some p) true size offset br bounce buffer (set_io_log lg st)
      = Done ((br + size, buffer ++ out), set_io_log (lg ++ l) st)
      /\ forallb is_read l = true
      /\ List.length out = Z.to_nat size
      /\ forall k, 0 <= k < size ->
           out !! Z.to_nat k = file_byte st (Some p) (offset + k).
Proof.
  induction fuel as [|fuel IH];
    intros size offset br bounce buffer lg Hoff Hsize Hend Hbr Hbrs Hfuel Hmap.
  { assert (size = 0) as -> by lia. exists [], [].
    rewrite read_loop_end, !app_nil_r, Z.add_0_r.
    repeat split; try reflexivity. intros k Hk. lia. }
  destruct (Z.eq_dec size 0) as [->|Hnz].
  { exists [], []. rewrite read_loop_end, !app_nil_r, Z.add_0_r.
    repeat split; try reflexivity. intros k Hk. lia. }
  cbn [read_loop].
  replace (size >? 0) with true by (symmetry; apply Z.gtb_lt; lia).
  destruct (Hmap offset ltac:(lia)) as (s & d & Hs & Hd & Hdl).
  destruct (byte_to_sector_relog _ _ _ _ Hs) as (l1 & Hl1 & Hbts).
  rewrite (bind_done _ _ _ _ _ (Hbts lg)).
  rewrite (bind_done _ _ _ _ _ (inode_length_relog _)).
  cbv zeta. unfold BLOCK_SECTOR_SIZE.
  rewrite (int_rem_nonneg offset 512) by lia.
  set (ofs := offset `mod` 512).
  assert (Hofs : 0 <= ofs < 512) by (apply Z.mod_pos_bound; lia).
  rewrite (int_sub_id (length (data ino)) offset) by (unfold in_int; lia).
  rewrite (int_sub_id 512 ofs) by (unfold in_int; lia).
  set (chunk := if size <? _ then size else _).
  assert (Hchunk : chunk = Z.min size (512 - ofs)).
  { unfold chunk.
    destruct (Z.ltb_spec (length (data ino) - offset) (512 - ofs)) as [Hl|Hl];
      [destruct (Z.ltb_spec size (length (data ino) - offset))
      |destruct (Z.ltb_spec size (512 - ofs))]; lia. }
  clearbody chunk.
  replace (chunk <=? 0) with false by (symmetry; apply Z.leb_gt; lia).
  rewrite (int_sub_id size chunk), (int_add_id offset chunk), (int_add_id br chunk)
    by (unfold in_int; lia).
  assert (Hblock : forall k, 0 <= k < chunk -> (offset + k) / 512 = offset / 512).
  { intros k Hk. pose proof (Z.div_mod offset 512 ltac:(lia)) as Hdm. fold ofs in Hdm.
    symmetry. apply (Z.div_unique (offset + k) 512 (offset / 512) (ofs + k)); lia. }
  assert (Hbyte : forall k, 0 <= k < chunk ->
            file_byte st (Some p) (offset + k) = d !! Z.to_nat (ofs + k)).
  { intros k Hk.
    rewrite (file_byte_in_block (offset + k) offset s d) by first [lia | auto].
    f_equal. f_equal.
    pose proof (Z.div_mod offset 512 ltac:(lia)) as Hdm. fold ofs in Hdm.
    symmetry. apply (Z.mod_unique (offset + k) 512 (offset / 512) (ofs + k)); lia. }
  assert (IH' : forall bnc, exists out l2,
            read_loop fuel (Some p) true (size - chunk) (offset + chunk) (br + chunk) bnc
              (buffer ++ take (Z.to_nat chunk) (drop (Z.to_nat ofs) d))
              (set_io_log ((lg ++ l1) ++ [IoRead s]) st)
            = Done ((br + chunk + (size - chunk),
                     (buffer ++ take (Z.to_nat chunk) (drop (Z.to_nat ofs) d)) ++ out),
                    set_io_log (((lg ++ l1) ++ [IoRead s]) ++ l2) st)
            /\ forallb is_read l2 = true
            /\ List.length out = Z.to_nat (size - chunk)
            /\ forall k, 0 <= k < size - chunk ->
                 out !! Z.to_nat k = file_byte st (Some p) (offset + chunk + k)).
  { intros bnc. apply IH; try lia. intros pos Hpos. apply Hmap. lia. }
  assert (Hdelivered : forall out,
            (forall k, 0 <= k < size - chunk ->
               out !! Z.to_nat k = file_byte st (Some p) (offset + chunk + k)) ->
            forall k, 0 <= k < size ->
              (take (Z.to_nat chunk) (drop (Z.to_nat ofs) d) ++ out) !! Z.to_nat k
              = file_byte st (Some p) (offset + k)).
  { intros out Hcontent k Hk. destruct (Z.lt_ge_cases k chunk) as [Hlt|Hge].
    - rewrite lookup_app_l by (rewrite length_take, length_drop; lia).
      rewrite lookup_take_lt by lia. rewrite lookup_drop.
      rewrite Hbyte by lia. f_equal. lia.
    - rewrite lookup_app_r by (rewrite length_take, length_drop; lia).
      rewrite length_take, length_drop.
      replace (Z.to_nat k - Z.to_nat chunk `min` (List.length d - Z.to_nat ofs))%nat
        with (Z.to_nat (k - chunk)) by lia.
      rewrite Hcontent by lia. f_equal. lia. }
  assert (Hsize_out : forall out, List.length out = Z.to_nat (size - chunk) ->
            List.length (take (Z.to_nat chunk) (drop (Z.to_nat ofs) d) ++ out)
            = Z.to_nat size).
  { intros out Hout. rewrite length_app, length_take, length_drop, Hout. lia. }
  assert (Hfinish : forall bnc, exists out l,
            read_loop fuel (Some p) true (size - chunk) (offset + chunk) (br + chunk) bnc
              (buffer ++ take (Z.to_nat chunk) (drop (Z.to_nat ofs) d))
              (set_io_log ((lg ++ l1) ++ [IoRead s]) st)
            = Done ((br + size, buffer ++ out), set_io_log (lg ++ l) st)
            /\ forallb is_read l = true
            /\ List.length out = Z.to_nat size
            /\ forall k, 0 <= k < size ->
                 out !! Z.to_nat k = file_byte st (Some p) (offset + k)).
  { intros bnc. destruct (IH' bnc) as (out & l2 & Hrun & Hl2 & Hout & Hcontent).
    exists (take (Z.to_nat chunk) (drop (Z.to_nat ofs) d) ++ out), (l1 ++ [IoRead s] ++ l2).
    split; [|split; [|split]].
    - rewrite Hrun. rewrite <- !app_assoc. do 3 f_equal. lia.
    - rewrite !forallb_app, Hl1, Hl2. reflexivity.
    - now apply Hsize_out.
    - now apply Hdelivered. }
  clear IH' Hdelivered Hsize_out.
  destruct ((ofs =? 0) && (chunk =? 512)) eqn:Efull.
  - (* a whole sector, straight into the caller's buffer *)
    apply andb_true_iff in Efull as [Eo Ec].
    apply Z.eqb_eq in Eo, Ec.
    assert (Hwhole : take (Z.to_nat chunk) (drop (Z.to_nat ofs) d) = d).
    { rewrite Eo, Ec. cbn [Z.to_nat drop]. apply take_ge. lia. }
    rewrite Hwhole in Hfinish.
    unfold bind at 1. unfold block_read. cbn [fs_device set_io_log]. rewrite Hd.
    exact (Hfinish bounce).
  - (* part of a sector, through the bounce buffer *)
    assert (Hb : exists b0, (match bounce with
                             | Some b => Some b
                             | None => if true then Some (replicate 512 0) else None
                             end) = Some b0).
    { destruct bounce; eauto. }
    destruct Hb as [b0 ->].
    unfold bind at 1. unfold block_read. cbn [fs_device set_io_log]. rewrite Hd.
    unfold bind at 1. unfold slice.
    replace ((ofs <? 0) || (chunk <? 0) || (Z.of_nat (List.length d) <? ofs + chunk))
      with false.
    2:{ symmetry. rewrite !orb_false_iff.
        repeat split; apply Z.ltb_ge; lia. }
    unfold ret at 1.
    exact (Hfinish (Some d)).
Qed.

End ReadLoop.

(** The clamp of inode_read_at, where every sector below the length is
    wired.  For a live handle on a file whose bytes from [offset] on lie
    in sectors of the device, and when the bounce buffer can be
    allocated: a read whose end [offset + size] is beyond the length
    returns exactly max (0, length - offset) bytes, which is 0 when the
    clamped size is zero or negative.  The bytes delivered are the bytes
    of the file at [offset], [offset + 1], ... up to the length and none
    beyond it, and the read changes nothing but the log of device reads. *)
Lemma read_at_clamped {F : Type} `{FreeMap F} (st : fs_state (F := F))
    (p : nat) (ino : inode) (size offset : Z) :
  heap st !! p = Some ino ->
  0 <= length (data ino) < 2147483648 ->
  0 <= offset < 2147483648 ->
  in_int size ->
  in_int (offset + size) ->
  offset + size > length (data ino) ->
  mapped st (Some p) offset (length (data ino)) ->
  exists out st',
    inode_read_at (Some p) true size offset st
    = Done ((Z.max 0 (length (data ino) - offset), out), st')
    /\ after_reads st st'
    /\ List.length out = Z.to_nat (Z.max 0 (length (data ino) - offset))
    /\ forall k, 0 <= k < length (data ino) - offset ->
         out !! Z.to_nat k = file_byte st (Some p) (offset + k).
Proof.
  intros Hp Hlen Hoff Hsize Hsum Hbeyond Hmap. unfold in_int in *.
  unfold inode_read_at.
  rewrite (bind_done _ _ _ _ _ (deref_live p ino st Hp)).
  rewrite (int_add_id offset size) by (unfold in_int; lia).
  replace (offset + size >? length (data ino)) with true
    by (symmetry; apply Z.gtb_lt; lia).
  cbv zeta.
  rewrite (int_sub_id (offset + size)) by (unfold in_int; lia).
  rewrite (int_sub_id size) by (unfold in_int; lia).
  replace (size - (offset + size - length (data ino)))
    with (length (data ino) - offset) by lia.
  destruct (Z.ltb_spec (length (data ino) - offset) 0) as [Hneg|Hpos].
  - exists [], st. rewrite Z.max_l by lia.
    split; [reflexivity|]. split; [|split; [reflexivity|intros k Hk; lia]].
    exists []. split; [|reflexivity]. now rewrite app_nil_r, set_io_log_same.
  - destruct (read_loop_ok st p ino Hp Hlen (Z.to_nat (length (data ino) - offset))
                (length (data ino) - offset) offset 0 None [] (io_log st))
      as (out & l & Hrun & Hl & Hout & Hcontent); try lia.
    { replace (offset + (length (data ino) - offset)) with (length (data ino)) by lia.
      exact Hmap. }
    rewrite set_io_log_same in Hrun.
    exists out, (set_io_log (io_log st ++ l) st).
    rewrite Z.max_r by lia.
    split; [exact Hrun|]. split; [|split; assumption].
    exists l. split; [reflexivity | exact Hl].
Qed.

Lemma small_file_heap : heap small_file !! 0%nat = Some small_inode.
Proof. vm_compute. reflexivity. Qed.

Lemma small_file_mapped : mapped small_file (Some 0%nat) 100 700.
Proof.
  intros pos Hpos. destruct (Z.lt_ge_cases pos 512) as [Hlt|Hge].
  - exists 1, (take 512 (payload 700)).
    rewrite (sector_of_same_block (Some 0%nat) pos 0 small_file) by
      first [lia | rewrite (Z.div_small pos 512) by lia; reflexivity].
    repeat split; vm_compute; reflexivity.
  - exists 2, (drop 512 (payload 700) ++ replicate 324 170).
    rewrite (sector_of_same_block (Some 0%nat) pos 512 small_file) by
      first [lia
            | symmetry; apply (Z.div_unique pos 512 1 (pos - 512)); lia].
    repeat split; vm_compute; reflexivity.
Qed.

Lemma read_at_clamped_witness :
  exists out st',
    inode_read_at (Some 0%nat) true 1000 100 small_file = Done ((600, out), st')
    /\ after_reads small_file st'
    /\ List.length out = 600%nat
    /\ forall k, 0 <= k < 600 ->
         out !! Z.to_nat k = file_byte small_file (Some 0%nat) (100 + k).
Proof.
  apply (read_at_clamped small_file 0%nat small_inode 1000 100).
  - exact small_file_heap.
  - cbn. lia.
  - lia.
  - unfold in_int. lia.
  - unfold in_int. lia.
  - cbn. lia.
  - exact small_file_mapped.
Defined.

(** C3. A read inside the length of a file that the code itself has
    grown does not return.  An empty file is created and opened and one
    sector is written at offset 0: the write returns 512, and
    file_extension has wired one sector, [direct[0] = 1], and recorded
    the length 1024.  Every read of 2000 bytes that starts below that
    length comes to the second sector of the file, for which
    byte_to_sector returns the sentinel, and block_read of that address
    stops the kernel; the read does not return max (0, length - offset)
    bytes. *)
Theorem read_of_grown_file_panics (offset : Z) :
  0 <= offset < 1024 ->
  result (scenario_one_sector boot) = Some 512
  /\ heap grown_file !! 0%nat
     = Some {| sector := 0; open_cnt := 1; removed := false; deny_write_cnt := 0;
               data := set_length 1024
                         (set_direct (1 :: replicate 9 sentinel) empty_disk_inode) |}
  /\ inode_read_at (Some 0%nat) true 2000 offset grown_file = Fault DevicePanic.
Proof.
  intros Hoff.
  split; [vm_compute; reflexivity|]. split; [vm_compute; reflexivity|].
  assert (Hall : forallb (fun k =>
                   match inode_read_at (Some 0%nat) true 2000 (Z.of_nat k) grown_file with
                   | Fault DevicePanic => true
                   | _ => false
                   end) (seq 0 1024) = true) by (vm_compute; reflexivity).
  rewrite forallb_forall in Hall.
  specialize (Hall (Z.to_nat offset)). rewrite Z2Nat.id in Hall by lia.
  destruct (inode_read_at (Some 0%nat) true 2000 offset grown_file) as [r|f].
  - discriminate Hall. apply in_seq. lia.
  - destruct f; try (discriminate Hall; apply in_seq; lia). reflexivity.
Qed.

Lemma read_of_grown_file_panics_witness :
  inode_read_at (Some 0%nat) true 2000 100 grown_file = Fault DevicePanic.
Proof. apply (read_of_grown_file_panics 100). lia. Defined.

(** ** Worked scenarios (C1, C2, C6) *)

(** C1. file_extension does not zero-fill.  After the growth of a new
    file by one sector on a device whose free sectors hold the byte 170,
    the sector wired as direct[0] is sector 1 and a read of the first
    512 bytes of the file delivers 512 bytes of value 170, the residue
    of the device, where the claim requires zeros.  After the growth of
    the 700-byte file for a write at its end, the length is 1024 and the
    324 bytes behind the old end of the file read as the residue 170 of
    the last sector, where the claim requires a zero-filled tail. *)
Theorem growth_exposes_residue :
  result (scenario_growth boot)
  = Some ([1] ++ replicate 9 sentinel, 1024, (512, replicate 512 170))
  /\ result (scenario_tail boot700) = Some (1024, (324, replicate 324 170)).
Proof. split; vm_compute; reflexivity. Qed.

(** C2. The scenario of the specification on the code: the write of
    1300 bytes returns 1024, not 1300; the length becomes 2048, not
    1300; three sectors 1, 2, 3 are wired, and the third still holds the
    residue of the device instead of 276 bytes of data and 236 zeros;
    the read of 2000 bytes is not clamped to 1300 and stops the kernel
    on the sentinel in direct[3]. *)
Theorem scenario_1300_diverges :
  result (scenario_1300 boot)
  = Some (1024, 2048, [1; 2; 3] ++ replicate 7 sentinel, Some residue,
          inr DevicePanic).
Proof. vm_compute. reflexivity. Qed.

(** C6. A chunk that does not cover a whole sector is not written at
    all: after a whole-sector write of 512 bytes, the write of 100 bytes
    at offset 200 returns 0, makes no device transfer (no read of the
    target sector, no write back), and leaves the sector as the first
    write made it. *)
Theorem partial_chunk_not_written :
  result (scenario_partial boot) = Some (512, 0, [], Some (payload 512)).
Proof. vm_compute. reflexivity. Qed.

(** The write loop never writes a chunk that is not a whole sector: with
    bounce still NULL, as inode_write_at starts it, it stops at such a
    chunk with the count it had, after the reads of the translation
    only. *)
Lemma write_loop_partial_breaks {F : Type} `{FreeMap F} (st : fs_state (F := F))
    (p : nat) (ino : inode) (fuel : nat) (buffer : list Z)
    (size offset bytes_written s : Z) :
  heap st !! p = Some ino ->
  0 <= length (data ino) < 2147483648 ->
  0 <= offset -> 0 < size -> offset + size <= length (data ino) ->
  sector_of st (Some p) offset = Some s ->
  ~ (offset `mod` 512 = 0 /\ 512 <= size) ->
  exists st',
    write_loop (S fuel) (Some p) buffer size offset bytes_written None st
    = Done (bytes_written, st')
    /\ after_reads st st'.
Proof.
  intros Hp Hlen Hoff Hsize Hend Hs Hpart.
  destruct (byte_to_sector_relog _ _ _ _ Hs) as (l1 & Hl1 & Hbts).
  specialize (Hbts (io_log st)). rewrite set_io_log_same in Hbts.
  exists (set_io_log (io_log st ++ l1) st). split; [|now exists l1].
  cbn [write_loop].
  replace (size >? 0) with true by (symmetry; apply Z.gtb_lt; lia).
  rewrite (bind_done _ _ _ _ _ Hbts).
  rewrite (bind_done _ _ _ _ _ (inode_length_relog st p ino Hp _)).
  cbv zeta. unfold BLOCK_SECTOR_SIZE.
  rewrite (int_rem_nonneg offset 512) by lia.
  set (ofs := offset `mod` 512) in *.
  assert (Hofs : 0 <= ofs < 512) by (apply Z.mod_pos_bound; lia).
  rewrite (int_sub_id (length (data ino)) offset) by (unfold in_int; lia).
  rewrite (int_sub_id 512 ofs) by (unfold in_int; lia).
  set (chunk := if size <? _ then size else _).
  assert (Hchunk : chunk = Z.min size (512 - ofs)).
  { unfold chunk.
    destruct (Z.ltb_spec (length (data ino) - offset) (512 - ofs)) as [Hl|Hl];
      [destruct (Z.ltb_spec size (length (data ino) - offset))
      |destruct (Z.ltb_spec size (512 - ofs))]; lia. }
  clearbody chunk.
  replace (chunk <=? 0) with false by (symmetry; apply Z.leb_gt; lia).
  replace ((ofs =? 0) && (chunk =? 512)) with false; [reflexivity|].
  symmetry. apply andb_false_iff.
  destruct (Z.eq_dec ofs 0) as [Ho|Ho].
  - right. apply Z.eqb_neq. lia.
  - left. now apply Z.eqb_neq.
Qed.

(** When the malloc of the bounce buffer fails, inode_read_at stops at
    the first chunk that needs it: here it delivers nothing. *)
Example read_at_without_memory :
  result (scenario_no_memory boot700) = Some (0, []).
Proof. vm_compute. reflexivity. Qed.

(** With a bounce buffer in hand the test [sector_ofs > 0 & chunk_size <
    sector_left] skips the pre-read for a chunk at in-sector offset 0:
    the 100 bytes are written over a zeroed buffer, and the 412 bytes of
    the sector behind them are lost. *)
Example write_loop_bounce_skips_read :
  result (scenario_bounce boot700)
  = Some (100, [IoWrite 1], Some (replicate 100 255 ++ replicate 412 0)).
Proof. vm_compute. reflexivity. Qed.

(** * Further properties of the code *)

(** ** Sector images *)

Lemma rd32_le32 (v : Z) : rd32 (le32 v) = v `mod` 4294967296.
Proof.
  unfold rd32, le32. cbn. unfold id.
  Z.div_mod_to_equations. lia.
Qed.

Lemma words_le32 (n : nat) (w : Z) (rest : list Z) :
  words (S n) (le32 w ++ rest) = rd32 (le32 w) :: words n rest.
Proof. reflexivity. Qed.

Lemma words_bytes_of_words (ws : list Z) :
  words (List.length ws) (bytes_of_words ws) = map (fun w => w `mod` 4294967296) ws.
Proof.
  induction ws as [|w ws IH]; [reflexivity|].
  change (bytes_of_words (w :: ws)) with (le32 w ++ bytes_of_words ws).
  cbn [List.length map]. rewrite words_le32, rd32_le32, IH. reflexivity.
Qed.

Lemma map_mod_u32 (ws : list Z) :
  Forall is_u32 ws -> map (fun w => w `mod` 4294967296) ws = ws.
Proof.
  induction 1 as [|w ws Hw _ IH]; [reflexivity|].
  cbn [map]. rewrite IH. f_equal. unfold is_u32 in Hw.
  apply Z.mod_small. lia.
Qed.

Lemma length_bytes_of_words (ws : list Z) :
  List.length (bytes_of_words ws) = (4 * List.length ws)%nat.
Proof.
  induction ws as [|w ws IH]; [reflexivity|].
  unfold bytes_of_words in *. cbn [map concat].
  rewrite length_app, IH. cbn [List.length le32]. lia.
Qed.

Lemma to_int_mod (v : Z) : in_int v -> to_int (v `mod` 4294967296) = v.
Proof.
  unfold in_int, to_int. intros Hv.
  Z.div_mod_to_equations. lia.
Qed.

Lemma decode_encode_level (index : list Z) :
  List.length index = 128%nat -> Forall is_u32 index ->
  decode_level (encode_level index) = index.
Proof.
  intros Hlen Hall. unfold decode_level, encode_level.
  rewrite <- Hlen, words_bytes_of_words. now apply map_mod_u32.
Qed.

Lemma decode_encode_inode (d : inode_disk) :
  wf_disk d -> decode_inode (encode_inode d) = d.
Proof.
  intros (Hdl & Hd & Hs & Hdb & Hl & Hm & Hul & Hu).
  unfold decode_inode, encode_inode.
  set (mid := [single_level d; double_level d; length d; magic d]).
  assert (Hlen : List.length (direct d ++ mid ++ unused d) = 128%nat).
  { rewrite !length_app, Hdl, Hul. reflexivity. }
  rewrite <- Hlen, words_bytes_of_words, !map_app.
  rewrite (map_mod_u32 _ Hd), (map_mod_u32 _ Hu).
  unfold mid. cbn [map].
  unfold is_u32 in Hs, Hdb, Hm.
  rewrite (Z.mod_small (single_level d)), (Z.mod_small (double_level d)),
    (Z.mod_small (magic d)) by lia.
  rewrite <- Hdl at 1. rewrite take_app_length.
  rewrite (lookup_app_r (direct d) _ 10), (lookup_app_r (direct d) _ 11),
    (lookup_app_r (direct d) _ 12), (lookup_app_r (direct d) _ 13)
    by (rewrite Hdl; lia).
  rewrite Hdl. cbn [Nat.sub lookup list_lookup default from_option id app].
  rewrite (to_int_mod _ Hl).
  rewrite drop_app_ge by (rewrite Hdl; lia).
  rewrite Hdl. cbn [Nat.sub drop].
  destruct d; reflexivity.
Qed.

(** X1. The sector image of a descriptor whose fields fit their C
    types is exactly one sector long and decodes to the same
    descriptor: what block_write stores from a [struct inode_disk],
    block_read gives back, negative lengths included. *)
Theorem inode_disk_round_trip (d : inode_disk) :
  wf_disk d ->
  List.length (encode_inode d) = Z.to_nat BLOCK_SECTOR_SIZE
  /\ decode_inode (encode_inode d) = d.
Proof.
  intros Hwf. split; [|now apply decode_encode_inode].
  destruct Hwf as (Hdl & _ & _ & _ & _ & _ & Hul & _).
  unfold encode_inode. rewrite length_bytes_of_words, !length_app, Hdl, Hul.
  reflexivity.
Qed.

Lemma is_u32_sentinel : is_u32 sentinel.
Proof. unfold is_u32. rewrite sentinel_value. lia. Qed.

Lemma wf_disk_desc700 : wf_disk (set_length (-1) desc700).
Proof.
  unfold wf_disk. cbn [direct single_level double_level length magic unused
                         set_length desc700].
  split; [reflexivity|]. split.
  { apply Forall_app. split.
    - repeat (constructor; [unfold is_u32; lia|]). constructor.
    - apply Forall_replicate, is_u32_sentinel. }
  split; [apply is_u32_sentinel|]. split; [apply is_u32_sentinel|].
  split; [unfold in_int; lia|]. split; [unfold is_u32, INODE_MAGIC; lia|].
  split; [reflexivity|].
  apply Forall_replicate. unfold is_u32. lia.
Qed.

Lemma inode_disk_round_trip_witness :
  List.length (encode_inode (set_length (-1) desc700)) = Z.to_nat BLOCK_SECTOR_SIZE
  /\ decode_inode (encode_inode (set_length (-1) desc700)) = set_length (-1) desc700.
Proof. apply (inode_disk_round_trip (set_length (-1) desc700)). exact wf_disk_desc700. Defined.

(** X2. An index block of 128 sector pointers is stored as exactly one
    sector and read back unchanged, sentinel entries included. *)
Theorem index_block_round_trip (index : list Z) :
  List.length index = 128%nat ->
  Forall is_u32 index ->
  List.length (encode_level index) = Z.to_nat BLOCK_SECTOR_SIZE
  /\ decode_level (encode_level index) = index.
Proof.
  intros Hlen Hall. split; [|now apply decode_encode_level].
  unfold encode_level. rewrite length_bytes_of_words, Hlen. reflexivity.
Qed.

Lemma index_block_round_trip_witness :
  List.length (encode_level ([12; 13] ++ replicate 126 sentinel)) = Z.to_nat BLOCK_SECTOR_SIZE
  /\ decode_level (encode_level ([12; 13] ++ replicate 126 sentinel))
     = [12; 13] ++ replicate 126 sentinel.
Proof.
  apply (index_block_round_trip ([12; 13] ++ replicate 126 sentinel)).
  - reflexivity.
  - apply Forall_app. split.
    + repeat (constructor; [unfold is_u32; lia|]). constructor.
    + apply Forall_replicate, is_u32_sentinel.
Defined.

(** ** Sector counts *)

(** X3. For a size from 0 up to INT_MAX - 512 (so that no step of the
    macro overflows), bytes_to_sectors is the least number of sectors
    that hold [size] bytes. *)
Theorem bytes_to_sectors_least (size : Z) :
  0 <= size <= 2147483647 - 512 ->
  let n := bytes_to_sectors size in
  size <= n * BLOCK_SECTOR_SIZE < size + BLOCK_SECTOR_SIZE.
Proof.
  intros Hsize. unfold bytes_to_sectors, DIV_ROUND_UP, BLOCK_SECTOR_SIZE.
  rewrite (int_add_id size 512) by (unfold in_int; lia).
  rewrite (int_sub_id (size + 512) 1) by (unfold in_int; lia).
  rewrite int_div_nonneg by (unfold in_int; lia).
  unfold to_uint. cbv zeta.
  rewrite (Z.mod_small ((size + 512 - 1) / 512)).
  - Z.div_mod_to_equations. lia.
  - Z.div_mod_to_equations. lia.
Qed.

Lemma bytes_to_sectors_least_witness :
  1300 <= bytes_to_sectors 1300 * BLOCK_SECTOR_SIZE < 1300 + BLOCK_SECTOR_SIZE.
Proof. apply (bytes_to_sectors_least 1300). lia. Defined.

(** ** Creation and opening *)

Lemma decode_empty_disk_inode :
  decode_inode (encode_inode empty_disk_inode) = empty_disk_inode.
Proof. vm_compute. reflexivity. Qed.

(** X4. inode_create writes a descriptor of length 0 with every
    pointer slot at the sentinel whatever [length] it is given (no
    sector is allocated for the length asked for), and the first
    inode_open of that sector yields a new handle with open count 1,
    not removed, writes allowed, caching exactly that descriptor.  The
    two calls make one device write and one device read, both of the
    descriptor sector. *)
Theorem create_then_open {F : Type} `{FreeMap F} (st : fs_state (F := F))
    (s len : Z) (old : list Z) :
  registry_wf st ->
  not_open st s ->
  fs_device st !! s = Some old ->
  0 <= len ->
  exists p,
    heap st !! p = None
    /\ (inode_create true s len ;;; inode_open true s) st
       = Done (Some p,
               {| fs_device := <[s := encode_inode empty_disk_inode]> (fs_device st);
                  free_map := free_map st;
                  open_inodes := p :: open_inodes st;
                  heap := <[p := mk_inode s 1 false 0 empty_disk_inode]> (heap st);
                  io_log := io_log st ++ [IoWrite s; IoRead s] |}).
Proof.
  intros Hwf Hno Hold Hlen.
  set (st1 := set_io_log (io_log st ++ [IoWrite s])
                (set_device (<[s := encode_inode empty_disk_inode]> (fs_device st)) st)).
  assert (Hcreate : inode_create true s len st = Done (true, st1)).
  { unfold inode_create.
    replace (len <? 0) with false by (symmetry; apply Z.ltb_ge; lia).
    unfold bind, block_write. rewrite Hold. reflexivity. }
  destruct (inode_open_first s (encode_inode empty_disk_inode) st1) as [Hfresh Hopen].
  - exact Hwf.
  - exact Hno.
  - unfold st1; cbn. apply lookup_insert_eq.
  - exists (fresh (dom (heap st))). split; [exact Hfresh|].
    rewrite (bind_done _ _ _ _ _ Hcreate), Hopen.
    rewrite decode_empty_disk_inode. unfold st1; cbn.
    now rewrite <- app_assoc.
Qed.

Lemma create_then_open_witness :
  exists p,
    heap boot !! p = None
    /\ (inode_create true 0 4096 ;;; inode_open true 0) boot
       = Done (Some p,
               {| fs_device := <[0 := encode_inode empty_disk_inode]> (fs_device boot);
                  free_map := free_map boot;
                  open_inodes := p :: open_inodes boot;
                  heap := <[p := mk_inode 0 1 false 0 empty_disk_inode]> (heap boot);
                  io_log := io_log boot ++ [IoWrite 0; IoRead 0] |}).
Proof.
  apply (create_then_open boot 0 4096 residue).
  - exact registry_wf_boot.
  - intros q i Hq. cbn in Hq. rewrite lookup_empty in Hq. discriminate.
  - reflexivity.
  - lia.
Defined.

(** X5. When malloc fails, the open of a sector that has no handle
    returns a null pointer and leaves the state as it was: nothing is
    registered and the device is not read. *)
Theorem open_without_memory {F : Type} `{FreeMap F} (st : fs_state (F := F)) (s : Z) :
  registry_wf st ->
  not_open st s ->
  inode_open false s st = Done (None, st).
Proof.
  intros Hwf Hno. pose proof Hwf as (Hnd & Hiff & Hinj).
  unfold inode_open.
  destruct (find_open_spec (open_inodes st) s st) as (r & Hrun & Hr).
  { intros q Hq. now apply Hiff. }
  rewrite (bind_done _ _ _ _ _ Hrun).
  destruct r as [q|]; [|reflexivity].
  destruct Hr as (_ & iq & Hq & Hs). exfalso. now apply (Hno q iq).
Qed.

Lemma open_without_memory_witness : inode_open false 0 boot = Done (None, boot).
Proof.
  apply (open_without_memory boot 0).
  - exact registry_wf_boot.
  - intros q i Hq. cbn in Hq. rewrite lookup_empty in Hq. discriminate.
Defined.

Lemma find_open_inv {F : Type} `{FreeMap F} (l : list nat) (s : Z)
    (st st' : fs_state (F := F)) (r : option nat) :
  find_open l s st = Done (r, st') ->
  st' = st
  /\ forall e, r = Some e -> exists ino, heap st !! e = Some ino /\ sector ino = s.
Proof.
  induction l as [|e l IH]; cbn [find_open].
  - intros Hr. injection Hr as <- <-. split; [reflexivity|]. discriminate.
  - intros Hr. apply bind_inv in Hr as (ino & st1 & Hderef & Hr).
    unfold deref in Hderef.
    destruct (heap st !! e) as [i|] eqn:He; [|discriminate].
    injection Hderef as Hi Hs. subst i st1.
    destruct (sector ino =? s) eqn:E.
    + injection Hr as <- <-. split; [reflexivity|].
      intros e' He'. injection He' as <-. exists ino. split; [exact He|].
      now apply Z.eqb_eq.
    + now apply IH.
Qed.

(** X6. Whatever the state, a handle that inode_open returns for
    sector [s] is live and describes [s]: inode_get_inumber gives back
    [s] for it. *)
Theorem open_handle_inumber {F : Type} `{FreeMap F} (st st' : fs_state (F := F))
    (b : bool) (s : Z) (p : nat) :
  inode_open b s st = Done (Some p, st') ->
  inode_get_inumber (Some p) st' = Done (s, st').
Proof.
  intros Hrun.
  assert (Hlive : exists ino, heap st' !! p = Some ino /\ sector ino = s).
  { unfold inode_open in Hrun.
    apply bind_inv in Hrun as (r & st1 & Hfind & Hrun).
    apply find_open_inv in Hfind as [-> Hfound].
    destruct r as [e|].
    - destruct (Hfound e eq_refl) as (ino & He & Hs).
      unfold inode_reopen in Hrun.
      rewrite (bind_done _ _ _ _ _ (deref_live e ino st He)) in Hrun.
      rewrite (bind_done _ _ _ _ _ (store_live e ino _ st He)) in Hrun.
      injection Hrun as <- <-. eexists. split; [apply lookup_insert_eq | exact Hs].
    - destruct b; [|discriminate].
      revert Hrun.
      unfold bind, malloc_inode, list_push_front, store, block_read, deref, ret; cbn.
      rewrite lookup_insert_eq. cbn.
      destruct (fs_device st !! s) as [d|]; [|discriminate]. cbn.
      rewrite lookup_insert_eq. cbn. rewrite lookup_insert_eq.
      intros Hrun. injection Hrun as <- <-. cbn.
      eexists. split; [apply lookup_insert_eq | reflexivity]. }
  destruct Hlive as (ino & Hp & Hs).
  unfold inode_get_inumber.
  rewrite (bind_done _ _ _ _ _ (deref_live p ino st' Hp)). now rewrite Hs.
Qed.

Lemma open_handle_inumber_witness :
  exists st', inode_open true 0 shared = Done (Some 0%nat, st')
    /\ inode_get_inumber (Some 0%nat) st' = Done (0, st').
Proof.
  eexists. split; [vm_compute; reflexivity|].
  apply (open_handle_inumber shared _ true 0 0%nat). vm_compute. reflexivity.
Defined.

(** ** Counts on a handle *)

Section HandleCounts.

Context {F : Type} `{FreeMap F}.

Lemma state_restore (p : nat) (ino x : inode) (st : fs_state (F := F)) :
  heap st !! p = Some ino ->
  set_heap (<[p := ino]> (heap (set_heap (<[p := x]> (heap st)) st)))
    (set_heap (<[p := x]> (heap st)) st)
  = st.
Proof.
  intros Hp. cbn [heap set_heap].
  rewrite insert_insert_eq, (insert_id _ _ _ Hp).
  destruct st; reflexivity.
Qed.

Lemma inode_reopen_live (p : nat) (ino : inode) (st : fs_state (F := F)) :
  heap st !! p = Some ino ->
  inode_reopen (Some p) st
  = Done (Some p, set_heap (<[p := set_open_cnt (open_cnt ino +i 1) ino]> (heap st)) st).
Proof.
  intros Hp. unfold inode_reopen.
  rewrite (bind_done _ _ _ _ _ (deref_live p ino st Hp)).
  rewrite (bind_done _ _ _ _ _ (store_live p ino _ st Hp)).
  reflexivity.
Qed.

Lemma inode_deny_write_ok (p : nat) (ino : inode) (st : fs_state (F := F)) :
  heap st !! p = Some ino ->
  deny_write_cnt ino < open_cnt ino < 2147483648 ->
  -2147483648 <= deny_write_cnt ino ->
  inode_deny_write (Some p) st
  = Done (tt, set_heap (<[p := set_deny_write_cnt (deny_write_cnt ino + 1) ino]> (heap st)) st).
Proof.
  intros Hp Hcnt Hlo. unfold inode_deny_write.
  rewrite (bind_done _ _ _ _ _ (deref_live p ino st Hp)).
  rewrite int_add_id by (unfold in_int; lia). cbv zeta.
  rewrite (bind_done _ _ _ _ _ (store_live p ino _ st Hp)).
  cbn [deny_write_cnt open_cnt set_deny_write_cnt].
  replace (deny_write_cnt ino + 1 <=? open_cnt ino) with true
    by (symmetry; apply Z.leb_le; lia).
  reflexivity.
Qed.

Lemma inode_allow_write_ok (p : nat) (ino : inode) (st : fs_state (F := F)) :
  heap st !! p = Some ino ->
  0 < deny_write_cnt ino <= open_cnt ino ->
  open_cnt ino < 2147483648 ->
  inode_allow_write (Some p) st
  = Done (tt, set_heap (<[p := set_deny_write_cnt (deny_write_cnt ino - 1) ino]> (heap st)) st).
Proof.
  intros Hp Hcnt Hhi. unfold inode_allow_write.
  rewrite (bind_done _ _ _ _ _ (deref_live p ino st Hp)).
  replace (deny_write_cnt ino >? 0) with true by (symmetry; apply Z.gtb_lt; lia).
  replace (deny_write_cnt ino <=? open_cnt ino) with true
    by (symmetry; apply Z.leb_le; lia).
  cbn [negb]. rewrite int_sub_id by (unfold in_int; lia).
  now apply store_live with (old := ino).
Qed.

End HandleCounts.

(** X7. inode_reopen followed by inode_close on a handle that is open
    leaves the whole state exactly as it was: the count goes up and
    comes down again, the handle stays registered, nothing is released
    and the device is not touched. *)
Theorem reopen_close_round_trip {F : Type} `{FreeMap F} (st : fs_state (F := F))
    (p : nat) (ino : inode) :
  heap st !! p = Some ino ->
  0 < open_cnt ino < 2147483647 ->
  (inode_reopen (Some p) ;;; inode_close (Some p)) st = Done (tt, st).
Proof.
  intros Hp Hcnt.
  rewrite (bind_done _ _ _ _ _ (inode_reopen_live p ino st Hp)).
  rewrite int_add_id by (unfold in_int; lia).
  set (ino1 := set_open_cnt (open_cnt ino + 1) ino).
  rewrite (inode_close_shared p ino1).
  - replace (set_open_cnt (open_cnt ino1 - 1) ino1) with ino.
    + now rewrite state_restore.
    + unfold ino1, set_open_cnt; cbn. destruct ino; cbn. f_equal. lia.
  - cbn. apply lookup_insert_eq.
  - unfold ino1; cbn. lia.
Qed.

Lemma reopen_close_round_trip_witness :
  (inode_reopen (Some 0%nat) ;;; inode_close (Some 0%nat)) shared = Done (tt, shared).
Proof.
  apply (reopen_close_round_trip shared 0%nat shared_inode).
  - reflexivity.
  - cbn. lia.
Defined.

(** X8. inode_deny_write followed by inode_allow_write, by an opener of
    a handle on which fewer openers than all have denied writes, leaves
    the whole state exactly as it was. *)
Theorem deny_allow_round_trip {F : Type} `{FreeMap F} (st : fs_state (F := F))
    (p : nat) (ino : inode) :
  heap st !! p = Some ino ->
  0 <= deny_write_cnt ino < open_cnt ino ->
  open_cnt ino < 2147483648 ->
  (inode_deny_write (Some p) ;;; inode_allow_write (Some p)) st = Done (tt, st).
Proof.
  intros Hp Hcnt Hhi.
  rewrite (bind_done _ _ _ _ _ (inode_deny_write_ok p ino st Hp ltac:(lia) ltac:(lia))).
  set (ino1 := set_deny_write_cnt (deny_write_cnt ino + 1) ino).
  rewrite (inode_allow_write_ok p ino1).
  - replace (set_deny_write_cnt (deny_write_cnt ino1 - 1) ino1) with ino.
    + now rewrite state_restore.
    + unfold ino1, set_deny_write_cnt; cbn. destruct ino; cbn. f_equal. lia.
  - cbn. apply lookup_insert_eq.
  - unfold ino1; cbn. lia.
  - unfold ino1; cbn. lia.
Qed.

Lemma deny_allow_round_trip_witness :
  (inode_deny_write (Some 0%nat) ;;; inode_allow_write (Some 0%nat)) guarded
  = Done (tt, guarded).
Proof.
  apply (deny_allow_round_trip guarded 0%nat guarded_inode).
  - reflexivity.
  - cbn. lia.
  - cbn. lia.
Defined.

(** X9. After an inode_deny_write that returns, every inode_write_at
    on the handle returns 0, whatever buffer, size and offset it is
    given, and changes nothing: the file cannot grow and no sector is
    written while the denial stands. *)
Theorem deny_write_blocks_write {F : Type} `{FreeMap F} (st : fs_state (F := F))
    (p : nat) (ino : inode) (buffer : list Z) (size offset : Z) :
  heap st !! p = Some ino ->
  0 <= deny_write_cnt ino < open_cnt ino ->
  open_cnt ino < 2147483648 ->
  exists st1,
    inode_deny_write (Some p) st = Done (tt, st1)
    /\ fs_device st1 = fs_device st
    /\ io_log st1 = io_log st
    /\ inode_write_at (Some p) buffer size offset st1 = Done (0, st1).
Proof.
  intros Hp Hcnt Hhi.
  eexists. split; [apply (inode_deny_write_ok p ino st Hp); lia|].
  split; [reflexivity|]. split; [reflexivity|].
  unfold inode_write_at.
  rewrite (bind_done _ _ _ _ _
             (deref_live p (set_deny_write_cnt (deny_write_cnt ino + 1) ino) _
                (lookup_insert_eq _ _ _))).
  cbn [deny_write_cnt set_deny_write_cnt].
  replace (deny_write_cnt ino + 1 =? 0) with false by (symmetry; apply Z.eqb_neq; lia).
  reflexivity.
Qed.

Lemma deny_write_blocks_write_witness :
  exists st1,
    inode_deny_write (Some 0%nat) shared = Done (tt, st1)
    /\ fs_device st1 = fs_device shared
    /\ io_log st1 = io_log shared
    /\ inode_write_at (Some 0%nat) (payload 512) 512 0 st1 = Done (0, st1).
Proof.
  apply (deny_write_blocks_write shared 0%nat shared_inode (payload 512) 512 0).
  - reflexivity.
  - cbn. lia.
  - cbn. lia.
Defined.

(** X10. The assertions of inode_deny_write and inode_allow_write keep
    the deny count between 0 and the open count: on a handle whose
    count is in that range, a denial by more openers than there are
    stops on the assertion, so does a permission nobody is waiting
    for, and whenever either call returns the count is in the range
    again and the open count is what it was. *)
Theorem deny_count_within_open_count {F : Type} `{FreeMap F} (st : fs_state (F := F))
    (p : nat) (ino : inode) :
  heap st !! p = Some ino ->
  0 <= deny_write_cnt ino <= open_cnt ino ->
  open_cnt ino < 2147483647 ->
  (deny_write_cnt ino = open_cnt ino ->
     inode_deny_write (Some p) st = Fault AssertFail)
  /\ (deny_write_cnt ino = 0 ->
        inode_allow_write (Some p) st = Fault AssertFail)
  /\ (forall st' (allow : bool),
        (if allow then inode_allow_write (Some p) else inode_deny_write (Some p)) st
        = Done (tt, st') ->
        exists ino', heap st' !! p = Some ino'
          /\ 0 <= deny_write_cnt ino' <= open_cnt ino'
          /\ open_cnt ino' = open_cnt ino).
Proof.
  intros Hp Hcnt Hhi. split; [|split].
  - intros Heq. unfold inode_deny_write.
    rewrite (bind_done _ _ _ _ _ (deref_live p ino st Hp)).
    rewrite int_add_id by (unfold in_int; lia). cbv zeta.
    rewrite (bind_done _ _ _ _ _ (store_live p ino _ st Hp)).
    cbn [deny_write_cnt open_cnt set_deny_write_cnt].
    replace (deny_write_cnt ino + 1 <=? open_cnt ino) with false
      by (symmetry; apply Z.leb_gt; lia).
    reflexivity.
  - intros Heq. unfold inode_allow_write.
    rewrite (bind_done _ _ _ _ _ (deref_live p ino st Hp)).
    rewrite Heq. reflexivity.
  - intros st' [|] Hrun.
    2:{ destruct (Z.eq_dec (deny_write_cnt ino) (open_cnt ino)) as [Heq|Hne].
      * exfalso. revert Hrun. unfold inode_deny_write.
        rewrite (bind_done _ _ _ _ _ (deref_live p ino st Hp)).
        rewrite int_add_id by (unfold in_int; lia). cbv zeta.
        rewrite (bind_done _ _ _ _ _ (store_live p ino _ st Hp)).
        cbn [deny_write_cnt open_cnt set_deny_write_cnt].
        replace (deny_write_cnt ino + 1 <=? open_cnt ino) with false
          by (symmetry; apply Z.leb_gt; lia).
        discriminate.
      * rewrite (inode_deny_write_ok p ino st Hp) in Hrun by lia.
        injection Hrun as <-. eexists. split; [apply lookup_insert_eq|].
        cbn. lia. }
    { destruct (Z.eq_dec (deny_write_cnt ino) 0) as [Heq|Hne].
      * exfalso. revert Hrun. unfold inode_allow_write.
        rewrite (bind_done _ _ _ _ _ (deref_live p ino st Hp)).
        rewrite Heq. discriminate.
      * rewrite (inode_allow_write_ok p ino st Hp) in Hrun by lia.
        injection Hrun as <-. eexists. split; [apply lookup_insert_eq|].
        cbn. lia. }
Qed.

Lemma deny_count_within_open_count_witness :
  inode_allow_write (Some 0%nat) shared = Fault AssertFail.
Proof.
  destruct (deny_count_within_open_count shared 0%nat shared_inode)
    as (_ & Hallow & _).
  - reflexivity.
  - cbn. lia.
  - cbn. lia.
  - apply Hallow. reflexivity.
Defined.

(** ** What an operation leaves alone *)

Section Frames.

Context {F : Type} `{FreeMap F}.
Context {X : Type} (proj : fs_state (F := F) -> X).

Lemma keeps_ret {A} (a : A) : keeps proj (ret a).
Proof. intros st a' st' Hr. injection Hr as _ <-. reflexivity. Qed.

Lemma keeps_fail {A} (f : fault) : keeps proj (fail (A := A) f).
Proof. intros st a st' Hr. discriminate. Qed.

Lemma keeps_bind {A B} (m : M (F := F) A) (k : A -> M B) :
  keeps proj m -> (forall a, keeps proj (k a)) -> keeps proj (bind m k).
Proof.
  intros Hm Hk st b st2 Hrun.
  apply bind_inv in Hrun as (a & st1 & H1 & H2).
  rewrite (Hk _ _ _ _ H2). exact (Hm _ _ _ H1).
Qed.

Lemma keeps_block_read (s : Z) : log_free proj -> keeps proj (block_read s).
Proof.
  intros Hlog st a st'. unfold block_read.
  destruct (fs_device st !! s); [|discriminate].
  intros Hr. injection Hr as _ <-. apply Hlog.
Qed.

Lemma keeps_block_write (s : Z) (d : list Z) :
  log_free proj -> device_free proj -> keeps proj (block_write s d).
Proof.
  intros Hlog Hdev st a st'. unfold block_write.
  destruct (fs_device st !! s); [|discriminate].
  intros Hr. injection Hr as _ <-.
  etransitivity; [apply Hlog | apply Hdev].
Qed.

Lemma keeps_array_get (a : list Z) (i : Z) : keeps proj (array_get a i).
Proof.
  unfold array_get.
  destruct ((i <? 0) || (Z.of_nat (List.length a) <=? i)); [apply keeps_fail|].
  destruct (a !! Z.to_nat i); [apply keeps_ret | apply keeps_fail].
Qed.

Lemma keeps_slice (b : list Z) (ofs n : Z) : keeps proj (slice b ofs n).
Proof.
  unfold slice.
  destruct ((ofs <? 0) || (n <? 0) || (Z.of_nat (List.length b) <? ofs + n));
    [apply keeps_fail | apply keeps_ret].
Qed.

Lemma keeps_deref (h : option nat) : keeps proj (deref h).
Proof.
  intros st a st'. unfold deref. destruct h as [p|]; [|discriminate].
  destruct (heap st !! p); [|discriminate].
  intros Hr. injection Hr as _ <-. reflexivity.
Qed.

Lemma keeps_store (p : nat) (i : inode) : heap_free proj -> keeps proj (store p i).
Proof.
  intros Hheap st a st'. unfold store.
  destruct (heap st !! p); [|discriminate].
  intros Hr. injection Hr as _ <-. apply Hheap.
Qed.

Lemma keeps_malloc_inode : heap_free proj -> keeps proj malloc_inode.
Proof. intros Hheap st a st' Hr. injection Hr as _ <-. apply Hheap. Qed.

Lemma keeps_free_inode (p : nat) : heap_free proj -> keeps proj (free_inode p).
Proof.
  intros Hheap st a st'. unfold free_inode.
  destruct (heap st !! p); [|discriminate].
  intros Hr. injection Hr as _ <-. apply Hheap.
Qed.

Lemma keeps_list_push_front (p : nat) : registry_free proj -> keeps proj (list_push_front p).
Proof. intros Hreg st a st' Hr. injection Hr as _ <-. apply Hreg. Qed.

Lemma keeps_list_remove (p : nat) : registry_free proj -> keeps proj (list_remove p).
Proof. intros Hreg st a st' Hr. injection Hr as _ <-. apply Hreg. Qed.

Lemma keeps_fm_allocate (cnt : Z) : allocator_free proj -> keeps proj (fm_allocate cnt).
Proof.
  intros Hfm st a st'. unfold fm_allocate.
  destruct (free_map_allocate cnt (free_map st)) as [[s f]|].
  - intros Hr. injection Hr as _ <-. apply Hfm.
  - intros Hr. injection Hr as _ <-. reflexivity.
Qed.

Lemma keeps_fm_release (s cnt : Z) : allocator_free proj -> keeps proj (fm_release s cnt).
Proof. intros Hfm st a st' Hr. injection Hr as _ <-. apply Hfm. Qed.

End Frames.

Ltac keeps_step :=
  lazymatch goal with
  | |- keeps _ (bind _ _) => apply keeps_bind; [|intros ?]
  | |- keeps _ (ret _) => apply keeps_ret
  | |- keeps _ (fail _) => apply keeps_fail
  | |- keeps _ (block_read _) => apply keeps_block_read; assumption
  | |- keeps _ (block_write _ _) => apply keeps_block_write; assumption
  | |- keeps _ (array_get _ _) => apply keeps_array_get
  | |- keeps _ (slice _ _ _) => apply keeps_slice
  | |- keeps _ (deref _) => apply keeps_deref
  | |- keeps _ (store _ _) => apply keeps_store; assumption
  | |- keeps _ malloc_inode => apply keeps_malloc_inode; assumption
  | |- keeps _ (free_inode _) => apply keeps_free_inode; assumption
  | |- keeps _ (list_push_front _) => apply keeps_list_push_front; assumption
  | |- keeps _ (list_remove _) => apply keeps_list_remove; assumption
  | |- keeps _ (fm_allocate _) => apply keeps_fm_allocate; assumption
  | |- keeps _ (fm_release _ _) => apply keeps_fm_release; assumption
  | |- keeps _ (through _) => unfold through
  | |- keeps _ (match ?x with _ => _ end) => destruct x
  | |- keeps _ (let _ := _ in _) => cbv zeta
  end.

Ltac keeps_auto := repeat first [keeps_step | solve [auto]].

Section FrameOfFunctions.

Context {F : Type} `{FreeMap F}.
Context {X : Type} (proj : fs_state (F := F) -> X).

Lemma keeps_byte_to_sector (h : option nat) (pos : Z) :
  log_free proj -> keeps proj (byte_to_sector h pos).
Proof. intros Hlog. unfold byte_to_sector. keeps_auto. Qed.

Lemma keeps_inode_length (h : option nat) : keeps proj (inode_length h).
Proof. unfold inode_length. keeps_auto. Qed.

Lemma keeps_read_loop (fuel : nat) :
  log_free proj ->
  forall h ok size offset br bounce buffer,
    keeps proj (read_loop fuel h ok size offset br bounce buffer).
Proof.
  intros Hlog. induction fuel as [|fuel IH]; intros; cbn [read_loop].
  - apply keeps_ret.
  - pose proof (keeps_byte_to_sector h offset Hlog).
    pose proof (keeps_inode_length h).
    keeps_auto.
Qed.

Lemma keeps_inode_read_at (h : option nat) (ok : bool) (size offset : Z) :
  log_free proj -> keeps proj (inode_read_at h ok size offset).
Proof.
  intros Hlog. unfold inode_read_at.
  pose proof (keeps_read_loop) as Hloop.
  keeps_auto; apply Hloop; assumption.
Qed.

Lemma keeps_write_loop (fuel : nat) :
  log_free proj -> device_free proj ->
  forall h buffer size offset bw bounce,
    keeps proj (write_loop fuel h buffer size offset bw bounce).
Proof.
  intros Hlog Hdev. induction fuel as [|fuel IH]; intros; cbn [write_loop].
  - apply keeps_ret.
  - pose proof (keeps_byte_to_sector h offset Hlog).
    pose proof (keeps_inode_length h).
    keeps_auto.
Qed.

Lemma keeps_alloc_run (n : nat) :
  allocator_free proj -> forall slist, keeps proj (alloc_run n slist).
Proof.
  intros Hfm. induction n as [|n IH]; intros; cbn [alloc_run]; keeps_auto.
Qed.

Lemma keeps_fill_run (slist a : list Z) :
  forall iter, keeps proj (fill_run slist a iter).
Proof.
  induction a as [|x a IH]; intros; cbn [fill_run]; keeps_auto.
Qed.

Lemma keeps_alloc_index (index : option Z) :
  allocator_free proj -> keeps proj (alloc_index index).
Proof. intros Hfm. unfold alloc_index. keeps_auto. Qed.

Lemma keeps_use_index (index : option Z) : keeps proj (use_index index).
Proof. unfold use_index. keeps_auto. Qed.

Lemma keeps_double_run (ok : bool) (slist : list Z) (n : nat) :
  log_free proj -> device_free proj -> allocator_free proj ->
  forall i level2_1 level2_2 index iter,
    keeps proj (double_run ok slist n i level2_1 level2_2 index iter).
Proof.
  intros Hlog Hdev Hfm. induction n as [|n IH]; intros; cbn [double_run].
  - apply keeps_ret.
  - pose proof (keeps_fill_run slist) as Hfill.
    pose proof (keeps_alloc_index) as Hai.
    pose proof (keeps_use_index) as Hui.
    keeps_auto.
Qed.

Lemma keeps_wire (mem : ext_memory) (slist : list Z) (d : inode_disk) :
  log_free proj -> device_free proj -> allocator_free proj ->
  keeps proj (wire mem slist d).
Proof.
  intros Hlog Hdev Hfm. unfold wire.
  pose proof (keeps_fill_run slist) as Hfill.
  pose proof (keeps_alloc_index) as Hai.
  pose proof (keeps_use_index) as Hui.
  pose proof (keeps_double_run (level2_2_ok mem) slist 128 Hlog Hdev Hfm) as Hdr.
  keeps_auto.
Qed.

Lemma keeps_file_extension_with (mem : ext_memory) (h : option nat)
    (size offset : Z) :
  log_free proj -> device_free proj -> allocator_free proj -> heap_free proj ->
  keeps proj (file_extension_with mem h size offset).
Proof.
  intros Hlog Hdev Hfm Hheap. unfold file_extension_with.
  pose proof (keeps_alloc_run) as Har.
  pose proof (keeps_byte_to_sector) as Hbts.
  pose proof (keeps_wire mem) as Hw.
  keeps_auto.
Qed.

Lemma keeps_file_extension (h : option nat) (size offset : Z) :
  log_free proj -> device_free proj -> allocator_free proj -> heap_free proj ->
  keeps proj (file_extension h size offset).
Proof. apply keeps_file_extension_with. Qed.

Lemma keeps_inode_write_at (h : option nat) (buffer : list Z) (size offset : Z) :
  log_free proj -> device_free proj -> allocator_free proj -> heap_free proj ->
  keeps proj (inode_write_at h buffer size offset).
Proof.
  intros Hlog Hdev Hfm Hheap. unfold inode_write_at.
  pose proof (keeps_file_extension) as Hfe.
  pose proof (keeps_write_loop) as Hwl.
  keeps_auto; apply Hwl; assumption.
Qed.

Lemma keeps_release_run (a : list Z) :
  allocator_free proj -> keeps proj (release_run a).
Proof. intros Hfm. induction a as [|s a IH]; cbn [release_run]; keeps_auto. Qed.

Lemma keeps_release_double (outer : list Z) :
  log_free proj -> allocator_free proj -> keeps proj (release_double outer).
Proof.
  intros Hlog Hfm. pose proof (keeps_release_run) as Hrr.
  induction outer as [|s outer IH]; cbn [release_double]; keeps_auto.
Qed.

Lemma keeps_reclaim (ino : inode) :
  log_free proj -> allocator_free proj -> keeps proj (reclaim ino).
Proof.
  intros Hlog Hfm. unfold reclaim.
  pose proof (keeps_release_run) as Hrr.
  pose proof (keeps_release_double) as Hrd.
  keeps_auto.
Qed.

Lemma keeps_inode_close (h : option nat) :
  log_free proj -> allocator_free proj -> heap_free proj -> registry_free proj ->
  keeps proj (inode_close h).
Proof.
  intros Hlog Hfm Hheap Hreg. unfold inode_close.
  pose proof (keeps_reclaim) as Hrc.
  keeps_auto.
Qed.

Lemma keeps_find_open (l : list nat) (s : Z) : keeps proj (find_open l s).
Proof. induction l as [|e l IH]; cbn [find_open]; keeps_auto. Qed.

Lemma keeps_inode_reopen (h : option nat) :
  heap_free proj -> keeps proj (inode_reopen h).
Proof. intros Hheap. unfold inode_reopen. keeps_auto. Qed.

Lemma keeps_inode_open (ok : bool) (s : Z) :
  log_free proj -> heap_free proj -> registry_free proj ->
  keeps proj (inode_open ok s).
Proof.
  intros Hlog Hheap Hreg st a st'. unfold inode_open.
  revert st a st'. change (keeps proj (fun st =>
    bind (find_open (open_inodes st) s) (fun found =>
      match found with
      | Some e => inode_reopen (Some e)
      | None =>
          if ok then
            bind malloc_inode (fun p =>
              bind (list_push_front p) (fun _ =>
                bind (store p {| sector := s; open_cnt := 1; removed := false;
                                 deny_write_cnt := 0; data := data blank_inode |})
                  (fun _ => bind (block_read s) (fun d =>
                     bind (deref (Some p)) (fun ino =>
                       bind (store p (set_data (decode_inode d) ino))
                         (fun _ => ret (Some p)))))))
          else ret None
      end) st)).
  intros st a st' Hrun.
  pose proof (keeps_find_open) as Hfo.
  pose proof (keeps_inode_reopen) as Hro.
  revert Hrun. generalize (open_inodes st). intros l.
  revert st a st'.
  change (keeps proj (bind (find_open l s) (fun found =>
      match found with
      | Some e => inode_reopen (Some e)
      | None =>
          if ok then
            bind malloc_inode (fun p =>
              bind (list_push_front p) (fun _ =>
                bind (store p {| sector := s; open_cnt := 1; removed := false;
                                 deny_write_cnt := 0; data := data blank_inode |})
                  (fun _ => bind (block_read s) (fun d =>
                     bind (deref (Some p)) (fun ino =>
                       bind (store p (set_data (decode_inode d) ino))
                         (fun _ => ret (Some p)))))))
          else ret None
      end))).
  keeps_auto.
Qed.

End FrameOfFunctions.

Create HintDb frames.

#[local] Hint Resolve keeps_byte_to_sector keeps_inode_length keeps_inode_read_at
  keeps_inode_write_at keeps_file_extension keeps_inode_close keeps_inode_open
  keeps_inode_reopen keeps_reclaim : frames.

Ltac frame_facts :=
  try (assert (log_free (F := _) fs_device) by (intros ? ?; reflexivity));
  try (assert (allocator_free (F := _) fs_device) by (intros ? ?; reflexivity));
  try (assert (heap_free (F := _) fs_device) by (intros ? ?; reflexivity));
  try (assert (registry_free (F := _) fs_device) by (intros ? ?; reflexivity));
  try (assert (log_free (F := _) free_map) by (intros ? ?; reflexivity));
  try (assert (device_free (F := _) free_map) by (intros ? ?; reflexivity));
  try (assert (heap_free (F := _) free_map) by (intros ? ?; reflexivity));
  try (assert (registry_free (F := _) free_map) by (intros ? ?; reflexivity));
  try (assert (log_free (F := _) open_inodes) by (intros ? ?; reflexivity));
  try (assert (device_free (F := _) open_inodes) by (intros ? ?; reflexivity));
  try (assert (allocator_free (F := _) open_inodes) by (intros ? ?; reflexivity));
  try (assert (heap_free (F := _) open_inodes) by (intros ? ?; reflexivity)).

Ltac frame_auto :=
  repeat first [keeps_step | solve [auto with frames]].

Section Footprint.

Context {F : Type} `{FreeMap F}.

Lemma calls_keep_device (c : call) :
  writes_device c = false -> keeps (F := F) fs_device (run_call c).
Proof.
  intros Hc. frame_facts.
  destruct c; try discriminate; cbn [run_call];
    unfold inode_get_inumber, inode_remove, inode_deny_write, inode_allow_write,
      inode_deny_cnt;
    frame_auto.
Qed.

Lemma calls_keep_allocator (c : call) :
  uses_allocator c = false -> keeps (F := F) free_map (run_call c).
Proof.
  intros Hc. frame_facts.
  destruct c; try discriminate; cbn [run_call];
    unfold inode_create, inode_get_inumber, inode_remove, inode_deny_write,
      inode_allow_write, inode_deny_cnt;
    frame_auto.
Qed.

Lemma calls_keep_registry_list (c : call) :
  changes_registry c = false -> keeps (F := F) open_inodes (run_call c).
Proof.
  intros Hc. frame_facts.
  destruct c; try discriminate; cbn [run_call];
    unfold inode_create, inode_get_inumber, inode_remove, inode_deny_write,
      inode_allow_write, inode_deny_cnt;
    frame_auto.
Qed.

End Footprint.

(** X11. The footprint of the interface.  Whatever the state and the
    arguments, a call that returns has changed a sector of the device
    only if it is inode_create or inode_write_at (inode_close, despite
    its header comment, writes nothing back), has taken from or given
    back to the allocator only if it is inode_write_at or inode_close
    (inode_create allocates nothing), and has changed the registry list
    only if it is inode_open or inode_close. *)
Theorem operation_footprint {F : Type} `{FreeMap F} (c : call)
    (st st' : fs_state (F := F)) :
  run_call c st = Done (tt, st') ->
  (writes_device c = false -> fs_device st' = fs_device st)
  /\ (uses_allocator c = false -> free_map st' = free_map st)
  /\ (changes_registry c = false -> open_inodes st' = open_inodes st).
Proof.
  intros Hrun. split; [|split]; intros Hc.
  - exact (calls_keep_device c Hc _ _ _ Hrun).
  - exact (calls_keep_allocator c Hc _ _ _ Hrun).
  - exact (calls_keep_registry_list c Hc _ _ _ Hrun).
Qed.

Lemma operation_footprint_witness :
  exists st',
    run_call (CallClose (Some 0%nat)) doomed = Done (tt, st')
    /\ fs_device st' = fs_device doomed.
Proof.
  eexists. split; [vm_compute; reflexivity|].
  refine (proj1 (operation_footprint (CallClose (Some 0%nat)) doomed _ _) eq_refl).
  vm_compute. reflexivity.
Defined.

(** ** The registry invariant under every call *)

Section RegistryUnderCalls.

Context {F : Type} `{FreeMap F}.

Lemma same_handles_refl (st : fs_state (F := F)) : same_handles st st.
Proof. split; [reflexivity|]. intros p. now destruct (heap st !! p). Qed.

Lemma same_handles_trans (st1 st2 st3 : fs_state (F := F)) :
  same_handles st1 st2 -> same_handles st2 st3 -> same_handles st1 st3.
Proof.
  intros [Hr1 Hh1] [Hr2 Hh2]. split; [congruence|].
  intros p. specialize (Hh1 p). specialize (Hh2 p).
  destruct (heap st1 !! p), (heap st2 !! p), (heap st3 !! p);
    try contradiction; try exact I. congruence.
Qed.

Lemma same_handles_kept (st st' : fs_state (F := F)) :
  heap st' = heap st -> open_inodes st' = open_inodes st -> same_handles st st'.
Proof.
  intros Hh Hr. split; [exact Hr|]. intros p. rewrite Hh.
  now destruct (heap st !! p).
Qed.

Lemma same_handles_store (p : nat) (ino new : inode) (st : fs_state (F := F)) :
  heap st !! p = Some ino -> sector new = sector ino ->
  same_handles st (set_heap (<[p := new]> (heap st)) st).
Proof.
  intros Hp Hs. split; [reflexivity|]. intros q. cbn.
  destruct (decide (p = q)) as [<-|Hne].
  - now rewrite lookup_insert_eq, Hp.
  - rewrite lookup_insert_ne by done. now destruct (heap st !! q).
Qed.

Lemma registry_wf_same_handles (st st' : fs_state (F := F)) :
  same_handles st st' -> registry_wf st -> registry_wf st'.
Proof.
  intros [Hr Hh] (Hnd & Hiff & Hinj). unfold registry_wf. rewrite Hr.
  split; [exact Hnd|]. split.
  - intros p. rewrite Hiff. specialize (Hh p).
    destruct (heap st !! p), (heap st' !! p); try contradiction;
      split; intros [x Hx]; try discriminate; eauto.
  - intros p q ip iq Hp Hq Hs.
    pose proof (Hh p) as Hhp. pose proof (Hh q) as Hhq.
    rewrite Hp in Hhp. rewrite Hq in Hhq.
    destruct (heap st !! p) as [ip0|] eqn:Ep; [|contradiction].
    destruct (heap st !! q) as [iq0|] eqn:Eq; [|contradiction].
    apply (Hinj p q ip0 iq0 Ep Eq). congruence.
Qed.

(** A step that reads a handle and stores it back with the same
    descriptor sector. *)
Lemma same_handles_update (h : option nat) (f : inode -> inode) (st st' : fs_state (F := F)) :
  (forall i, sector (f i) = sector i) ->
  (ino <- deref h ;;
   match h with
   | Some p => store p (f ino)
   | None => fail BadPointer
   end) st = Done (tt, st') ->
  same_handles st st'.
Proof.
  intros Hf Hrun. apply bind_inv in Hrun as (ino & st0 & Hderef & Hrun).
  unfold deref in Hderef. destruct h as [p|]; [|discriminate].
  destruct (heap st !! p) as [i|] eqn:Hp; [|discriminate].
  injection Hderef as Hi Hs. subst i st0.
  rewrite (store_live p ino _ st Hp) in Hrun. injection Hrun as <-.
  now apply same_handles_store with (ino := ino).
Qed.

Lemma same_handles_frame {A} (m : M (F := F) A) (st st' : fs_state (F := F)) (a : A) :
  keeps heap m -> keeps open_inodes m ->
  m st = Done (a, st') -> same_handles st st'.
Proof.
  intros Hh Hr Hrun. apply same_handles_kept; eauto.
Qed.

Lemma same_handles_file_extension_with (mem : ext_memory) (h : option nat)
    (size offset : Z) (st st' : fs_state (F := F)) :
  file_extension_with mem h size offset st = Done (tt, st') -> same_handles st st'.
Proof.
  assert (Hlh : log_free (F := F) heap) by (intros ? ?; reflexivity).
  assert (Hdh : device_free (F := F) heap) by (intros ? ?; reflexivity).
  assert (Hah : allocator_free (F := F) heap) by (intros ? ?; reflexivity).
  assert (Hlr : log_free (F := F) open_inodes) by (intros ? ?; reflexivity).
  assert (Hdr : device_free (F := F) open_inodes) by (intros ? ?; reflexivity).
  assert (Har : allocator_free (F := F) open_inodes) by (intros ? ?; reflexivity).
  assert (Hhr : heap_free (F := F) open_inodes) by (intros ? ?; reflexivity).
  unfold file_extension_with. intros Hrun.
  apply bind_inv in Hrun as (ino & st0 & Hderef & Hrun).
  unfold deref in Hderef. destruct h as [p|]; [|discriminate].
  destruct (heap st !! p) as [i|] eqn:Hp; [|discriminate].
  injection Hderef as Hi Hs. subst i st0.
  cbv zeta in Hrun.
  match type of Hrun with
  | context [match ?x with Some _ => _ | None => _ end] =>
      destruct x as [room|]; [|discriminate]
  end.
  apply bind_inv in Hrun as (obtained & st1 & Hrun1 & Hrun).
  destruct (room <? _); [discriminate|].
  apply bind_inv in Hrun as ([] & st2 & Hrun2 & Hrun).
  apply bind_inv in Hrun as ([] & st2' & Hthrough & Hrun).
  apply bind_inv in Hrun as (loc & st3 & Hrun3 & Hrun).
  apply bind_inv in Hrun as ([] & st4 & Hrun4 & Hrun).
  apply bind_inv in Hrun as ([] & st5 & Hrun5 & Hrun).
  assert (H01 : same_handles st st1).
  { eapply same_handles_frame; [| |exact Hrun1]; now apply keeps_alloc_run. }
  assert (H12 : same_handles st1 st2).
  { eapply same_handles_frame; [| |exact Hrun2]; frame_auto. }
  assert (H22 : same_handles st2 st2').
  { eapply same_handles_frame; [| |exact Hthrough]; keeps_auto. }
  assert (H23 : same_handles st2' st3).
  { eapply same_handles_frame; [| |exact Hrun3]; now apply keeps_wire. }
  assert (H34 : same_handles st3 st4).
  { eapply same_handles_frame; [| |exact Hrun4]; keeps_auto. }
  assert (H04 : same_handles st st4).
  { eauto using same_handles_trans. }
  assert (H45 : same_handles st4 st5).
  { pose proof (proj2 H04 p) as Hp4. rewrite Hp in Hp4.
    destruct (heap st4 !! p) as [i4|] eqn:Ep4; [|contradiction].
    rewrite (store_live p i4 _ st4 Ep4) in Hrun5. injection Hrun5 as <-.
    apply same_handles_store with (ino := i4); [exact Ep4|]. cbn. now symmetry. }
  assert (H5 : same_handles st5 st').
  { eapply same_handles_frame; [| |exact Hrun]; keeps_auto. }
  eauto using same_handles_trans.
Qed.

Lemma same_handles_file_extension (h : option nat) (size offset : Z)
    (st st' : fs_state (F := F)) :
  file_extension h size offset st = Done (tt, st') -> same_handles st st'.
Proof. apply same_handles_file_extension_with. Qed.

Lemma same_handles_inode_write_at (h : option nat) (buffer : list Z) (size offset n : Z)
    (st st' : fs_state (F := F)) :
  inode_write_at h buffer size offset st = Done (n, st') -> same_handles st st'.
Proof.
  assert (Hlh : log_free (F := F) heap) by (intros ? ?; reflexivity).
  assert (Hdh : device_free (F := F) heap) by (intros ? ?; reflexivity).
  assert (Hlr : log_free (F := F) open_inodes) by (intros ? ?; reflexivity).
  assert (Hdr : device_free (F := F) open_inodes) by (intros ? ?; reflexivity).
  unfold inode_write_at. intros Hrun.
  apply bind_inv in Hrun as (ino & st0 & Hderef & Hrun).
  assert (st0 = st) as ->.
  { unfold deref in Hderef. destruct h as [p|]; [|discriminate].
    destruct (heap st !! p); [|discriminate]. now injection Hderef as _ <-. }
  destruct (negb (deny_write_cnt ino =? 0)).
  { injection Hrun as _ <-. apply same_handles_refl. }
  apply bind_inv in Hrun as ([] & st1 & Hrun1 & Hrun).
  assert (H01 : same_handles st st1).
  { destruct (_ >? _).
    - now apply same_handles_file_extension in Hrun1.
    - injection Hrun1 as <-. apply same_handles_refl. }
  apply same_handles_trans with (st2 := st1); [exact H01|].
  eapply same_handles_frame; [| |exact Hrun]; now apply keeps_write_loop.
Qed.

Lemma calls_keep_handles (c : call) (st st' : fs_state (F := F)) :
  changes_registry c = false ->
  run_call c st = Done (tt, st') -> same_handles st st'.
Proof.
  assert (Hlh : log_free (F := F) heap) by (intros ? ?; reflexivity).
  assert (Hdh : device_free (F := F) heap) by (intros ? ?; reflexivity).
  assert (Hlr : log_free (F := F) open_inodes) by (intros ? ?; reflexivity).
  assert (Hdr : device_free (F := F) open_inodes) by (intros ? ?; reflexivity).
  intros Hc Hrun.
  destruct c as [ok s len | ok s | h | h | h | h | h ok size offset
                | h buffer size offset | h | h | h | h];
    try discriminate; cbn [run_call] in Hrun.
  - (* inode_create *)
    eapply same_handles_frame; [| |exact Hrun]; unfold inode_create; keeps_auto.
  - (* inode_reopen *)
    apply bind_inv in Hrun as (r & st1 & Hrun & Hret). injection Hret as <-.
    destruct h as [p|].
    + unfold inode_reopen in Hrun.
      apply bind_inv in Hrun as (ino & st0 & Hderef & Hrun).
      unfold deref in Hderef.
      destruct (heap st !! p) as [i|] eqn:Hp; [|discriminate].
      injection Hderef as Hi Hs. subst i st0.
      rewrite (bind_done _ _ _ _ _ (store_live p ino _ st Hp)) in Hrun.
      injection Hrun as _ <-. now apply same_handles_store with (ino := ino).
    + injection Hrun as _ <-. apply same_handles_refl.
  - (* inode_get_inumber *)
    eapply same_handles_frame; [| |exact Hrun]; unfold inode_get_inumber; keeps_auto.
  - (* inode_remove *)
    destruct h as [p|]; [|discriminate].
    now apply (same_handles_update (Some p) (set_removed true)).
  - (* inode_read_at *)
    eapply same_handles_frame; [| |exact Hrun];
      (apply keeps_bind; [now apply keeps_inode_read_at | intros; apply keeps_ret]).
  - (* inode_write_at *)
    apply bind_inv in Hrun as (n & st1 & Hrun & Hret). injection Hret as <-.
    now apply same_handles_inode_write_at in Hrun.
  - (* inode_deny_write *)
    unfold inode_deny_write in Hrun.
    apply bind_inv in Hrun as (ino & st0 & Hderef & Hrun).
    unfold deref in Hderef. destruct h as [p|]; [|discriminate].
    destruct (heap st !! p) as [i|] eqn:Hp; [|discriminate].
    injection Hderef as Hi Hs. subst i st0. cbv zeta in Hrun.
    rewrite (bind_done _ _ _ _ _ (store_live p ino _ st Hp)) in Hrun.
    destruct (_ <=? _); [|discriminate].
    injection Hrun as <-. now apply same_handles_store with (ino := ino).
  - (* inode_allow_write *)
    unfold inode_allow_write in Hrun.
    apply bind_inv in Hrun as (ino & st0 & Hderef & Hrun).
    unfold deref in Hderef. destruct h as [p|]; [|discriminate].
    destruct (heap st !! p) as [i|] eqn:Hp; [|discriminate].
    injection Hderef as Hi Hs. subst i st0.
    destruct (negb _); [discriminate|]. destruct (negb _); [discriminate|].
    rewrite (store_live p ino _ st Hp) in Hrun.
    injection Hrun as <-. now apply same_handles_store with (ino := ino).
  - (* inode_length *)
    eapply same_handles_frame; [| |exact Hrun]; unfold inode_length; keeps_auto.
  - (* inode_deny_cnt *)
    eapply same_handles_frame; [| |exact Hrun]; unfold inode_deny_cnt; keeps_auto.
Qed.

End RegistryUnderCalls.

(** X12. Every call of the interface keeps the registry invariant:
    after any call that returns, the registry still lists exactly the
    live handles, each once, and no two of them describe the same
    sector.  Calls other than inode_open and inode_close moreover keep
    the very same handles alive, each on the sector it had. *)
Theorem calls_keep_registry_invariant {F : Type} `{FreeMap F} (c : call)
    (st st' : fs_state (F := F)) :
  registry_wf st ->
  run_call c st = Done (tt, st') ->
  registry_wf st'
  /\ (changes_registry c = false -> same_handles st st').
Proof.
  intros Hwf Hrun. split.
  - destruct (changes_registry c) eqn:Hc.
    + destruct c as [ok s len | ok s | h | h | h | h | h ok size offset
                    | h buffer size offset | h | h | h | h];
        try discriminate; cbn [run_call] in Hrun.
      * apply bind_inv in Hrun as (r & st1 & Hrun & Hret). injection Hret as <-.
        now apply (inode_open_wf ok s st st1 r).
      * now apply (inode_close_wf h st st').
    + apply (registry_wf_same_handles st st'); [|exact Hwf].
      now apply (calls_keep_handles c).
  - intros Hc. now apply (calls_keep_handles c).
Qed.

Lemma calls_keep_registry_invariant_witness :
  exists st',
    run_call (CallWriteAt (Some 0%nat) (payload 1300) 1300 0) shared = Done (tt, st')
    /\ registry_wf st'.
Proof.
  eexists. split; [vm_compute; reflexivity|].
  refine (proj1 (calls_keep_registry_invariant
                   (CallWriteAt (Some 0%nat) (payload 1300) 1300 0) shared _ _ _)).
  - apply registry_wf_single.
  - vm_compute. reflexivity.
Defined.

(** ** Reads in any state *)

Section ReadBounds.

Context {F : Type} `{FreeMap F}.

Lemma read_only_inode_length (h : option nat) : read_only (F := F) (inode_length h).
Proof.
  unfold inode_length. apply read_only_bind; [apply read_only_deref|].
  intros ino. apply read_only_ret.
Qed.

Lemma read_only_read_loop (fuel : nat) :
  forall h ok size offset br bounce buffer,
    read_only (F := F) (read_loop fuel h ok size offset br bounce buffer).
Proof.
  induction fuel as [|fuel IH]; intros; cbn [read_loop]; [apply read_only_ret|].
  destruct (size >? 0); [|apply read_only_ret].
  apply read_only_bind; [apply read_only_byte_to_sector|]. intros s.
  cbv zeta.
  apply read_only_bind; [apply read_only_inode_length|]. intros len.
  destruct (_ <=? 0); [apply read_only_ret|].
  destruct (_ && _).
  - apply read_only_bind; [apply read_only_block_read|]. intros d. apply IH.
  - destruct (match bounce with Some b => Some b | None => _ end);
      [|apply read_only_ret].
    apply read_only_bind; [apply read_only_block_read|]. intros d.
    apply read_only_bind; [apply read_only_slice|]. intros chunk. apply IH.
Qed.

Lemma read_only_inode_read_at (h : option nat) (ok : bool) (size offset : Z) :
  read_only (F := F) (inode_read_at h ok size offset).
Proof.
  unfold inode_read_at. apply read_only_bind; [apply read_only_deref|].
  intros ino. destruct (_ >? _).
  - cbv zeta. destruct (_ <? 0); [apply read_only_ret | apply read_only_read_loop].
  - apply read_only_read_loop.
Qed.

Lemma read_only_after_reads {A} (m : M (F := F) A) (st st' : fs_state (F := F)) (a : A) :
  read_only m -> m st = Done (a, st') -> after_reads st st'.
Proof.
  intros Hro Hrun. specialize (Hro st). rewrite Hrun in Hro.
  destruct Hro as (l & Hl & Hm). exists l. split; [|exact Hl].
  specialize (Hm (io_log st)). rewrite set_io_log_same, Hrun in Hm. congruence.
Qed.

(** The loop never counts more than [size] further bytes and never
    goes past the end of the file. *)
Lemma read_loop_bounds (p : nat) (ino : inode) (ok : bool) (fuel : nat) :
  0 <= length (data ino) < 2147483648 ->
  forall size offset br bounce buffer (st st' : fs_state (F := F)) n out,
    heap st !! p = Some ino ->
    0 <= offset < 2147483648 -> 0 <= size -> 0 <= br -> br + size < 2147483648 ->
    read_loop fuel (Some p) ok size offset br bounce buffer st = Done ((n, out), st') ->
    br <= n <= br + size /\ n - br <= Z.max 0 (length (data ino) - offset).
Proof.
  intros Hlen. induction fuel as [|fuel IH];
    intros size offset br bounce buffer st st' n out Hp Hoff Hsize Hbr Hbrs Hrun.
  { injection Hrun as <- _ _. lia. }
  cbn [read_loop] in Hrun.
  destruct (size >? 0) eqn:Hpos; [|injection Hrun as <- _ _; lia].
  apply Z.gtb_lt in Hpos.
  apply bind_inv in Hrun as (s & st1 & Hbts & Hrun).
  assert (Hp1 : heap st1 !! p = Some ino).
  { rewrite (keeps_byte_to_sector heap (Some p) offset
               ltac:(intros ? ?; reflexivity) _ _ _ Hbts). exact Hp. }
  cbv zeta in Hrun.
  unfold inode_length in Hrun at 1.
  rewrite (bind_done _ _ _ _ _
             (bind_done _ _ _ _ _ (deref_live p ino st1 Hp1))) in Hrun.
  unfold ret at 1 in Hrun. cbv beta in Hrun.
  unfold BLOCK_SECTOR_SIZE in Hrun.
  rewrite (int_rem_nonneg offset 512) in Hrun by lia.
  set (ofs := offset `mod` 512) in *.
  assert (Hofs : 0 <= ofs < 512) by (apply Z.mod_pos_bound; lia).
  rewrite (int_sub_id (length (data ino)) offset) in Hrun by (unfold in_int; lia).
  rewrite (int_sub_id 512 ofs) in Hrun by (unfold in_int; lia).
  set (chunk := if size <? _ then size else _) in *.
  assert (Hchunk : chunk = Z.min size (Z.min (length (data ino) - offset) (512 - ofs))).
  { unfold chunk.
    destruct (Z.ltb_spec (length (data ino) - offset) (512 - ofs)) as [Hl|Hl];
      [destruct (Z.ltb_spec size (length (data ino) - offset))
      |destruct (Z.ltb_spec size (512 - ofs))]; lia. }
  clearbody chunk.
  destruct (chunk <=? 0) eqn:Hc; [injection Hrun as <- _ _; lia|].
  apply Z.leb_gt in Hc.
  rewrite (int_sub_id size chunk), (int_add_id offset chunk), (int_add_id br chunk)
    in Hrun by (unfold in_int; lia).
  assert (Hrec : forall bnc buf (sta : fs_state (F := F)),
            heap sta !! p = Some ino ->
            read_loop fuel (Some p) ok (size - chunk) (offset + chunk) (br + chunk)
              bnc buf sta = Done ((n, out), st') ->
            br <= n <= br + size /\ n - br <= Z.max 0 (length (data ino) - offset)).
  { intros bnc buf sta Hpa Hr.
    destruct (IH (size - chunk) (offset + chunk) (br + chunk) bnc buf sta st' n out Hpa);
      [lia | lia | lia | lia | exact Hr |].
    lia. }
  destruct (_ && _).
  - apply bind_inv in Hrun as (d & st2 & Hrd & Hrun).
    eapply Hrec; [|exact Hrun].
    rewrite (keeps_block_read heap s ltac:(intros ? ?; reflexivity) _ _ _ Hrd).
    exact Hp1.
  - destruct (match bounce with Some b => Some b | None => _ end);
      [|injection Hrun as <- _ _; lia].
    apply bind_inv in Hrun as (d & st2 & Hrd & Hrun).
    apply bind_inv in Hrun as (c & st3 & Hsl & Hrun).
    eapply Hrec; [|exact Hrun].
    rewrite (keeps_slice heap _ _ _ _ _ _ Hsl).
    rewrite (keeps_block_read heap s ltac:(intros ? ?; reflexivity) _ _ _ Hrd).
    exact Hp1.
Qed.

End ReadBounds.

(** X13. Whatever the state of the device and of memory, a read that
    returns has only read: it has changed no sector, no handle, not the
    allocator and not the registry.  And for a file length and
    arguments in the range of [off_t], the count it returns is never
    negative, never more than [size] and never more than the bytes
    between [offset] and the end of the file. *)
Theorem read_at_bounds {F : Type} `{FreeMap F} (st st' : fs_state (F := F))
    (p : nat) (ino : inode) (ok : bool) (size offset n : Z) (out : list Z) :
  heap st !! p = Some ino ->
  0 <= length (data ino) < 2147483648 ->
  0 <= offset < 2147483648 ->
  in_int size ->
  in_int (offset + size) ->
  inode_read_at (Some p) ok size offset st = Done ((n, out), st') ->
  after_reads st st'
  /\ 0 <= n <= Z.max 0 size
  /\ n <= Z.max 0 (length (data ino) - offset).
Proof.
  intros Hp Hlen Hoff Hsize Hsum Hrun. unfold in_int in *.
  split; [exact (read_only_after_reads _ _ _ _ (read_only_inode_read_at _ _ _ _) Hrun)|].
  unfold inode_read_at in Hrun.
  rewrite (bind_done _ _ _ _ _ (deref_live p ino st Hp)) in Hrun.
  rewrite (int_add_id offset size) in Hrun by (unfold in_int; lia).
  assert (Hloop : forall sz, sz <= size -> sz < 2147483648 ->
            read_loop (Z.to_nat sz) (Some p) ok sz offset 0 None [] st
            = Done ((n, out), st') ->
            0 <= n <= Z.max 0 size /\ n <= Z.max 0 (length (data ino) - offset)).
  { intros sz Hle Hlt Hr. destruct (Z.lt_ge_cases sz 0) as [Hneg|Hpos].
    - replace (Z.to_nat sz) with 0%nat in Hr by lia.
      injection Hr as <- _ _. lia.
    - destruct (read_loop_bounds p ino ok (Z.to_nat sz) Hlen sz offset 0 None []
                  st st' n out Hp Hoff Hpos);
        [lia | lia | exact Hr |].
      lia. }
  destruct (offset + size >? length (data ino)) eqn:Hgt.
  - apply Z.gtb_lt in Hgt. cbv zeta in Hrun.
    rewrite (int_sub_id (offset + size)) in Hrun by (unfold in_int; lia).
    rewrite (int_sub_id size) in Hrun by (unfold in_int; lia).
    destruct (_ <? 0); [injection Hrun as <- _ _; lia|].
    apply Hloop in Hrun; lia.
  - apply Hloop in Hrun; lia.
Qed.

Lemma read_at_bounds_witness :
  exists n out st',
    inode_read_at (Some 0%nat) false 1000 512 small_file = Done ((n, out), st')
    /\ after_reads small_file st'
    /\ 0 <= n <= Z.max 0 1000
    /\ n <= Z.max 0 (700 - 512).
Proof.
  eexists _, _, _. split; [vm_compute; reflexivity|].
  eapply (read_at_bounds small_file _ 0%nat small_inode false 1000 512).
  - exact small_file_heap.
  - cbn. lia.
  - lia.
  - unfold in_int. lia.
  - unfold in_int. lia.
  - vm_compute. reflexivity.
Defined.

(** X14. A read that ends inside the file (so that nothing is clamped)
    of a range that lies in sectors of the device returns exactly
    [size] bytes when the bounce buffer can be allocated, and they are
    the bytes of the file at [offset], [offset + 1], ... *)
Theorem read_at_inside {F : Type} `{FreeMap F} (st : fs_state (F := F))
    (p : nat) (ino : inode) (size offset : Z) :
  heap st !! p = Some ino ->
  0 <= length (data ino) < 2147483648 ->
  0 <= offset ->
  0 <= size ->
  offset + size <= length (data ino) ->
  mapped st (Some p) offset (offset + size) ->
  exists out st',
    inode_read_at (Some p) true size offset st = Done ((size, out), st')
    /\ after_reads st st'
    /\ List.length out = Z.to_nat size
    /\ forall k, 0 <= k < size ->
         out !! Z.to_nat k = file_byte st (Some p) (offset + k).
Proof.
  intros Hp Hlen Hoff Hsize Hend Hmap.
  unfold inode_read_at.
  rewrite (bind_done _ _ _ _ _ (deref_live p ino st Hp)).
  rewrite (int_add_id offset size) by (unfold in_int; lia).
  replace (offset + size >? length (data ino)) with false
    by (symmetry; rewrite Z.gtb_ltb; apply Z.ltb_ge; lia).
  destruct (read_loop_ok st p ino Hp Hlen (Z.to_nat size) size offset 0 None []
              (io_log st))
    as (out & l & Hrun & Hl & Hout & Hcontent); try lia; [exact Hmap|].
  rewrite set_io_log_same in Hrun.
  exists out, (set_io_log (io_log st ++ l) st).
  split; [exact Hrun|]. split; [|split; assumption].
  exists l. split; [reflexivity | exact Hl].
Qed.

Lemma read_at_inside_witness :
  exists out st',
    inode_read_at (Some 0%nat) true 500 100 small_file = Done ((500, out), st')
    /\ after_reads small_file st'
    /\ List.length out = 500%nat
    /\ forall k, 0 <= k < 500 ->
         out !! Z.to_nat k = file_byte small_file (Some 0%nat) (100 + k).
Proof.
  apply (read_at_inside small_file 0%nat small_inode 500 100).
  - exact small_file_heap.
  - cbn. lia.
  - lia.
  - lia.
  - cbn. lia.
  - intros pos Hpos. apply small_file_mapped. lia.
Defined.

(** ** Writes *)

Section WriteFacts.

Context {F : Type} `{FreeMap F}.

Lemma write_loop_end (fuel : nat) (h : option nat) (buffer : list Z) (offset bw : Z)
    (bounce : option (list Z)) (st : fs_state (F := F)) :
  write_loop fuel h buffer 0 offset bw bounce st = Done (bw, st).
Proof. destruct fuel; reflexivity. Qed.

(** Started with bounce NULL, the loop counts whole sectors only, and
    never more than [size] further bytes. *)
Lemma write_loop_whole (fuel : nat) :
  forall h buffer size offset bw (st st' : fs_state (F := F)) n,
    0 <= size -> 0 <= bw -> bw + size < 2147483648 -> bw `mod` 512 = 0 ->
    write_loop fuel h buffer size offset bw None st = Done (n, st') ->
    n `mod` 512 = 0 /\ bw <= n <= bw + size.
Proof.
  induction fuel as [|fuel IH];
    intros h buffer size offset bw st st' n Hsize Hbw Hsum Hmod Hrun.
  { injection Hrun as <- _. lia. }
  cbn [write_loop] in Hrun.
  destruct (size >? 0) eqn:Hpos; [|injection Hrun as <- _; lia].
  apply Z.gtb_lt in Hpos.
  apply bind_inv in Hrun as (s & st1 & Hbts & Hrun).
  cbv zeta in Hrun.
  apply bind_inv in Hrun as (len & st2 & Hlen & Hrun).
  set (m := if len -i offset <? _ then _ else _) in Hrun.
  set (chunk := if size <? m then size else m) in *.
  assert (Hchunk : chunk <= size).
  { unfold chunk. destruct (Z.ltb_spec size m); lia. }
  clearbody chunk. clear m.
  destruct (chunk <=? 0) eqn:Hc; [injection Hrun as <- _; lia|].
  apply Z.leb_gt in Hc.
  destruct (_ && _) eqn:Efull; [|injection Hrun as <- _; lia].
  apply andb_true_iff in Efull as [_ Ec]. apply Z.eqb_eq in Ec.
  unfold BLOCK_SECTOR_SIZE in Ec. subst chunk.
  apply bind_inv in Hrun as (src & st3 & Hsl & Hrun).
  apply bind_inv in Hrun as ([] & st4 & Hbw4 & Hrun).
  rewrite (int_sub_id size 512), (int_add_id bw 512) in Hrun by (unfold in_int; lia).
  eapply IH in Hrun; try lia.
  Z.div_mod_to_equations. lia.
Qed.

Lemma byte_to_sector_direct (p : nat) (ino : inode) (st : fs_state (F := F))
    (q s pos : Z) :
  heap st !! p = Some ino ->
  0 <= q < 10 ->
  direct (data ino) !! Z.to_nat q = Some s ->
  0 <= pos < 2147483648 ->
  pos / 512 = q ->
  byte_to_sector (Some p) pos st = Done (s, st).
Proof.
  intros Hp Hq Hs Hpos Hdiv. unfold byte_to_sector.
  rewrite (bind_done _ _ _ _ _ (deref_live p ino st Hp)).
  unfold BLOCK_SECTOR_SIZE.
  rewrite int_div_nonneg by (unfold in_int; lia). rewrite Hdiv.
  replace (q <? 10) with true by (symmetry; apply Z.ltb_lt; lia).
  unfold array_get.
  pose proof (lookup_lt_Some _ _ _ Hs) as Hlt.
  replace ((q <? 0) || (Z.of_nat (List.length (direct (data ino))) <=? q)) with false.
  - now rewrite Hs.
  - symmetry. apply orb_false_iff. split; [apply Z.ltb_ge | apply Z.leb_gt]; lia.
Qed.

(** Whole sectors written over direct sectors of the file: each sector
    receives its 512 bytes of the buffer, in order, and nothing else
    changes on the device. *)
Lemma write_loop_direct (p : nat) (ino : inode) (buffer : list Z) :
  length (data ino) < 2147483648 ->
  forall (secs : list Z) (q bw : Z) (fuel : nat) (st : fs_state (F := F)),
    heap st !! p = Some ino ->
    0 <= q -> q + Z.of_nat (List.length secs) <= 10 ->
    (forall j s, secs !! j = Some s ->
       direct (data ino) !! (Z.to_nat q + j)%nat = Some s) ->
    512 * (q + Z.of_nat (List.length secs)) <= length (data ino) ->
    0 <= bw ->
    bw + 512 * Z.of_nat (List.length secs) <= Z.of_nat (List.length buffer) ->
    bw + 512 * Z.of_nat (List.length secs) < 2147483648 ->
    (forall s, s ∈ secs -> is_Some (fs_device st !! s)) ->
    NoDup secs ->
    (List.length secs <= fuel)%nat ->
    exists st',
      write_loop fuel (Some p) buffer (512 * Z.of_nat (List.length secs)) (512 * q) bw
        None st
      = Done (bw + 512 * Z.of_nat (List.length secs), st')
      /\ heap st' = heap st
      /\ free_map st' = free_map st
      /\ open_inodes st' = open_inodes st
      /\ io_log st' = io_log st ++ map IoWrite secs
      /\ (forall j s, secs !! j = Some s ->
            fs_device st' !! s
            = Some (take 512 (drop (Z.to_nat bw + 512 * j) buffer)))
      /\ (forall s, s ∉ secs -> fs_device st' !! s = fs_device st !! s).
Proof.
  intros Hlen. induction secs as [|s secs IH];
    intros q bw fuel st Hp Hq Hq10 Hdir Hfile Hbw Hbuf Hmax Hdev Hnd Hfuel.
  { exists st. cbn [List.length]. rewrite Z.mul_0_r, write_loop_end, Z.add_0_r.
    cbn [map]. rewrite app_nil_r.
    repeat split; try reflexivity. intros j s Hj. inversion Hj. }
  destruct fuel as [|fuel]; [cbn in Hfuel; lia|].
  cbn [List.length] in *. rewrite Nat2Z.inj_succ in *.
  set (k := Z.of_nat (List.length secs)) in *.
  assert (Hk : 0 <= k) by (unfold k; lia).
  cbn [write_loop].
  replace (512 * Z.succ k >? 0) with true by (symmetry; apply Z.gtb_lt; lia).
  assert (Hs : direct (data ino) !! Z.to_nat q = Some s).
  { specialize (Hdir 0%nat s eq_refl). now rewrite Nat.add_0_r in Hdir. }
  rewrite (bind_done _ _ _ _ _
             (byte_to_sector_direct p ino st q s (512 * q) Hp ltac:(lia) Hs ltac:(lia)
                ltac:(rewrite Z.mul_comm; apply Z.div_mul; lia))).
  cbv zeta. unfold inode_length at 1.
  rewrite (bind_done _ _ _ _ _ (bind_done _ _ _ _ _ (deref_live p ino st Hp))).
  unfold ret at 1. cbv beta.
  unfold BLOCK_SECTOR_SIZE.
  rewrite (int_rem_nonneg (512 * q) 512) by lia.
  replace ((512 * q) `mod` 512) with 0
    by (symmetry; rewrite Z.mul_comm; apply Z.mod_mul; lia).
  rewrite (int_sub_id (length (data ino))) by (unfold in_int; lia).
  rewrite (int_sub_id 512 0) by (unfold in_int; lia).
  change (512 - 0) with 512.
  replace (length (data ino) - 512 * q <? 512) with false
    by (symmetry; apply Z.ltb_ge; lia).
  replace (512 * Z.succ k <? 512) with false by (symmetry; apply Z.ltb_ge; lia).
  change (512 <=? 0) with false. change (0 =? 0) with true.
  change (512 =? 512) with true. cbn [andb].
  unfold bind at 1. unfold slice.
  replace ((bw <? 0) || (512 <? 0) || (Z.of_nat (List.length buffer) <? bw + 512))
    with false.
  2:{ symmetry. rewrite !orb_false_iff. repeat split; apply Z.ltb_ge; lia. }
  unfold ret at 1.
  destruct (Hdev s ltac:(left)) as [old Hold].
  unfold bind at 1. unfold block_write at 1. rewrite Hold.
  rewrite (int_sub_id (512 * Z.succ k) 512), (int_add_id (512 * q) 512),
    (int_add_id bw 512) by (unfold in_int; lia).
  replace (512 * Z.succ k - 512) with (512 * k) by lia.
  replace (512 * q + 512) with (512 * (q + 1)) by lia.
  apply NoDup_cons in Hnd as [Hnotin Hnd].
  set (chunk := take (Z.to_nat 512) (drop (Z.to_nat bw) buffer)).
  match goal with
  | |- context [write_loop fuel (Some p) buffer (512 * k) (512 * (q + 1)) (bw + 512) None ?s1] =>
      destruct (IH (q + 1) (bw + 512) fuel s1)
        as (st' & Hrun & Hheap & Hfm & Hreg & Hlog & Hnew & Hold')
  end.
  - exact Hp.
  - lia.
  - fold k. lia.
  - intros j s' Hj. specialize (Hdir (S j) s' Hj).
    replace (Z.to_nat (q + 1) + j)%nat with (Z.to_nat q + S j)%nat by lia. exact Hdir.
  - fold k. lia.
  - lia.
  - fold k. lia.
  - fold k. lia.
  - intros s' Hs'. cbn. apply lookup_insert_is_Some.
    destruct (decide (s = s')); [now left | right]. split; [done|].
    apply Hdev. now right.
  - exact Hnd.
  - lia.
  - fold k in Hrun. exists st'.
    split; [rewrite Hrun; f_equal; f_equal; lia|].
    split; [exact Hheap|]. split; [exact Hfm|]. split; [exact Hreg|].
    split; [rewrite Hlog; cbn; now rewrite <- app_assoc|].
    split.
    + intros [|j] s' Hj.
      * injection Hj as <-. rewrite (Hold' s Hnotin). cbn.
        rewrite lookup_insert_eq. unfold chunk.
        rewrite Nat.add_0_r. reflexivity.
      * rewrite (Hnew j s' Hj).
        replace (Z.to_nat (bw + 512) + 512 * j)%nat
          with (Z.to_nat bw + 512 * S j)%nat by lia.
        reflexivity.
    + intros s' Hs'. apply not_elem_of_cons in Hs' as [Hne Hs'].
      rewrite (Hold' s' Hs'). cbn. now rewrite lookup_insert_ne.
Qed.

End WriteFacts.

(** X15. inode_write_at transfers whole sectors only: whatever the
    state, the buffer and the offset, the count it returns is a
    multiple of 512, it is never negative and never more than [size].
    A request that does not start on a sector boundary, or that is
    shorter than a sector, is therefore never carried out in full. *)
Theorem write_at_whole_sectors {F : Type} `{FreeMap F} (st st' : fs_state (F := F))
    (h : option nat) (buffer : list Z) (size offset n : Z) :
  in_int size ->
  inode_write_at h buffer size offset st = Done (n, st') ->
  n `mod` 512 = 0 /\ 0 <= n <= Z.max 0 size.
Proof.
  unfold in_int. intros Hsize Hrun. unfold inode_write_at in Hrun.
  apply bind_inv in Hrun as (ino & st0 & _ & Hrun).
  destruct (negb _); [injection Hrun as <- _; split; [reflexivity|lia]|].
  apply bind_inv in Hrun as ([] & st1 & _ & Hrun).
  destruct (Z.lt_ge_cases size 0) as [Hneg|Hpos].
  - replace (Z.to_nat size) with 0%nat in Hrun by lia.
    injection Hrun as <- _. split; [reflexivity|lia].
  - destruct (write_loop_whole _ _ _ _ _ _ _ _ _ Hpos (Z.le_refl 0)
                ltac:(lia) eq_refl Hrun).
    split; [assumption|lia].
Qed.

Lemma write_at_whole_sectors_witness :
  exists n st',
    inode_write_at (Some 0%nat) (payload 1300) 1300 0 shared = Done (n, st')
    /\ n `mod` 512 = 0 /\ 0 <= n <= Z.max 0 1300.
Proof.
  eexists _, _. split; [vm_compute; reflexivity|].
  eapply (write_at_whole_sectors shared _ (Some 0%nat) (payload 1300) 1300 0).
  - unfold in_int. lia.
  - vm_compute. reflexivity.
Defined.

(** X16. Whole sectors written in place read back.  For a run of
    direct sectors of a file that are on the device and distinct, a
    write of exactly those sectors (sector-aligned offset, a buffer of
    that many times 512 bytes, no growth) returns the full count, makes
    one device write per sector and no read, changes no other sector,
    and a read of the same range afterwards delivers the buffer. *)
Theorem overwrite_whole_sectors_reads_back {F : Type} `{FreeMap F}
    (st : fs_state (F := F)) (p : nat) (ino : inode) (q : Z) (secs buffer : list Z) :
  heap st !! p = Some ino ->
  deny_write_cnt ino = 0 ->
  0 <= q ->
  q + Z.of_nat (List.length secs) <= 10 ->
  (forall j s, secs !! j = Some s ->
     direct (data ino) !! (Z.to_nat q + j)%nat = Some s) ->
  512 * (q + Z.of_nat (List.length secs)) <= length (data ino) < 2147483648 ->
  List.length buffer = (512 * List.length secs)%nat ->
  (forall s, s ∈ secs -> is_Some (fs_device st !! s)) ->
  NoDup secs ->
  exists st1,
    inode_write_at (Some p) buffer (512 * Z.of_nat (List.length secs)) (512 * q) st
    = Done (512 * Z.of_nat (List.length secs), st1)
    /\ heap st1 = heap st
    /\ free_map st1 = free_map st
    /\ io_log st1 = io_log st ++ map IoWrite secs
    /\ (forall s, s ∉ secs -> fs_device st1 !! s = fs_device st !! s)
    /\ exists st2,
         inode_read_at (Some p) true (512 * Z.of_nat (List.length secs)) (512 * q) st1
         = Done ((512 * Z.of_nat (List.length secs), buffer), st2).
Proof.
  intros Hp Hdeny Hq Hq10 Hdir [Hfile Hlen] Hbuf Hdev Hnd.
  set (k := Z.of_nat (List.length secs)) in *.
  assert (Hk : 0 <= k) by (unfold k; lia).
  destruct (write_loop_direct p ino buffer Hlen secs q 0 (Z.to_nat (512 * k)) st)
    as (st1 & Hrun & Hheap & Hfm & Hreg & Hlog & Hnew & Hold);
    try assumption; try (fold k; lia).
  fold k in Hrun. rewrite Z.add_0_l in Hrun.
  exists st1. split; [|split; [exact Hheap|split; [exact Hfm|split; [exact Hlog|split; [exact Hold|]]]]].
  { unfold inode_write_at.
    rewrite (bind_done _ _ _ _ _ (deref_live p ino st Hp)).
    rewrite Hdeny. cbn [Z.eqb negb].
    rewrite int_add_id by (unfold in_int; lia).
    replace (512 * q + 512 * k >? length (data ino)) with false
      by (symmetry; rewrite Z.gtb_ltb; apply Z.ltb_ge; lia).
    unfold bind at 1. unfold ret at 1. exact Hrun. }
  assert (Hp1 : heap st1 !! p = Some ino) by (rewrite Hheap; exact Hp).
  assert (Hsec : forall pos, 512 * q <= pos < 512 * q + 512 * k ->
            exists s, secs !! Z.to_nat (pos / 512 - q) = Some s
                      /\ sector_of st1 (Some p) pos = Some s).
  { intros pos Hpos.
    assert (Hj : q <= pos / 512 < q + k) by (Z.div_mod_to_equations; lia).
    destruct (lookup_lt_is_Some_2 secs (Z.to_nat (pos / 512 - q))) as [s Hs];
      [unfold k in Hj; lia|].
    exists s. split; [exact Hs|]. unfold sector_of.
    rewrite (byte_to_sector_direct p ino st1 (pos / 512) s pos Hp1); try lia;
      [reflexivity|].
    rewrite <- (Hdir _ _ Hs). f_equal. lia. }
  assert (Hchunk : forall j : nat, (j < List.length secs)%nat ->
            List.length (take 512 (drop (Z.to_nat 0 + 512 * j) buffer)) = 512%nat).
  { intros j Hj. rewrite length_take, length_drop, Hbuf. lia. }
  destruct (read_loop_ok st1 p ino Hp1 ltac:(lia) (Z.to_nat (512 * k)) (512 * k)
              (512 * q) 0 None [] (io_log st1))
    as (out & l & Hread & _ & Hout & Hcontent); try lia.
  { intros pos Hpos. destruct (Hsec pos Hpos) as (s & Hs & Hsof).
    exists s, (take 512 (drop (Z.to_nat 0 + 512 * Z.to_nat (pos / 512 - q)) buffer)).
    split; [exact Hsof|]. split; [exact (Hnew _ _ Hs)|].
    apply Hchunk. now apply lookup_lt_Some in Hs. }
  rewrite set_io_log_same in Hread. cbn [app] in Hread.
  assert (Hsame : out = buffer).
  { apply list_eq. intros i.
    destruct (Nat.lt_ge_cases i (List.length buffer)) as [Hlt|Hge].
    - specialize (Hcontent (Z.of_nat i) ltac:(unfold k; lia)).
      rewrite Nat2Z.id in Hcontent. rewrite Hcontent.
      destruct (Hsec (512 * q + Z.of_nat i) ltac:(unfold k; lia)) as (s & Hs & Hsof).
      unfold file_byte. rewrite Hsof, (Hnew _ _ Hs).
      unfold BLOCK_SECTOR_SIZE.
      set (pos := 512 * q + Z.of_nat i) in *.
      assert (Hdm : pos = 512 * (pos / 512) + pos `mod` 512
                    /\ 0 <= pos `mod` 512 < 512
                    /\ q <= pos / 512).
      { unfold pos. Z.div_mod_to_equations. lia. }
      destruct Hdm as (Hd1 & Hd2 & Hd3).
      set (a := pos / 512) in *. set (r := pos `mod` 512) in *.
      clearbody a r. unfold pos in Hd1.
      rewrite lookup_take_lt by lia.
      rewrite lookup_drop. f_equal. lia.
    - rewrite !lookup_ge_None_2; [reflexivity | exact Hge | lia]. }
  subst out.
  exists (set_io_log (io_log st1 ++ l) st1).
  unfold inode_read_at.
  rewrite (bind_done _ _ _ _ _ (deref_live p ino st1 Hp1)).
  rewrite int_add_id by (unfold in_int; lia).
  replace (512 * q + 512 * k >? length (data ino)) with false
    by (symmetry; rewrite Z.gtb_ltb; apply Z.ltb_ge; lia).
  rewrite Hread. reflexivity.
Qed.

Lemma overwrite_whole_sectors_reads_back_witness :
  exists st1,
    inode_write_at (Some 0%nat) (payload 1024) (512 * Z.of_nat 2) (512 * 0) two_sector_file
    = Done (512 * Z.of_nat 2, st1)
    /\ heap st1 = heap two_sector_file
    /\ free_map st1 = free_map two_sector_file
    /\ io_log st1 = io_log two_sector_file ++ map IoWrite [1; 2]
    /\ (forall s, s ∉ [1; 2] -> fs_device st1 !! s = fs_device two_sector_file !! s)
    /\ exists st2,
         inode_read_at (Some 0%nat) true (512 * Z.of_nat 2) (512 * 0) st1
         = Done ((512 * Z.of_nat 2, payload 1024), st2).
Proof.
  apply (overwrite_whole_sectors_reads_back two_sector_file 0%nat two_sector_inode 0
           [1; 2] (payload 1024)).
  - reflexivity.
  - reflexivity.
  - lia.
  - cbn. lia.
  - intros [|[|j]] s Hj; inversion Hj; reflexivity.
  - cbn. lia.
  - vm_compute. reflexivity.
  - intros s Hs. apply list_elem_of_In in Hs. cbn in Hs.
    destruct Hs as [<-|[<-|[]]]; vm_compute; eauto.
  - apply NoDup_cons. split; [|apply NoDup_singleton].
    intros Hin. apply list_elem_of_singleton in Hin. discriminate.
Defined.

(** ** Growth *)

Section GrowthFacts.

Context {F : Type} `{FreeMap F}.

Lemma alloc_run_length (n : nat) :
  forall slist (st st' : fs_state (F := F)) obtained,
    alloc_run n slist st = Done (obtained, st') ->
    (List.length slist <= List.length obtained <= List.length slist + n)%nat.
Proof.
  induction n as [|n IH]; intros slist st st' obtained Hrun; cbn [alloc_run] in Hrun.
  - injection Hrun as <- _. lia.
  - apply bind_inv in Hrun as (r & st1 & _ & Hrun).
    destruct r as [s|].
    + apply IH in Hrun. rewrite length_app in Hrun. cbn in Hrun. lia.
    + injection Hrun as <- _. lia.
Qed.

(** A wiring loop keeps the length of the array and every slot that
    was in use. *)
Lemma fill_run_keeps (slist a : list Z) :
  forall iter (st st' : fs_state (F := F)) a' iter' written fin,
    fill_run slist a iter st = Done ((a', iter', written, fin), st') ->
    List.length a' = List.length a
    /\ forall j x, a !! j = Some x -> x <> sentinel -> a' !! j = Some x.
Proof.
  induction a as [|x a IH]; intros iter st st' a' iter' written fin Hrun;
    cbn [fill_run] in Hrun.
  - injection Hrun as <- _ _ _ _. split; [reflexivity|]. intros j y Hj. inversion Hj.
  - destruct (x =? sentinel) eqn:Ex.
    + apply Z.eqb_eq in Ex. subst x.
      apply bind_inv in Hrun as (v & st1 & _ & Hrun).
      apply bind_inv in Hrun as (next & st2 & _ & Hrun).
      destruct (next =? sentinel).
      * injection Hrun as <- _ _ _ _. split; [reflexivity|].
        intros [|j] y Hj Hy; [injection Hj as <-; contradiction | exact Hj].
      * apply bind_inv in Hrun as ([[[a'' it] w] f] & st3 & Hrec & Hrun).
        injection Hrun as <- _ _ _ _.
        destruct (IH _ _ _ _ _ _ _ Hrec) as [Hl Hk].
        split; [cbn; now rewrite Hl|].
        intros [|j] y Hj Hy; [injection Hj as <-; contradiction | now apply Hk].
    + apply bind_inv in Hrun as ([[[a'' it] w] f] & st3 & Hrec & Hrun).
      injection Hrun as <- _ _ _ _.
      destruct (IH _ _ _ _ _ _ _ Hrec) as [Hl Hk].
      split; [cbn; now rewrite Hl|].
      intros [|j] y Hj Hy; [exact Hj | now apply Hk].
Qed.

End GrowthFacts.

Section GrowthResult.

Context {F : Type} `{FreeMap F}.

Lemma through_inv (ok : bool) (st st' : fs_state (F := F)) :
  through ok st = Done (tt, st') -> ok = true /\ st' = st.
Proof.
  unfold through. destruct ok; [|discriminate].
  intros Hr. injection Hr as <-. split; reflexivity.
Qed.

(** The allocation loop never stops the run. *)
Lemma alloc_run_total (n : nat) :
  forall slist (st : fs_state (F := F)),
    exists obtained st1, alloc_run n slist st = Done (obtained, st1).
Proof.
  induction n as [|n IH]; intros slist st; cbn [alloc_run].
  - eexists _, _. reflexivity.
  - unfold bind, fm_allocate.
    destruct (free_map_allocate 1 (free_map st)) as [[s f]|].
    + apply IH.
    + eexists _, _. reflexivity.
Qed.

Lemma wire_keeps (mem : ext_memory) (slist : list Z) (d : inode_disk)
    (st st' : fs_state (F := F)) (loc : ext_locals) :
  wire mem slist d st = Done (loc, st') ->
  descriptor_kept d (l_disk_inode loc).
Proof.
  unfold wire. intros Hrun.
  apply bind_inv in Hrun as (s0 & st0 & _ & Hrun).
  destruct (s0 =? sentinel).
  { injection Hrun as <- _. unfold descriptor_kept; cbn. repeat split; auto. }
  apply bind_inv in Hrun as ([[[direct' iter] w] fin] & st1 & Hfill & Hrun).
  apply fill_run_keeps in Hfill as [Hl Hk].
  destruct fin.
  { injection Hrun as <- _. unfold descriptor_kept; cbn. repeat split; auto. }
  cbn [single_level set_direct] in Hrun.
  apply bind_inv in Hrun as ([[disk2 level1] index] & st2 & Hsingle & Hrun).
  assert (Hd2 : direct disk2 = direct'
                /\ (single_level d <> sentinel -> single_level disk2 = single_level d)
                /\ double_level disk2 = double_level d
                /\ magic disk2 = magic d /\ unused disk2 = unused d).
  { destruct (single_level d =? sentinel) eqn:Es.
    - apply bind_inv in Hsingle as (ix & st3 & _ & Hsingle).
      apply bind_inv in Hsingle as (v & st4 & _ & Hsingle).
      injection Hsingle as <- _ _ _. cbn. apply Z.eqb_eq in Es.
      repeat split; try reflexivity. intros Hne. contradiction.
    - apply bind_inv in Hsingle as (b & st3 & _ & Hsingle).
      injection Hsingle as <- _ _ _. cbn. repeat split; reflexivity. }
  destruct Hd2 as (Hdir2 & Hs2 & Hdb2 & Hm2 & Hu2).
  apply bind_inv in Hrun as ([] & st2' & _ & Hrun).
  apply bind_inv in Hrun as ([[[level1' iter1] w1] fin1] & st3 & _ & Hrun).
  destruct fin1.
  { injection Hrun as <- _. unfold descriptor_kept; cbn.
    rewrite Hdir2, Hdb2, Hm2, Hu2. repeat split; auto. }
  apply bind_inv in Hrun as ([[disk3 level2_1] index3] & st4 & Hdouble & Hrun).
  assert (Hd3 : direct disk3 = direct'
                /\ (single_level d <> sentinel -> single_level disk3 = single_level d)
                /\ (double_level d <> sentinel -> double_level disk3 = double_level d)
                /\ magic disk3 = magic d /\ unused disk3 = unused d).
  { destruct (double_level disk2 =? sentinel) eqn:Ed.
    - apply bind_inv in Hdouble as (ix & st5 & _ & Hdouble).
      apply bind_inv in Hdouble as (v & st6 & _ & Hdouble).
      injection Hdouble as <- _ _ _. cbn. apply Z.eqb_eq in Ed.
      repeat split; try assumption. intros Hne. congruence.
    - apply bind_inv in Hdouble as (b & st5 & _ & Hdouble).
      injection Hdouble as <- _ _ _. repeat split; try assumption.
      intros _. exact Hdb2. }
  destruct Hd3 as (Hdir3 & Hs3 & Hdb3 & Hm3 & Hu3).
  apply bind_inv in Hrun as ([] & st4' & _ & Hrun).
  apply bind_inv in Hrun as ([[l21 l22] i] & st5 & _ & Hrun).
  injection Hrun as <- _. unfold descriptor_kept; cbn.
  rewrite Hdir3, Hm3, Hu3. repeat split; auto.
Qed.

(** What a file_extension that returns has done: memory was returned
    for the sector list and for the descriptor copy, the list with its
    terminator fits the block, and the handle holds the descriptor the
    wiring made, with the new length. *)
Lemma file_extension_with_result (mem : ext_memory) (p : nat) (ino : inode)
    (size offset : Z) (st st' : fs_state (F := F)) :
  heap st !! p = Some ino ->
  file_extension_with mem (Some p) size offset st = Done (tt, st') ->
  exists room obtained st1 d',
    slist_ok mem = true
    /\ disk_inode_ok mem = true
    /\ malloc_block (to_uint (sectors_required offset size
                              -i sectors_allocated (length (data ino)) +i 1))
       = Some room
    /\ alloc_run (Z.to_nat (sectors_required offset size
                            -i sectors_allocated (length (data ino)))) [] st
       = Done (obtained, st1)
    /\ 4 * (Z.of_nat (List.length obtained) + 1) <= room
    /\ descriptor_kept (data ino) d'
    /\ heap st' !! p
       = Some (set_data
                 (set_length (modified_length (length (data ino))
                                (Z.of_nat (List.length obtained))) d')
                 ino).
Proof.
  assert (Hlh : log_free (F := F) heap) by (intros ? ?; reflexivity).
  assert (Hdh : device_free (F := F) heap) by (intros ? ?; reflexivity).
  assert (Hah : allocator_free (F := F) heap) by (intros ? ?; reflexivity).
  intros Hp Hrun. unfold file_extension_with in Hrun.
  rewrite (bind_done _ _ _ _ _ (deref_live p ino st Hp)) in Hrun.
  cbv zeta in Hrun.
  fold (sectors_allocated (length (data ino))) in Hrun.
  fold (sectors_required offset size) in Hrun.
  destruct (slist_ok mem); [|discriminate].
  destruct (malloc_block _) as [room|] eqn:Hroom; [|discriminate].
  apply bind_inv in Hrun as (obtained & st1 & Hrun1 & Hrun).
  destruct (room <? _) eqn:Hfit; [discriminate|]. apply Z.ltb_ge in Hfit.
  apply bind_inv in Hrun as ([] & st2 & Hrun2 & Hrun).
  apply bind_inv in Hrun as ([] & st2' & Hthrough & Hrun).
  apply through_inv in Hthrough as [Hdisk ->].
  apply bind_inv in Hrun as (loc & st3 & Hrun3 & Hrun).
  apply bind_inv in Hrun as ([] & st4 & Hrun4 & Hrun).
  apply bind_inv in Hrun as ([] & st5 & Hrun5 & Hrun).
  exists room, obtained, st1, (l_disk_inode loc).
  split; [reflexivity|]. split; [exact Hdisk|]. split; [reflexivity|].
  split; [exact Hrun1|]. split; [exact Hfit|].
  split; [exact (wire_keeps _ _ _ _ _ _ Hrun3)|].
  assert (H4 : heap st4 = heap st).
  { rewrite (keeps_block_write heap _ _ Hlh Hdh _ _ _ Hrun4).
    rewrite (keeps_wire heap _ _ _ Hlh Hdh Hah _ _ _ Hrun3).
    transitivity (heap st1).
    - match type of Hrun2 with
      | ?m _ = _ => assert (Hk : keeps heap m) by frame_auto
      end.
      exact (Hk _ _ _ Hrun2).
    - exact (keeps_alloc_run heap _ Hah _ _ _ _ Hrun1). }
  assert (Hp4 : heap st4 !! p = Some ino) by (rewrite H4; exact Hp).
  rewrite (store_live p ino _ st4 Hp4) in Hrun5. injection Hrun5 as <-.
  assert (H5 : heap st' = <[p := set_data
                 (set_length (modified_length (length (data ino))
                                (Z.of_nat (List.length obtained))) (l_disk_inode loc))
                 ino]> (heap st4)).
  { revert Hrun. generalize tt. intros u Hrun.
    match type of Hrun with
    | ?m ?s = _ => assert (Hk : keeps heap m) by frame_auto
    end.
    exact (Hk _ _ _ Hrun). }
  rewrite H5. apply lookup_insert_eq.
Qed.

(** The block that malloc returns for more than 4 bytes is shorter
    than that many words. *)
Lemma malloc_block_short (size room : Z) :
  5 <= size ->
  malloc_block size = Some room ->
  room < 4 * size.
Proof.
  intros Hsize. unfold malloc_block.
  repeat match goal with
         | |- context [?a =? ?b] => destruct (Z.eqb_spec a b)
         | |- context [?a <=? ?b] => destruct (Z.leb_spec a b)
         end;
    intros Hr; try discriminate; try lia;
    injection Hr as <-; try lia.
  Z.div_mod_to_equations. lia.
Qed.

(** The least block of malloc holds four words. *)
Lemma malloc_block_least (size : Z) :
  1 <= size <= 2147483647 ->
  exists room, malloc_block size = Some room /\ 16 <= room /\ size <= room.
Proof.
  intros Hsize. unfold malloc_block.
  repeat match goal with
         | |- context [?a =? ?b] => destruct (Z.eqb_spec a b)
         | |- context [?a <=? ?b] => destruct (Z.leb_spec a b)
         end; try lia;
    eexists; (split; [reflexivity|]); try lia.
  Z.div_mod_to_equations. lia.
Qed.

End GrowthResult.

(** X17. The length after a growth.  When file_extension returns for a
    write that ends beyond the length (all values in the range of
    [off_t] with room for the rounding), whatever the outcome of its
    mallocs, the length it records is 512 times (length / 512 + 1 + i),
    where [i] is the number of sectors that its allocation loop obtained
    from the allocator when asked for ceil (end / 512) - ceil (length /
    512) of them: the new length is always a whole number of sectors and
    greater than the old one, whether or not the allocator supplied
    anything. *)
Theorem growth_length {F : Type} `{FreeMap F} (mem : ext_memory)
    (st st' : fs_state (F := F)) (p : nat) (ino : inode) (size offset : Z) :
  heap st !! p = Some ino ->
  0 <= length (data ino) < offset + size ->
  offset + size <= 2147483647 - 1024 ->
  in_int offset ->
  file_extension_with mem (Some p) size offset st = Done (tt, st') ->
  exists obtained st1 ino',
    alloc_run (Z.to_nat ((offset + size + 511) / 512 - (length (data ino) + 511) / 512))
      [] st = Done (obtained, st1)
    /\ (List.length obtained
        <= Z.to_nat ((offset + size + 511) / 512 - (length (data ino) + 511) / 512))%nat
    /\ heap st' !! p = Some ino'
    /\ length (data ino')
       = 512 * (length (data ino) / 512 + 1 + Z.of_nat (List.length obtained))
    /\ length (data ino) < length (data ino').
Proof.
  intros Hp Hlen Hmax Hoff Hrun. unfold in_int in Hoff.
  destruct (file_extension_with_result mem p ino size offset st st' Hp Hrun)
    as (room & obtained & st1 & d' & _ & _ & _ & Halloc & _ & _ & Hp').
  pose proof (alloc_run_length _ _ _ _ _ Halloc) as Hcount.
  cbn [List.length] in Hcount.
  set (len := length (data ino)) in *.
  assert (Hreq : sectors_required offset size = (offset + size + 511) / 512).
  { unfold sectors_required, BLOCK_SECTOR_SIZE.
    rewrite (int_add_id offset size) by (unfold in_int; lia).
    rewrite (int_sub_id (offset + size) 1) by (unfold in_int; lia).
    rewrite int_div_nonneg by (unfold in_int; lia).
    rewrite int_add_id
      by (unfold in_int; Z.div_mod_to_equations; lia).
    Z.div_mod_to_equations. lia. }
  assert (Hal : sectors_allocated len = (len + 511) / 512).
  { unfold sectors_allocated, BLOCK_SECTOR_SIZE.
    destruct (Z.eqb_spec len 0) as [->|Hne]; [reflexivity|].
    rewrite (int_sub_id len 1) by (unfold in_int; lia).
    rewrite int_div_nonneg by (unfold in_int; lia).
    rewrite int_add_id
      by (unfold in_int; Z.div_mod_to_equations; lia).
    Z.div_mod_to_equations. lia. }
  rewrite Hreq, Hal in Halloc, Hcount.
  assert (Hdiff : in_int ((offset + size + 511) / 512 - (len + 511) / 512)).
  { unfold in_int. Z.div_mod_to_equations. lia. }
  rewrite (int_sub_id _ _ Hdiff) in Halloc, Hcount.
  set (i := Z.of_nat (List.length obtained)) in *.
  assert (Hi : 0 <= i <= (offset + size + 511) / 512 - (len + 511) / 512).
  { unfold i. split; [lia|].
    assert (0 <= (offset + size + 511) / 512 - (len + 511) / 512)
      by (Z.div_mod_to_equations; lia).
    lia. }
  assert (Hm : modified_length len i = 512 * (len / 512 + 1 + i)).
  { unfold modified_length, BLOCK_SECTOR_SIZE.
    rewrite (int_rem_nonneg len 512) by lia.
    assert (Hb : i * 512 <= offset + size + 511 - len)
      by (Z.div_mod_to_equations; lia).
    rewrite (int_sub_id 512) by (unfold in_int; Z.div_mod_to_equations; lia).
    rewrite (int_mul_id i 512) by (unfold in_int; lia).
    rewrite (int_add_id (512 - len `mod` 512))
      by (unfold in_int; Z.div_mod_to_equations; lia).
    rewrite int_add_id by (unfold in_int; Z.div_mod_to_equations; lia).
    Z.div_mod_to_equations. lia. }
  exists obtained, st1. eexists. split; [exact Halloc|].
  split; [lia|]. split; [exact Hp'|].
  cbn [data set_data length set_length]. rewrite Hm.
  split; [reflexivity|]. Z.div_mod_to_equations. lia.
Qed.

Lemma growth_length_witness :
  exists st' st1 ino',
    file_extension_with enough (Some 0%nat) 1300 0 shared = Done (tt, st')
    /\ alloc_run 3 [] shared = Done ([1; 2; 3], st1)
    /\ heap st' !! 0%nat = Some ino'
    /\ length (data ino') = 2048.
Proof.
  assert (Hrun : exists st',
             file_extension_with enough (Some 0%nat) 1300 0 shared = Done (tt, st')).
  { eexists. vm_compute. reflexivity. }
  destruct Hrun as [st' Hrun].
  destruct (growth_length enough shared st' 0%nat shared_inode 1300 0)
    as (obtained & st1 & ino' & Halloc & _ & Hp' & Hl & _).
  - reflexivity.
  - cbn. lia.
  - lia.
  - unfold in_int. lia.
  - exact Hrun.
  - assert (Hobt : exists st1',
               alloc_run (Z.to_nat ((0 + 1300 + 511) / 512
                                    - (length (data shared_inode) + 511) / 512))
                 [] shared = Done ([1; 2; 3], st1')).
    { eexists. vm_compute. reflexivity. }
    destruct Hobt as [st1' Hobt]. rewrite Hobt in Halloc.
    injection Halloc as <- <-.
    exists st', st1', ino'. split; [exact Hrun|]. split; [exact Hobt|].
    split; [exact Hp'|]. exact Hl.
Defined.

(** X18. Growth never unwires.  Whenever file_extension returns, every
    direct pointer that was in use is still in its slot, the
    single-indirect and double-indirect pointers that were in use are
    unchanged, and so are the magic, the padding, and the sector, open
    count, removed flag and deny count of the handle. *)
Theorem growth_keeps_wired_pointers {F : Type} `{FreeMap F} (st st' : fs_state (F := F))
    (p : nat) (ino : inode) (size offset : Z) :
  heap st !! p = Some ino ->
  file_extension (Some p) size offset st = Done (tt, st') ->
  exists ino',
    heap st' !! p = Some ino'
    /\ descriptor_kept (data ino) (data ino')
    /\ sector ino' = sector ino
    /\ open_cnt ino' = open_cnt ino
    /\ removed ino' = removed ino
    /\ deny_write_cnt ino' = deny_write_cnt ino.
Proof.
  intros Hp Hrun.
  destruct (file_extension_with_result enough p ino size offset st st' Hp Hrun)
    as (room & obtained & st1 & d' & _ & _ & _ & _ & _ & Hkept & Hp').
  eexists. split; [exact Hp'|]. cbn. repeat split; try reflexivity; apply Hkept.
Qed.

Lemma growth_keeps_wired_pointers_witness :
  exists st' ino',
    file_extension (Some 0%nat) 1000 700 small_file = Done (tt, st')
    /\ heap st' !! 0%nat = Some ino'
    /\ descriptor_kept desc700 (data ino')
    /\ sector ino' = 0.
Proof.
  assert (Hrun : exists st', file_extension (Some 0%nat) 1000 700 small_file = Done (tt, st')).
  { eexists. vm_compute. reflexivity. }
  destruct Hrun as [st' Hrun].
  destruct (growth_keeps_wired_pointers small_file st' 0%nat small_inode 1000 700
              small_file_heap Hrun) as (ino' & Hp' & Hkept & Hs & _).
  exists st', ino'. split; [exact Hrun|]. split; [exact Hp'|].
  split; [exact Hkept | exact Hs].
Defined.

Section DirectGrowth.

Context {F : Type} `{FreeMap F}.

Lemma fill_free_nil (a : list Z) : fill_free [] a = a.
Proof.
  induction a as [|x a IH]; cbn; [reflexivity|].
  destruct (x =? sentinel); [reflexivity | now rewrite IH].
Qed.

Lemma array_get_live (a : list Z) (i : Z) (v : Z) (st : fs_state (F := F)) :
  0 <= i -> a !! Z.to_nat i = Some v -> array_get a i st = Done (v, st).
Proof.
  intros Hi Hv. unfold array_get.
  pose proof (lookup_lt_Some _ _ _ Hv) as Hlt.
  replace ((i <? 0) || (Z.of_nat (List.length a) <=? i)) with false.
  - now rewrite Hv.
  - symmetry. apply orb_false_iff. split; [apply Z.ltb_ge | apply Z.leb_gt]; lia.
Qed.

(** A wiring loop over an array with room for all the sectors that are
    left: the free slots receive them in order, and the loop leaves
    through [goto fin]. *)
Lemma fill_run_fills (obtained : list Z) (st : fs_state (F := F)) :
  Forall (fun s => s <> sentinel) obtained ->
  Z.of_nat (List.length obtained) < 2147483647 ->
  forall a iter,
    0 <= iter < Z.of_nat (List.length obtained) ->
    Z.of_nat (List.length obtained) - iter <= Z.of_nat (free_slots a) ->
    exists iter' w,
      fill_run (obtained ++ [sentinel]) a iter st
      = Done ((fill_free (drop (Z.to_nat iter) obtained) a, iter', w, true), st).
Proof.
  intros Hne Hmax. induction a as [|x a IH]; intros iter Hiter Hroom.
  { cbn in Hroom. lia. }
  cbn [fill_run fill_free free_slots] in *.
  destruct (x =? sentinel) eqn:Ex.
  - destruct (lookup_lt_is_Some_2 obtained (Z.to_nat iter)) as [v Hv]; [lia|].
    rewrite (drop_S _ _ _ Hv).
    rewrite (bind_done _ _ _ _ _
               (array_get_live (obtained ++ [sentinel]) iter v st ltac:(lia)
                  ltac:(rewrite lookup_app_l by lia; exact Hv))).
    cbv zeta. rewrite (int_add_id iter 1) by (unfold in_int; lia).
    destruct (decide (iter + 1 = Z.of_nat (List.length obtained))) as [Hlast|Hmore].
    + rewrite (bind_done _ _ _ _ _
                 (array_get_live (obtained ++ [sentinel]) (iter + 1) sentinel st ltac:(lia)
                    ltac:(rewrite lookup_app_r by lia;
                          replace (Z.to_nat (iter + 1) - List.length obtained)%nat
                            with 0%nat by lia; reflexivity))).
      rewrite Z.eqb_refl.
      rewrite drop_ge by lia. rewrite fill_free_nil.
      eexists _, _. reflexivity.
    + destruct (lookup_lt_is_Some_2 obtained (Z.to_nat (iter + 1))) as [v' Hv']; [lia|].
      rewrite (bind_done _ _ _ _ _
                 (array_get_live (obtained ++ [sentinel]) (iter + 1) v' st ltac:(lia)
                    ltac:(rewrite lookup_app_l by lia; exact Hv'))).
      assert (Hv'ne : v' <> sentinel).
      { rewrite Forall_lookup in Hne. exact (Hne _ _ Hv'). }
      replace (v' =? sentinel) with false by (symmetry; apply Z.eqb_neq; exact Hv'ne).
      destruct (IH (iter + 1)) as (iter' & w & Hrec); [lia | lia |].
      rewrite (bind_done _ _ _ _ _ Hrec).
      replace (S (Z.to_nat iter)) with (Z.to_nat (iter + 1)) by lia.
      eexists _, _. reflexivity.
  - destruct (IH iter) as (iter' & w & Hrec); [lia | lia |].
    rewrite (bind_done _ _ _ _ _ Hrec).
    eexists _, _. reflexivity.
Qed.

Lemma set_direct_same (d : inode_disk) : set_direct (direct d) d = d.
Proof. now destruct d. Qed.

Lemma wire_direct (mem : ext_memory) (obtained : list Z) (d : inode_disk)
    (st : fs_state (F := F)) :
  Forall (fun s => s <> sentinel) obtained ->
  (List.length obtained <= free_slots (direct d))%nat ->
  List.length (direct d) = 10%nat ->
  wire mem (obtained ++ [sentinel]) d st
  = Done (mk_locals (set_direct (fill_free obtained (direct d)) d) None None None 0, st).
Proof.
  intros Hne Hroom Hlen. unfold wire.
  assert (Hslots : forall a, (free_slots a <= List.length a)%nat).
  { induction a as [|x a IH]; cbn; [lia|]. destruct (x =? sentinel); lia. }
  pose proof (Hslots (direct d)) as Hle.
  destruct obtained as [|s0 rest].
  - rewrite (bind_done _ _ _ _ _
               (array_get_live ([] ++ [sentinel]) 0 sentinel st ltac:(lia) eq_refl)).
    rewrite Z.eqb_refl, fill_free_nil, set_direct_same. reflexivity.
  - rewrite (bind_done _ _ _ _ _
               (array_get_live ((s0 :: rest) ++ [sentinel]) 0 s0 st ltac:(lia) eq_refl)).
    replace (s0 =? sentinel) with false
      by (symmetry; apply Z.eqb_neq; exact (Forall_inv Hne)).
    destruct (fill_run_fills (s0 :: rest) st Hne ltac:(lia) (direct d) 0)
      as (iter' & w & Hfill); [cbn [List.length]; lia | lia |].
    rewrite (bind_done _ _ _ _ _ Hfill). reflexivity.
Qed.

End DirectGrowth.

(** X19. Growth inside the direct tier.  For a handle whose file ends
    in the direct tier and whose descriptor sector is on the device:
    when malloc returns memory for the sector list and for the copy of
    the descriptor, the sectors that the allocator supplies fit with
    their terminator in the block that malloc returned for the list (a
    block of 16 bytes holds three sectors and the terminator), none of
    them is the sentinel, and all fit in the free direct slots, then
    file_extension returns; the free direct slots have received the
    sectors obtained, in the order obtained; the single-indirect and
    double-indirect pointers are as before; the only sector written is
    the descriptor's, and it holds the encoding of the descriptor now
    cached in the handle. *)
Theorem growth_in_direct_tier {F : Type} `{FreeMap F} (mem : ext_memory)
    (st st1 : fs_state (F := F)) (p : nat) (ino : inode) (size offset : Z)
    (room : Z) (obtained : list Z) :
  heap st !! p = Some ino ->
  0 <= length (data ino) < 10 * BLOCK_SECTOR_SIZE ->
  List.length (direct (data ino)) = 10%nat ->
  is_Some (fs_device st !! sector ino) ->
  slist_ok mem = true ->
  disk_inode_ok mem = true ->
  malloc_block (to_uint (sectors_required offset size
                         -i sectors_allocated (length (data ino)) +i 1))
  = Some room ->
  alloc_run (Z.to_nat (sectors_required offset size
                       -i sectors_allocated (length (data ino)))) [] st
  = Done (obtained, st1) ->
  4 * (Z.of_nat (List.length obtained) + 1) <= room ->
  Forall (fun s => s <> sentinel) obtained ->
  (List.length obtained <= free_slots (direct (data ino)))%nat ->
  exists st' ino',
    file_extension_with mem (Some p) size offset st = Done (tt, st')
    /\ heap st' !! p = Some ino'
    /\ direct (data ino') = fill_free obtained (direct (data ino))
    /\ single_level (data ino') = single_level (data ino)
    /\ double_level (data ino') = double_level (data ino)
    /\ fs_device st' = <[sector ino := encode_inode (data ino')]> (fs_device st)
    /\ free_map st' = free_map st1
    /\ open_inodes st' = open_inodes st.
Proof.
  intros Hp Hlen Hdirect [old Hsec] Hslist Hdisk Hblock Halloc Hfit Hne Hroom.
  unfold BLOCK_SECTOR_SIZE in Hlen.
  assert (Hheap1 : heap st1 = heap st).
  { refine (keeps_alloc_run heap _ _ _ _ _ _ Halloc). intros ? ?; reflexivity. }
  assert (Hdev1 : fs_device st1 = fs_device st).
  { refine (keeps_alloc_run fs_device _ _ _ _ _ _ Halloc). intros ? ?; reflexivity. }
  assert (Hreg1 : open_inodes st1 = open_inodes st).
  { refine (keeps_alloc_run open_inodes _ _ _ _ _ _ Halloc). intros ? ?; reflexivity. }
  assert (Hp1 : heap st1 !! p = Some ino) by (rewrite Hheap1; exact Hp).
  assert (Hstep2 : (if length (data ino) %i BLOCK_SECTOR_SIZE =? 0 then ret tt
                    else byte_to_sector (Some p) (length (data ino)) ;;; ret tt) st1
                   = Done (tt, st1)).
  { destruct (_ =? 0); [reflexivity|].
    destruct (lookup_lt_is_Some_2 (direct (data ino))
                (Z.to_nat (length (data ino) / 512))) as [s Hs].
    { rewrite Hdirect. Z.div_mod_to_equations. lia. }
    rewrite (bind_done _ _ _ _ _
               (byte_to_sector_direct p ino st1 (length (data ino) / 512) s
                  (length (data ino)) Hp1
                  ltac:(Z.div_mod_to_equations; lia) Hs ltac:(lia) eq_refl)).
    reflexivity. }
  unfold file_extension_with.
  rewrite (bind_done _ _ _ _ _ (deref_live p ino st Hp)). cbv zeta.
  fold (sectors_allocated (length (data ino))). fold (sectors_required offset size).
  rewrite Hslist, Hblock.
  rewrite (bind_done _ _ _ _ _ Halloc).
  replace (room <? 4 * (Z.of_nat (List.length obtained) + 1)) with false
    by (symmetry; apply Z.ltb_ge; exact Hfit).
  rewrite (bind_done _ _ _ _ _ Hstep2).
  rewrite Hdisk. unfold through at 1. unfold bind at 1, ret at 1.
  rewrite (bind_done _ _ _ _ _ (wire_direct mem obtained (data ino) st1 Hne Hroom Hdirect)).
  cbn [l_disk_inode l_level1 l_level2_1 l_level2_2].
  unfold block_write at 1. unfold bind at 1. rewrite Hdev1, Hsec.
  unfold store, bind at 1. cbn [heap set_io_log set_device]. rewrite Hp1.
  eexists _, _. split; [reflexivity|].
  cbn. rewrite lookup_insert_eq. split; [reflexivity|].
  repeat split; try reflexivity. exact Hreg1.
Qed.

Lemma growth_in_direct_tier_witness :
  exists st' ino',
    file_extension_with enough (Some 0%nat) 1000 700 small_file = Done (tt, st')
    /\ heap st' !! 0%nat = Some ino'
    /\ direct (data ino') = [1; 2; 3; 4] ++ replicate 6 sentinel
    /\ fs_device st' = <[0 := encode_inode (data ino')]> (fs_device small_file)
    /\ free_map st' = [5; 6; 7].
Proof.
  assert (Halloc : exists st1,
             alloc_run (Z.to_nat (sectors_required 700 1000
                                  -i sectors_allocated (length (data small_inode)))) []
               small_file = Done ([3; 4], st1) /\ free_map st1 = [5; 6; 7]).
  { eexists. split; vm_compute; reflexivity. }
  destruct Halloc as (st1 & Halloc & Hfree).
  destruct (growth_in_direct_tier enough small_file st1 0%nat small_inode 1000 700
              16 [3; 4])
    as (st' & ino' & Hrun & Hp' & Hd & _ & _ & Hdev & Hfm & _).
  - exact small_file_heap.
  - cbn. unfold BLOCK_SECTOR_SIZE. lia.
  - reflexivity.
  - eexists. vm_compute. reflexivity.
  - reflexivity.
  - reflexivity.
  - vm_compute. reflexivity.
  - exact Halloc.
  - cbn. lia.
  - repeat constructor; discriminate.
  - vm_compute. lia.
  - exists st', ino'. split; [exact Hrun|]. split; [exact Hp'|].
    split; [exact Hd|]. split; [exact Hdev|]. rewrite Hfm. exact Hfree.
Defined.



(** X21. Growth needs memory.  file_extension checks none of its
    mallocs: when malloc returns no memory for the sector list or for
    the copy of the descriptor, file_extension never returns, whatever
    the state and the arguments. *)
Theorem growth_needs_memory {F : Type} `{FreeMap F} (mem : ext_memory)
    (st : fs_state (F := F)) (h : option nat) (size offset : Z) :
  slist_ok mem = false \/ disk_inode_ok mem = false ->
  exists f, file_extension_with mem h size offset st = Fault f.
Proof.
  intros Hmem. unfold file_extension_with.
  destruct (deref h st) as [[ino st0]|f] eqn:Hderef.
  2: { exists f. now rewrite (bind_fault _ _ _ _ Hderef). }
  rewrite (bind_done _ _ _ _ _ Hderef). cbv zeta.
  destruct (slist_ok mem) eqn:Hslist; [|eexists; reflexivity].
  destruct Hmem as [Hmem|Hdisk]; [discriminate|].
  destruct (malloc_block _) as [room|]; [|eexists; reflexivity].
  match goal with
  | |- context [alloc_run ?n ?l] =>
      destruct (alloc_run_total n l st0) as (obtained & st1 & Halloc)
  end.
  rewrite (bind_done _ _ _ _ _ Halloc).
  destruct (room <? _); [eexists; reflexivity|].
  match goal with
  | |- context [bind ?m _ st1] =>
      destruct (m st1) as [[[] st2]|f] eqn:Hstep
  end.
  2: { exists f. now rewrite (bind_fault _ _ _ _ Hstep). }
  rewrite (bind_done _ _ _ _ _ Hstep).
  rewrite Hdisk. eexists. reflexivity.
Qed.

Lemma growth_needs_memory_witness :
  exists f,
    file_extension_with (mk_memory true false true true true) (Some 0%nat) 512 0 shared
    = Fault f.
Proof.
  apply (growth_needs_memory (mk_memory true false true true true) shared
           (Some 0%nat) 512 0).
  right. reflexivity.
Defined.
